(** * Dual-monitor toggle: layout planning and toggle state machine

    A shallow embedding of [src/lib/toggle.js] and [src/lib/logger.js].

    Data follows the D-Bus tuples the JavaScript indexes by position
    ([lm[0]] .. [lm[6]], [mode[0]], [mode[6]], ...), turned into records.
    Coordinates and widths are D-Bus 32-bit integers, carried by JavaScript
    numbers without rounding, hence [Z].  The scale of a logical monitor is an
    IEEE double: it is kept abstract ([Scale]), with the one operation the
    code applies to it, [Math.round(width / scale)], as [round_div] (taken
    to be an integer: the service reports positive, finite scales).

    The flows are asynchronous and single-threaded. A flow is a function on
    a [World]: the toggle object, the logger's switch, and the list of
    effects so far. What an awaited service call resolves to is an input of
    the flow, together with one bit telling whether [destroy] ran on the
    toggle while the call was pending (the only way [this._proxy] changes
    after construction). The menu and the dialog are not modelled:
    [buildMonitorMenu] and [updateSelectedMonitorInMenu] (toggle.js 235-242,
    296-310, with the debug line of a rebuild) are taken to return normally
    and to leave the fields below alone.

    The callbacks of the proxy and of the refresh timer, the timeout sources
    of the toggle ([Timers]), the display names, the module variables of
    the logger ([Logger]) and the payload of a log line ([_safeValue]) are
    modelled after the flows, each in a part of its own. *)

From Stdlib Require Import ZArith QArith Qround String List Bool Lia.
Import ListNotations.

Set Implicit Arguments.
Open Scope string_scope.
Open Scope Z_scope.

(** ** Data model *)

(** A D-Bus variant, as far as the code unpacks one. *)
Inductive Variant : Type :=
| VBool (b : bool)
| VInt (n : Z)
| VStr (s : string).

Definition Props := list (string * Variant).

Fixpoint prop_get (key : string) (ps : Props) : option Variant :=
  match ps with
  | [] => None
  | (k, v) :: rest => if String.eqb k key then Some v else prop_get key rest
  end.

(** JavaScript truthiness of an unpacked variant. *)
Definition variant_truthy (v : Variant) : bool :=
  match v with
  | VBool b => b
  | VInt n => negb (n =? 0)
  | VStr s => negb (String.eqb s "")
  end.

(** [props?.[key]?.deepUnpack?.()] used as a condition. *)
Definition prop_flag (key : string) (ps : Props) : bool :=
  match prop_get key ps with
  | Some v => variant_truthy v
  | None => false
  end.

(** A mode tuple: [mode[0]] id, [mode[1]] width, [mode[2]] height,
    [mode[6]] properties. The id has D-Bus type string, so the guard
    [typeof mode[0] === 'string'] always holds. *)
Record Mode : Type := {
  mode_id : string;
  mode_width : Z;
  mode_height : Z;
  mode_props : Props
}.

(** A physical monitor: [p[0]] = (connector, vendor, product, ..),
    [p[1]] = modes. *)
Record PhysicalMonitor : Type := {
  connector : string;
  vendor : string;
  product : string;
  modes : list Mode
}.

(** One [(connector, modeId, properties)] entry of [lm[5]]. *)
Record Assignment : Type := {
  a_connector : string;
  a_modeId : string;
  a_props : Props
}.

Section Model.

Variable Scale : Type.
(** The literal [1.0]. *)
Variable scale_one : Scale.
(** [Math.round(width / scale)]. *)
Variable round_div : Z -> Scale -> Z.

(** A logical monitor tuple [lm[0..6]]. *)
Record LogicalMonitor : Type := {
  x : Z;
  y : Z;
  scale : Scale;
  transform : Z;
  isPrimary : bool;
  assignments : list Assignment;
  properties : Props
}.

Definition Layout := list LogicalMonitor.

Definition set_isPrimary (b : bool) (lm : LogicalMonitor) : LogicalMonitor :=
  {| x := x lm; y := y lm; scale := scale lm; transform := transform lm;
     isPrimary := b; assignments := assignments lm;
     properties := properties lm |}.

Definition set_position (nx ny : Z) (lm : LogicalMonitor) : LogicalMonitor :=
  {| x := nx; y := ny; scale := scale lm; transform := transform lm;
     isPrimary := isPrimary lm; assignments := assignments lm;
     properties := properties lm |}.

(** ** normalizePositions (toggle.js 23-35) *)

(** The running minimum of the loop; [None] is the initial [Infinity]. *)
Definition min_step (acc : option Z) (v : Z) : option Z :=
  match acc with
  | None => Some v
  | Some m => if v <? m then Some v else Some m
  end.

Definition running_min (vs : list Z) : option Z :=
  fold_left min_step vs None.

Definition normalizePositions (logicalMonitors : Layout) : Layout :=
  match logicalMonitors with
  | [] => logicalMonitors
  | _ =>
      match running_min (map x logicalMonitors),
            running_min (map y logicalMonitors) with
      | Some minX, Some minY =>
          if (minX =? 0) && (minY =? 0) then logicalMonitors
          else map (fun lm => set_position (x lm - minX) (y lm - minY) lm)
                   logicalMonitors
      | _, _ => logicalMonitors
      end
  end.

(** ** fixPrimaryFlags (toggle.js 39-49) *)

(** The loop: [first] is the local flag of the same name. *)
Fixpoint demote_extras (first : bool) (lms : Layout) : Layout :=
  match lms with
  | [] => []
  | lm :: rest =>
      if isPrimary lm then
        (if first then lm else set_isPrimary false lm)
          :: demote_extras false rest
      else lm :: demote_extras first rest
  end.

(** The array is repaired in place; the result is the array afterwards. *)
Definition fixPrimaryFlags (logicalMonitors : Layout) : Layout :=
  let primaries := filter isPrimary logicalMonitors in
  if (length primaries <=? 1)%nat then logicalMonitors
  else demote_extras true logicalMonitors.

(** Number of entries flagged primary. *)
Definition primary_count (lms : Layout) : nat :=
  length (filter isPrimary lms).

(** Index of the first entry flagged primary. *)
Fixpoint first_primary (lms : Layout) : option nat :=
  match lms with
  | [] => None
  | lm :: rest =>
      if isPrimary lm then Some O
      else option_map S (first_primary rest)
  end.

(** ** Registry, snapshot and toggle state *)

(** JavaScript truthiness of a string, and of a string-or-null. *)
Definition str_truthy (s : string) : bool := negb (String.eqb s "").

Definition opt_truthy (o : option string) : bool :=
  match o with
  | Some s => str_truthy s
  | None => false
  end.

(** A value of [this._snapshot]; [s_modeId = None] is [null]. *)
Record SnapEntry : Type := {
  s_x : Z;
  s_y : Z;
  s_scale : Scale;
  s_transform : Z;
  s_isPrimary : bool;
  s_modeId : option string
}.

(** [this._snapshot] is a plain object keyed by connector. Its entries are
    enumerated in the order the keys were first written (connector names such
    as DP-1 or HDMI-1 are neither array indices nor names of properties an
    object inherits), and writing an existing key keeps its place: an
    association list with unique keys. *)
Definition Snapshot := list (string * SnapEntry).

Fixpoint snap_get (key : string) (snap : Snapshot) : option SnapEntry :=
  match snap with
  | [] => None
  | (k, v) :: rest => if String.eqb k key then Some v else snap_get key rest
  end.

Fixpoint snap_set (key : string) (v : SnapEntry) (snap : Snapshot) : Snapshot :=
  match snap with
  | [] => [(key, v)]
  | (k, old) :: rest =>
      if String.eqb k key then (k, v) :: rest
      else (k, old) :: snap_set key v rest
  end.

(** The fields of the toggle object the flows read or write. [proxy] tells
    whether [this._proxy] is set, [indicator] whether [this._indicator] is;
    [monitor = None] is [null]; [savedConnector] is the settings key
    monitor-setting. Menu and dialog widgets are left out. *)
Record Toggle : Type := {
  proxy : bool;
  indicator : bool;
  savedConnector : string;
  monitors : list PhysicalMonitor;
  logicalMonitors : Layout;
  serial : Z;
  layoutMode : Z;
  supportsChangingLayoutMode : bool;
  monitor : option string;
  persistenceMode : Z;
  snapshot : Snapshot;
  toggling : bool;
  checked : bool;
  sensitive : bool
}.

(** [this._monitors.find(p => p[0][0] === connector)]; the connector may be
    [null] or [undefined] ([None]), which equals no connector string. *)
Definition find_phys (mons : list PhysicalMonitor) (conn : option string)
  : option PhysicalMonitor :=
  match conn with
  | None => None
  | Some c => find (fun p => String.eqb (connector p) c) mons
  end.

Definition is_current (m : Mode) : bool := prop_flag "is-current" (mode_props m).
Definition is_preferred (m : Mode) : bool := prop_flag "is-preferred" (mode_props m).

(** [lm[5].some(m => m[0] === connector)] *)
Definition has_connector (conn : option string) (lm : LogicalMonitor) : bool :=
  match conn with
  | None => false
  | Some c => existsb (fun a => String.eqb (a_connector a) c) (assignments lm)
  end.

(** [lm[5][0]?.[0]] *)
Definition first_connector (lm : LogicalMonitor) : option string :=
  match assignments lm with
  | [] => None
  | a :: _ => Some (a_connector a)
  end.

(** ** _resolveModeId (toggle.js 358-370); [None] is [null]. *)
Definition _resolveModeId (t : Toggle) (conn : option string) : option string :=
  match find_phys (monitors t) conn, conn with
  | Some phys, Some c =>
      let snapMode :=
        match snap_get c (snapshot t) with
        | Some s => s_modeId s
        | None => None
        end in
      let offered :=
        match snapMode with
        | Some id => existsb (fun m => String.eqb (mode_id m) id) (modes phys)
        | None => false
        end in
      if opt_truthy snapMode && offered then snapMode
      else
        match find is_current (modes phys) with
        | Some current => Some (mode_id current)
        | None =>
            match find is_preferred (modes phys) with
            | Some preferred => Some (mode_id preferred)
            | None =>
                match find (fun _ => true) (modes phys) with
                | Some first => Some (mode_id first)
                | None => None
                end
            end
        end
  | _, _ => None
  end.

(** ** Logger (logger.js) and the effects of the flows *)

Inductive Level : Type := DEBUG | INFO | WARN | ERROR.

(** What a flow does to the outside: a console line (its timestamp, sequence
    number and payload are not kept), a call of the display service, a timer
    armed by [_resetTimeout]. *)
Inductive Event : Type :=
| Console (level : Level) (event : string)
| GetCurrentState
| ApplyMonitorsConfig (serial : Z) (method : Z) (lms : Layout)
                      (layoutModeProp : option Z)
| TimeoutSet (timeoutProp : string) (delayMs : Z).

(** The toggle, the logger's module variable [_enabled], and the effects so
    far, oldest first. *)
Record World : Type := {
  tg : Toggle;
  _enabled : bool;
  out : list Event
}.

Definition with_tg (t : Toggle) (w : World) : World :=
  {| tg := t; _enabled := _enabled w; out := out w |}.

Definition emit_event (e : Event) (w : World) : World :=
  {| tg := tg w; _enabled := _enabled w; out := (out w ++ [e])%list |}.

(** logger.js 87-106 *)
Definition _emit (level : Level) (event : string) (w : World) : World :=
  if negb (_enabled w) then w
  else emit_event (Console level event) w.

Definition logDebug (event : string) : World -> World := _emit DEBUG event.
Definition logInfo (event : string) : World -> World := _emit INFO event.
Definition logError (event : string) : World -> World := _emit ERROR event.
(** [logStep] logs the event named step; the detail is part of the payload. *)
Definition logStep (detail : string) : World -> World := logDebug "step".

Definition set_toggling (b : bool) (t : Toggle) : Toggle :=
  {| proxy := proxy t; indicator := indicator t;
     savedConnector := savedConnector t; monitors := monitors t;
     logicalMonitors := logicalMonitors t; serial := serial t;
     layoutMode := layoutMode t;
     supportsChangingLayoutMode := supportsChangingLayoutMode t;
     monitor := monitor t; persistenceMode := persistenceMode t;
     snapshot := snapshot t; toggling := b; checked := checked t;
     sensitive := sensitive t |}.

Definition set_checked (b : bool) (t : Toggle) : Toggle :=
  {| proxy := proxy t; indicator := indicator t;
     savedConnector := savedConnector t; monitors := monitors t;
     logicalMonitors := logicalMonitors t; serial := serial t;
     layoutMode := layoutMode t;
     supportsChangingLayoutMode := supportsChangingLayoutMode t;
     monitor := monitor t; persistenceMode := persistenceMode t;
     snapshot := snapshot t; toggling := toggling t; checked := b;
     sensitive := sensitive t |}.

Definition set_sensitive (b : bool) (t : Toggle) : Toggle :=
  {| proxy := proxy t; indicator := indicator t;
     savedConnector := savedConnector t; monitors := monitors t;
     logicalMonitors := logicalMonitors t; serial := serial t;
     layoutMode := layoutMode t;
     supportsChangingLayoutMode := supportsChangingLayoutMode t;
     monitor := monitor t; persistenceMode := persistenceMode t;
     snapshot := snapshot t; toggling := toggling t; checked := checked t;
     sensitive := b |}.

(** toggle.js 346-355 *)
Definition _updateIndicatorVisibility (w : World) : World :=
  if negb (proxy (tg w)) then w
  else if indicator (tg w) then logDebug "toggle.indicator.visibility" w
  else w.

(** toggle.js 332-344 *)
Definition _sync (w : World) : World :=
  if negb (proxy (tg w)) then w
  else
    let isSelectedMonitorActive :=
      existsb (has_connector (monitor (tg w))) (logicalMonitors (tg w)) in
    let w := with_tg (set_checked isSelectedMonitorActive (tg w)) w in
    let w := _updateIndicatorVisibility w in
    logDebug "toggle.sync" w.

(** toggle.js 676-684 *)
Definition _disableToggle (reason : string) (w : World) : World :=
  if negb (proxy (tg w)) then w
  else
    let w := with_tg (set_sensitive false (set_checked false (tg w))) w in
    logError "toggle.disabled" w.

(** toggle.js 686-722: the registry fields are reset, the proxy is dropped. *)
Definition destroy (w : World) : World :=
  let w := logInfo "toggle.destroy.start" w in
  let t := tg w in
  let w := with_tg
    {| proxy := false; indicator := false;
       savedConnector := savedConnector t; monitors := [];
       logicalMonitors := []; serial := serial t;
       layoutMode := layoutMode t;
       supportsChangingLayoutMode := supportsChangingLayoutMode t;
       monitor := None; persistenceMode := persistenceMode t;
       snapshot := []; toggling := toggling t; checked := checked t;
       sensitive := sensitive t |} w in
  logInfo "toggle.destroy.done" w.

(** ** _getMonitorConfig (toggle.js 215-330) *)

(** What [GetCurrentStateAsync] resolves to, or its rejection. *)
Inductive FetchResult : Type :=
| FetchOk (newSerial : Z) (newMonitors : list PhysicalMonitor)
          (newLogicalMonitors : Layout) (newProperties : Props)
| FetchError (e : string).

(** The outcome of an awaited service call, and whether [destroy] ran on the
    toggle while the call was pending. *)
Record Reply (A : Type) : Type := {
  result : A;
  torn_down : bool
}.

(** toggle.js 250-252: every physical monitor is assigned somewhere. *)
Definition allActive (mons : list PhysicalMonitor) (lms : Layout) : bool :=
  (0 <? length mons)%nat &&
  forallb (fun physMon => existsb (has_connector (Some (connector physMon))) lms)
          mons.

(** toggle.js 257-270: the entry written for one assignment of [lm]. *)
Definition snapshot_entry (mons : list PhysicalMonitor) (lm : LogicalMonitor)
           (conn : string) : SnapEntry :=
  let modeId :=
    match find_phys mons (Some conn) with
    | Some phys =>
        match find is_current (modes phys) with
        | Some curMode => Some (mode_id curMode)
        | None => None
        end
    | None => None
    end in
  {| s_x := x lm; s_y := y lm; s_scale := scale lm;
     s_transform := transform lm; s_isPrimary := isPrimary lm;
     s_modeId := modeId |}.

(** toggle.js 254-272: the two nested loops, starting from the empty object. *)
Definition take_snapshot (mons : list PhysicalMonitor) (lms : Layout) : Snapshot :=
  fold_left
    (fun snap lm =>
       fold_left
         (fun snap m =>
            snap_set (a_connector m)
                     (snapshot_entry mons lm (a_connector m)) snap)
         (assignments lm) snap)
    lms [].

(** toggle.js 282-294: the connector the toggle controls, chosen once. *)
Definition select_monitor (saved : string) (mons : list PhysicalMonitor)
           (current : option string) : option string :=
  if negb (opt_truthy current) && (0 <? length mons)%nat then
    let monitorExists := existsb (fun m => String.eqb (connector m) saved) mons in
    if str_truthy saved && monitorExists then Some saved
    else
      match mons with
      | [m] => Some (connector m)
      | _ :: m :: _ => Some (connector m)
      | [] => current
      end
  else current.

(** [props[key]?.deepUnpack() ?? dflt] for the two layout properties. *)
Definition prop_int (key : string) (dflt : Z) (ps : Props) : Z :=
  match prop_get key ps with
  | Some (VInt n) => n
  | _ => dflt
  end.

Definition prop_bool (key : string) (dflt : bool) (ps : Props) : bool :=
  match prop_get key ps with
  | Some v => variant_truthy v
  | None => dflt
  end.

(** The registry after a successful fetch (toggle.js 244-294). *)
Definition ingest (t : Toggle) (newSerial : Z)
           (newMonitors : list PhysicalMonitor) (newLogicalMonitors : Layout)
           (newProperties : Props) : Toggle :=
  {| proxy := proxy t; indicator := indicator t;
     savedConnector := savedConnector t;
     monitors := newMonitors;
     logicalMonitors := newLogicalMonitors;
     serial := newSerial;
     layoutMode := prop_int "layout-mode" 1 newProperties;
     supportsChangingLayoutMode :=
       prop_bool "supports-changing-layout-mode" false newProperties;
     monitor := select_monitor (savedConnector t) newMonitors (monitor t);
     persistenceMode := persistenceMode t;
     snapshot := if allActive newMonitors newLogicalMonitors
                 then take_snapshot newMonitors newLogicalMonitors
                 else snapshot t;
     toggling := toggling t; checked := checked t;
     sensitive := sensitive t |}.

(** The fetch. A rejected call is caught inside (toggle.js 320-329), so the
    function itself always returns. *)
Definition _getMonitorConfig (reply : Reply FetchResult) (w : World) : World :=
  if negb (proxy (tg w)) then w
  else
    let w := logStep "start GetCurrentStateAsync" w in
    let w := emit_event GetCurrentState w in
    (* await: [this._proxy !== proxy] holds afterwards iff destroy ran *)
    if torn_down reply then destroy w
    else
      match result reply with
      | FetchOk newSerial newMonitors newLogicalMonitors0 newProperties =>
          let newLogicalMonitors := fixPrimaryFlags newLogicalMonitors0 in
          let w := logStep "GetCurrentStateAsync completed" w in
          let allAct := allActive newMonitors newLogicalMonitors in
          let w := with_tg (ingest (tg w) newSerial newMonitors
                                   newLogicalMonitors newProperties) w in
          let w := if allAct
                   then logStep "snapshot saved (all monitors active)" w
                   else w in
          let w := _sync w in
          let w := with_tg (set_sensitive true (tg w)) w in
          logInfo "toggle.config.fetch.done" w
      | FetchError e =>
          let w := logError "toggle.config.fetch.error" w in
          _disableToggle "config-fetch-error" w
      end.

(** ** Layout planning inside _toggleMonitor (toggle.js 386-514) *)

(** [.filter(lm => lm !== null)] after a [.map] that may yield [null]. *)
Fixpoint keep_some (A : Type) (l : list (option A)) : list A :=
  match l with
  | [] => []
  | Some a :: rest => a :: keep_some rest
  | None :: rest => keep_some rest
  end.

Definition single_assignment (conn modeId : string) : list Assignment :=
  [ {| a_connector := conn; a_modeId := modeId; a_props := [] |} ].

(** [m[0] === this._monitor] *)
Definition assigned_to (mon : option string) (m : Assignment) : bool :=
  match mon with
  | Some c => String.eqb (a_connector m) c
  | None => false
  end.

(** toggle.js 398-402: one logical monitor without the selected connector. *)
Definition strip_connector (mon : option string) (lm : LogicalMonitor)
  : option LogicalMonitor :=
  let filtered := filter (fun m => negb (assigned_to mon m)) (assignments lm) in
  match filtered with
  | [] => None
  | _ => Some {| x := x lm; y := y lm; scale := scale lm;
                 transform := transform lm; isPrimary := isPrimary lm;
                 assignments := filtered; properties := properties lm |}
  end.

(** toggle.js 412-415 *)
Definition single_to_origin (lms : Layout) : Layout :=
  match lms with
  | [lm] => [set_position 0 0 lm]
  | _ => lms
  end.

(** [finalLogicalMonitors[0][4] = true] *)
Definition promote_first (lms : Layout) : Layout :=
  match lms with
  | [] => []
  | lm :: rest => set_isPrimary true lm :: rest
  end.

(** toggle.js 418-420 and 493-495 (there with the length guard, which
    [promote_first] on the empty list stands for). *)
Definition ensure_primary (lms : Layout) : Layout :=
  if negb (existsb isPrimary lms) then promote_first lms else lms.

(** toggle.js 499-504, 472-477: the entry rebuilt around one freshly
    resolved assignment, or [null]. *)
Definition reresolve (t : Toggle) (lm : LogicalMonitor) : option LogicalMonitor :=
  let conn := first_connector lm in
  match _resolveModeId t conn, conn with
  | Some modeId, Some c =>
      if str_truthy modeId then
        Some {| x := x lm; y := y lm; scale := scale lm;
                transform := transform lm; isPrimary := isPrimary lm;
                assignments := single_assignment c modeId;
                properties := [] |}
      else None
  | _, _ => None
  end.

(** toggle.js 434-443: one snapshot entry turned into a logical monitor. *)
Definition restore_entry (t : Toggle) (e : string * SnapEntry)
  : option LogicalMonitor :=
  let (conn, s) := e in
  match _resolveModeId t (Some conn) with
  | Some modeId =>
      if negb (str_truthy modeId) then None
      else if negb (existsb (fun p => String.eqb (connector p) conn) (monitors t))
      then None
      else Some {| x := s_x s; y := s_y s; scale := s_scale s;
                   transform := s_transform s; isPrimary := s_isPrimary s;
                   assignments := single_assignment conn modeId;
                   properties := [] |}
  | None => None
  end.

(** The key [this._snapshot[this._monitor]] reads: [null] is turned into the
    property name null. *)
Definition snapshot_key (mon : option string) : string :=
  match mon with
  | Some c => c
  | None => "null"
  end.

(** toggle.js 426-427 *)
Definition hasSnapshot (t : Toggle) : bool :=
  match snap_get (snapshot_key (monitor t)) (snapshot t) with
  | Some _ => (1 <? length (snapshot t))%nat
  | None => false
  end.

(** What [loadMonitorConfigFromMonitorsXML] returns (xmlReader.js 54-60). *)
Record XmlConf : Type := {
  xc_x : Z;
  xc_y : Z;
  xc_scale : Scale;
  xc_transform : Z;
  xc_isPrimary : bool
}.

(** toggle.js 461-470: the right edge of the current layout. *)
Definition right_edge_step (t : Toggle) (maxRight : Z) (lm : LogicalMonitor) : Z :=
  let conn := first_connector lm in
  match find_phys (monitors t) conn, _resolveModeId t conn with
  | Some phys, Some mode =>
      if str_truthy mode then
        match find (fun md => String.eqb (mode_id md) mode) (modes phys) with
        | Some m => Z.max maxRight (x lm + round_div (mode_width m) (scale lm))
        | None => maxRight
        end
      else maxRight
  | _, _ => maxRight
  end.

Definition maxRight (t : Toggle) : Z :=
  fold_left (right_edge_step t) (logicalMonitors t) 0.

(** The outcome of planning: a candidate layout, an abort followed by a
    re-fetch (toggle.js 405-409, 507-511), or the toggle made inert
    (toggle.js 449-452, 481-484). *)
Inductive Planned : Type :=
| Candidate (lms : Layout)
| AbortRefetch (reason : string)
| Inert (reason : string).

(** toggle.js 397-420 *)
Definition plan_disable (t : Toggle) : Planned :=
  let finalLogicalMonitors :=
    keep_some (map (strip_connector (monitor t)) (logicalMonitors t)) in
  match finalLogicalMonitors with
  | [] => AbortRefetch "no monitors left"
  | _ => Candidate (ensure_primary (single_to_origin finalLogicalMonitors))
  end.

(** toggle.js 433-443 *)
Definition restore_from_snapshot (t : Toggle) : Layout :=
  keep_some (map (restore_entry t) (snapshot t)).

(** toggle.js 448-488, before the primary flags are enforced. *)
Definition place_to_right (t : Toggle) (xmlConf : option XmlConf) : Planned :=
  match find_phys (monitors t) (monitor t), monitor t with
  | Some physMon, Some mon =>
      let scale0 := match xmlConf with Some c => xc_scale c | None => scale_one end in
      let transform0 := match xmlConf with Some c => xc_transform c | None => 0 end in
      let right := maxRight t in
      let kept := keep_some (map (reresolve t) (logicalMonitors t)) in
      match _resolveModeId t (monitor t) with
      | Some modeId =>
          if str_truthy modeId then
            Candidate (kept ++
              [ {| x := right; y := 0; scale := scale0;
                   transform := transform0; isPrimary := false;
                   assignments := single_assignment mon modeId;
                   properties := [] |} ])%list
          else Inert "no-mode-for-monitor"
      | None => Inert "no-mode-for-monitor"
      end
  | _, _ => Inert "physical-monitor-not-found"
  end.

(** toggle.js 426-495 *)
Definition plan_enable (t : Toggle) (xmlConf : option XmlConf) : Planned :=
  let placed :=
    if hasSnapshot t then Candidate (restore_from_snapshot t)
    else place_to_right t xmlConf in
  match placed with
  | Candidate lms => Candidate (ensure_primary (fixPrimaryFlags lms))
  | other => other
  end.

(** toggle.js 499-514 *)
Definition finalize (t : Toggle) (lms : Layout) : Planned :=
  match keep_some (map (reresolve t) lms) with
  | [] => AbortRefetch "no valid monitors after resolve"
  | resolved => Candidate (normalizePositions resolved)
  end.

(** toggle.js 386-388 *)
Definition isActive (t : Toggle) : bool :=
  existsb (has_connector (monitor t)) (logicalMonitors t).

(** toggle.js 390-514: the layout the toggle decides on. *)
Definition planLayout (t : Toggle) (xmlConf : option XmlConf) : Planned :=
  match (if isActive t then plan_disable t else plan_enable t xmlConf) with
  | Candidate lms => finalize t lms
  | other => other
  end.

(** ** _toggleMonitor (toggle.js 372-564) *)

Inductive ApplyResult : Type :=
| ApplyOk
| ApplyError (e : string).

(** What the environment answers during one toggle: the reply to the fetch
    at line 383, the legacy configuration file's entry, the reply to the
    re-fetch of an abort, the reply to [ApplyMonitorsConfigAsync]. *)
Record ToggleEnv : Type := {
  fetched : Reply FetchResult;
  xmlConf : option XmlConf;
  refetched : Reply FetchResult;
  applied : Reply ApplyResult
}.

(** toggle.js 157-171, the arming part. *)
Definition _resetTimeout (timeoutProp : string) (delayMs : Z) (w : World) : World :=
  emit_event (TimeoutSet timeoutProp delayMs) w.

(** toggle.js 173-187, the arming part. *)
Definition _scheduleConfigRefresh (w : World) : World :=
  if negb (proxy (tg w)) then w
  else _resetTimeout "_configRefreshTimeoutId" 1200 w.

(** toggle.js 520-523 *)
Definition propertiesToApply (t : Toggle) : option Z :=
  if supportsChangingLayoutMode t then Some (layoutMode t) else None.

(** toggle.js 374-383: the guard flag, the first log line and the fetch. *)
Definition toggle_fetch (env : ToggleEnv) (w : World) : World :=
  let w := with_tg (set_toggling true (tg w)) w in
  let w := logInfo "toggle.action.start" w in
  _getMonitorConfig (fetched env) w.

(** toggle.js 384-558: the rest of the [try] block, on the world the fetch
    left. *)
Definition toggle_act (env : ToggleEnv) (w : World) : World :=
  if negb (proxy (tg w)) then w
  else
    let t := tg w in
    let active := isActive t in
    let w :=
      if active then logStep "disabling monitor" w
      else
        let w := logStep "enabling monitor" w in
        if hasSnapshot t then logStep "restoring from snapshot" w
        else logStep "no snapshot, placing to right" w in
    match planLayout t (xmlConf env) with
    | Inert reason => _disableToggle reason w
    | AbortRefetch reason =>
        let w := logError "toggle.action.abort" w in
        _getMonitorConfig (refetched env) w
    | Candidate finalLogicalMonitors =>
        let w := logStep "final layout to apply" w in
        if negb (proxy (tg w)) then w
        else
          let w := emit_event
                     (ApplyMonitorsConfig (serial t) (persistenceMode t)
                        finalLogicalMonitors (propertiesToApply t)) w in
          (* await *)
          if torn_down (applied env) then destroy w
          else
            match result (applied env) with
            | ApplyError e =>
                let w := logError "toggle.action.apply.error" w in
                let w := _disableToggle "apply-config-error" w in
                _scheduleConfigRefresh w
            | ApplyOk =>
                let w := logInfo "toggle.action.apply.success" w in
                let w := with_tg (set_checked (negb active) (tg w)) w in
                let w := _updateIndicatorVisibility w in
                let w := _scheduleConfigRefresh w in
                if negb active
                then _resetTimeout "_primaryDialogTimeoutId" 1500 w
                else w
            end
    end.

Definition _toggleMonitor (env : ToggleEnv) (w : World) : World :=
  if negb (proxy (tg w)) || toggling (tg w) then w
  else
    let w := toggle_act env (toggle_fetch env w) in
    (* finally *)
    let w := with_tg (set_toggling false (tg w)) w in
    logInfo "toggle.action.end" w.

(** ** _makePrimary (toggle.js 627-674) *)

Record PrimaryEnv : Type := {
  p_fetched : Reply FetchResult;
  p_applied : Reply ApplyResult
}.

(** toggle.js 636-643 *)
Definition retarget (t : Toggle) (target : string) (lm : LogicalMonitor)
  : option LogicalMonitor :=
  let conn := first_connector lm in
  match _resolveModeId t conn, conn with
  | Some modeId, Some c =>
      if str_truthy modeId then
        let isTarget := has_connector (Some target) lm in
        Some {| x := x lm; y := y lm; scale := scale lm;
                transform := transform lm; isPrimary := isTarget;
                assignments := single_assignment c modeId;
                properties := [] |}
      else None
  | _, _ => None
  end.

(** toggle.js 630-632: the first log line and the fetch. *)
Definition primary_fetch (env : PrimaryEnv) (w : World) : World :=
  let w := logInfo "toggle.make_primary.start" w in
  _getMonitorConfig (p_fetched env) w.

Definition _makePrimary (target : string) (env : PrimaryEnv) (w : World) : World :=
  if negb (proxy (tg w)) then w
  else
    let w := primary_fetch env w in
    if negb (proxy (tg w)) then w
    else
      let t := tg w in
      let finalLms := keep_some (map (retarget t target) (logicalMonitors t)) in
      match finalLms with
      | [] => w
      | _ =>
          let positioned := normalizePositions finalLms in
          let w := logStep "layout for primary swap" w in
          if negb (proxy (tg w)) then w
          else
            let w := emit_event
                       (ApplyMonitorsConfig (serial t) (persistenceMode t)
                          positioned (propertiesToApply t)) w in
            (* await *)
            if torn_down (p_applied env) then destroy w
            else
              match result (p_applied env) with
              | ApplyOk =>
                  let w := logInfo "toggle.make_primary.apply.success" w in
                  _scheduleConfigRefresh w
              | ApplyError e =>
                  logError "toggle.make_primary.apply.error" w
              end
      end.

(** ** Timer callbacks (toggle.js 159-170) *)

(** How a callback ends: it returns, or it throws. *)
Inductive Completion : Type :=
| Returned (w : World)
| Thrown (e : string) (w : World).

(** The function [_resetTimeout] hands to [GLib.timeout_add]. *)
Definition timeout_fired (timeoutProp : string)
           (callback : World -> Completion) (w : World) : World :=
  match callback w with
  | Returned w' => w'
  | Thrown e w' => logError "toggle.timeout.callback.error" w'
  end.

(** The world a flow starts in: a toggle, the logger's switch, no effect yet. *)
Definition start (t : Toggle) (enabled : bool) : World :=
  {| tg := t; _enabled := enabled; out := [] |}.

(** The effects of a flow started on toggle [t], oldest first. *)
Definition effects (flow : World -> World) (t : Toggle) (enabled : bool)
  : list Event :=
  out (flow (start t enabled)).

(** The layouts handed to [ApplyMonitorsConfigAsync], in order. *)
Definition submitted (es : list Event) : list Layout :=
  flat_map (fun e => match e with
                     | ApplyMonitorsConfig _ _ lms _ => [lms]
                     | _ => []
                     end) es.

End Model.

Arguments Console {Scale} level event.
Arguments GetCurrentState {Scale}.
Arguments TimeoutSet {Scale} timeoutProp delayMs.
Arguments FetchError {Scale} e.
Arguments AbortRefetch {Scale} reason.
Arguments Inert {Scale} reason.

(** * Worked data

    Two physical monitors, a laptop panel and an external display at
    1920x1080, with scales taken in [Q]. They feed the examples that close
    the file. [round_div_Q] rounds the exact quotient, where the code rounds
    the quotient of two doubles: the two agree at scale 1, the only scale
    of the worked data, and every theorem is stated for any [round_div]. *)

Definition round_div_Q (w : Z) (s : Q) : Z :=
  Qfloor (inject_Z w / s + (1 # 2))%Q.

Definition mode_of (id : string) (w h : Z) (flags : Props) : Mode :=
  {| mode_id := id; mode_width := w; mode_height := h; mode_props := flags |}.

Definition current_flag : Props := [("is-current", VBool true)].

Definition panel : PhysicalMonitor :=
  {| connector := "eDP-1"; vendor := "AUO"; product := "Panel";
     modes := [mode_of "m1" 1920 1080 current_flag] |}.

Definition external : PhysicalMonitor :=
  {| connector := "HDMI-1"; vendor := "DEL"; product := "U2720Q";
     modes := [mode_of "m2" 1920 1080 current_flag] |}.

(** A panel that still lists a mode whose id is the empty string. *)
Definition stale_panel : PhysicalMonitor :=
  {| connector := "eDP-1"; vendor := "AUO"; product := "Panel";
     modes := [mode_of "" 1280 720 [];
               mode_of "m2" 1920 1080 current_flag] |}.

Definition on_panel : Assignment :=
  {| a_connector := "eDP-1"; a_modeId := "m1"; a_props := [] |}.

Definition on_external : Assignment :=
  {| a_connector := "HDMI-1"; a_modeId := "m2"; a_props := [] |}.

(** A logical monitor at scale 1, not rotated. *)
Definition logical_at (px py : Z) (primary : bool) (conns : list Assignment)
  : LogicalMonitor Q :=
  {| x := px; y := py; scale := 1%Q; transform := 0; isPrimary := primary;
     assignments := conns; properties := [] |}.

(** The toggle as [_init] leaves it once the proxy is set, the settings
    naming the external display. *)
Definition fresh_toggle : Toggle Q :=
  {| proxy := true; indicator := true; savedConnector := "HDMI-1";
     monitors := []; logicalMonitors := []; serial := 0; layoutMode := 1;
     supportsChangingLayoutMode := false; monitor := None;
     persistenceMode := 1; snapshot := []; toggling := false;
     checked := false; sensitive := true |}.

(** The same, the external display already selected. *)
Definition selected_toggle : Toggle Q :=
  {| proxy := true; indicator := true; savedConnector := "HDMI-1";
     monitors := []; logicalMonitors := []; serial := 0; layoutMode := 1;
     supportsChangingLayoutMode := false; monitor := Some "HDMI-1";
     persistenceMode := 1; snapshot := []; toggling := false;
     checked := false; sensitive := true |}.

(** A registry whose snapshot records the empty mode id for the panel. *)
Definition empty_id_toggle : Toggle Q :=
  {| proxy := true; indicator := true; savedConnector := "eDP-1";
     monitors := [stale_panel]; logicalMonitors := []; serial := 3;
     layoutMode := 1; supportsChangingLayoutMode := false;
     monitor := Some "eDP-1"; persistenceMode := 1;
     snapshot := [("eDP-1", {| s_x := 0; s_y := 0; s_scale := 1%Q;
                               s_transform := 0; s_isPrimary := true;
                               s_modeId := Some "" |})];
     toggling := false; checked := false; sensitive := true |}.

(** A reply delivered to a toggle that is still alive. *)
Definition answered (A : Type) (a : A) : Reply A :=
  {| result := a; torn_down := false |}.

(** What the service may report. *)
Definition both_on : FetchResult Q :=
  FetchOk 1 [panel; external]
    [logical_at 0 0 true [on_panel]; logical_at 1920 0 false [on_external]] [].

Definition external_off : FetchResult Q :=
  FetchOk 2 [panel; external] [logical_at 0 0 true [on_panel]] [].

Definition mirrored : FetchResult Q :=
  FetchOk 1 [panel; external]
    [logical_at 0 0 true [on_panel; on_external]] [].

Definition nothing_on : FetchResult Q := FetchOk 1 [panel; external] [] [].

Definition lone_external : FetchResult Q :=
  FetchOk 1 [external] [logical_at 0 0 true [on_external]] [].

(** One toggle against a service that answers [f] to each fetch and [a] to
    the submission; no legacy configuration file. *)
Definition env_of (f : FetchResult Q) (a : ApplyResult) : ToggleEnv Q :=
  {| fetched := answered f; xmlConf := None; refetched := answered f;
     applied := answered a |}.

Definition disable_env : ToggleEnv Q := env_of both_on ApplyOk.
Definition enable_env : ToggleEnv Q := env_of external_off ApplyOk.
Definition mirror_env : ToggleEnv Q := env_of mirrored ApplyOk.
Definition dark_env : ToggleEnv Q := env_of nothing_on ApplyOk.
Definition sole_env : ToggleEnv Q := env_of lone_external ApplyOk.
Definition failing_env : ToggleEnv Q := env_of (FetchError "boom") ApplyOk.

Definition primary_env : PrimaryEnv Q :=
  {| p_fetched := answered external_off; p_applied := answered ApplyOk |}.

(** The toggle over [Q]. *)
Definition toggleQ : ToggleEnv Q -> World Q -> World Q :=
  _toggleMonitor (1%Q) round_div_Q.

(** The registry after the external display was disabled, from both
    monitors side by side and from both mirrored. *)
Definition after_disable : Toggle Q :=
  tg (toggleQ disable_env (start fresh_toggle true)).

Definition after_mirror_disable : Toggle Q :=
  tg (toggleQ mirror_env (start fresh_toggle true)).

Definition two_primaries : Layout Q :=
  [logical_at 0 0 true [on_panel]; logical_at 1920 0 true [on_external]].

Definition shifted_layout : Layout Q :=
  [logical_at 100 50 true [on_panel];
   logical_at 2020 (-30) false [on_external]].

(** * Callbacks: proxy construction, MonitorsChanged, the refresh timer *)

Section Callbacks.

Variable Scale : Type.

(** toggle.js 111-146: the callback handed to the proxy constructor.
    [error = None] is a falsy error argument; [this._proxy !== proxy] holds
    iff [destroy] ran before the callback. The fetch never rejects (its
    [catch] at 320-329 returns), so the handler at 138-144 is not reached. *)
Definition proxy_ready (error : option string)
           (initial : Reply (FetchResult Scale)) (w : World Scale)
  : World Scale :=
  if negb (proxy (tg w)) then w
  else
    match error with
    | Some e =>
        let w := logError "toggle.proxy.init.error" w in
        _disableToggle "proxy-init-error" w
    | None =>
        let w := logInfo "toggle.proxy.init.success" w in
        _getMonitorConfig initial w
    end.

(** toggle.js 123-137: the handler of the MonitorsChanged signal. *)
Definition monitors_changed (reply : Reply (FetchResult Scale))
           (w : World Scale) : World Scale :=
  let w := logDebug "toggle.signal.monitors_changed" w in
  if proxy (tg w) && negb (toggling (tg w)) then _getMonitorConfig reply w
  else w.

(** toggle.js 175-186: what the timer armed by [_scheduleConfigRefresh]
    runs. [onSuccess = None] is the default [null]; the [then] branch runs
    whenever the fetch has returned. *)
Definition refresh_fired (onSuccess : option (World Scale -> World Scale))
           (reply : Reply (FetchResult Scale)) (w : World Scale)
  : World Scale :=
  if negb (proxy (tg w)) then w
  else
    let w := _getMonitorConfig reply w in
    match onSuccess with
    | Some k => if proxy (tg w) then k w else w
    | None => w
    end.


End Callbacks.

(** * Timers (toggle.js 150-171, 173-175, 553, 701-702)

    The toggle keeps at most two GLib timeout sources, whose ids it stores
    in the properties [_configRefreshTimeoutId] and
    [_primaryDialogTimeoutId]. The state below is the part of the toggle
    and of the GLib main context that the timer code touches. *)

Module Timers.

(** [fields] is [this[timeoutProp]], [None] standing for [null]; source ids
    are positive, hence truthy. [live] holds the timeout sources attached to
    the main context, each with the property name its closure captured;
    [next] is the id [GLib.timeout_add] hands out next. [misses] counts the
    calls of [GLib.Source.remove] on an id that is not live. *)
Record State : Type := {
  proxy : bool;
  fields : string -> option positive;
  live : list (positive * string);
  next : positive;
  misses : nat
}.

Definition set_field (timeoutProp : string) (v : option positive)
           (f : string -> option positive) : string -> option positive :=
  fun q => if String.eqb q timeoutProp then v else f q.

Definition is_live (id : positive) (l : list (positive * string)) : bool :=
  existsb (fun s => Pos.eqb (fst s) id) l.

(** [GLib.Source.remove(id)] *)
Definition source_remove (id : positive) (l : list (positive * string))
  : list (positive * string) :=
  filter (fun s => negb (Pos.eqb (fst s) id)) l.

(** The toggle as [_init] leaves it, before any timer is armed. *)
Definition init : State :=
  {| proxy := true; fields := fun _ => None; live := []; next := 1%positive;
     misses := 0 |}.

(** toggle.js 150-155 *)
Definition _clearTimeout (timeoutProp : string) (s : State) : State :=
  match fields s timeoutProp with
  | Some id =>
      {| proxy := proxy s;
         fields := set_field timeoutProp None (fields s);
         live := source_remove id (live s);
         next := next s;
         misses := if is_live id (live s) then misses s else S (misses s) |}
  | None => s
  end.

(** toggle.js 157-171: the old source is removed, a new one is attached and
    its id stored. *)
Definition _resetTimeout (timeoutProp : string) (s : State) : State :=
  let s := _clearTimeout timeoutProp s in
  let id := next s in
  {| proxy := proxy s;
     fields := set_field timeoutProp (Some id) (fields s);
     live := (live s ++ [(id, timeoutProp)])%list;
     next := Pos.succ id;
     misses := misses s |}.

(** toggle.js 173-175: the guard of [_scheduleConfigRefresh] and its call
    of [_resetTimeout]. *)
Definition _scheduleConfigRefresh (s : State) : State :=
  if negb (proxy s) then s
  else _resetTimeout "_configRefreshTimeoutId" s.

(** toggle.js 552-553: the prompt timer, armed past the check of line 532
    with no await in between. *)
Definition arm_primary_dialog (s : State) : State :=
  if negb (proxy s) then s
  else _resetTimeout "_primaryDialogTimeoutId" s.

(** The main context dispatches the live source [id]: the closure of
    toggle.js 159-170 clears the property it captured and runs the callback;
    every callback, and the [catch] around it, returns
    [GLib.SOURCE_REMOVE], so the source is destroyed. The callbacks (175-186,
    553-557) arm no timer before they return. *)
Definition dispatch (id : positive) (s : State) : State :=
  match find (fun src => Pos.eqb (fst src) id) (live s) with
  | Some (_, timeoutProp) =>
      {| proxy := proxy s;
         fields := set_field timeoutProp None (fields s);
         live := source_remove id (live s);
         next := next s;
         misses := misses s |}
  | None => s
  end.

(** toggle.js 696, 701-702 *)
Definition destroy (s : State) : State :=
  let s := {| proxy := false; fields := fields s; live := live s;
              next := next s; misses := misses s |} in
  let s := _clearTimeout "_configRefreshTimeoutId" s in
  _clearTimeout "_primaryDialogTimeoutId" s.

(** What can happen to the timers of a toggle. *)
Inductive Step : Type :=
| ScheduleConfigRefresh
| ArmPrimaryDialog
| Dispatch (id : positive)
| Destroy.

Definition step (st : Step) (s : State) : State :=
  match st with
  | ScheduleConfigRefresh => _scheduleConfigRefresh s
  | ArmPrimaryDialog => arm_primary_dialog s
  | Dispatch id => dispatch id s
  | Destroy => destroy s
  end.

(** The state after a history of steps, oldest first. *)
Definition run (history : list Step) (s : State) : State :=
  fold_left (fun s st => step st s) history s.

(** The stored ids and the live sources agree: a property holds an id
    exactly when a live source with that id captured that property; ids are
    not reused; only the two properties of the toggle have sources; no
    removal has missed. *)
Definition agree (s : State) : Prop :=
  (forall p id, fields s p = Some id <-> In (id, p) (live s)) /\
  NoDup (map fst (live s)) /\
  (forall src, In src (live s) -> (fst src < next s)%positive) /\
  (forall src, In src (live s) ->
               snd src = "_configRefreshTimeoutId" \/
               snd src = "_primaryDialogTimeoutId") /\
  misses s = 0%nat.

(** They agree, and a toggle without proxy has no source. *)
Definition consistent (s : State) : Prop :=
  agree s /\ (proxy s = false -> live s = []).

End Timers.

(** * Display names (toggle.js 189-213) *)

Section DisplayName.

(** The translation function [_], [String.prototype.trim],
    [String.prototype.toUpperCase], and [haystack.includes(needle)]. *)
Variable gettext : string -> string.
Variable trim : string -> string.
Variable toUpperCase : string -> string.
Variable includes : string -> string -> bool.

(** [monitors] is [this._monitors]; a [connectorName] of [None] is [null]
    or [undefined]. Vendor and product are D-Bus strings, so that
    [|| ''] leaves them as they are. *)
Definition _getMonitorDisplayName (monitors : list PhysicalMonitor)
           (connectorName : option string) (format : string) : string :=
  match connectorName with
  | None => gettext "Unknown"
  | Some name =>
      if negb (str_truthy name) then gettext "Unknown"
      else
        match find (fun m => String.eqb (connector m) name) monitors with
        | Some monitorData =>
            let vendor := vendor monitorData in
            let product := product monitorData in
            if String.eqb format "short" then
              if str_truthy product then product else name
            else if str_truthy vendor && str_truthy product then
              let cleanVendor := trim vendor in
              if includes (toUpperCase product) (toUpperCase cleanVendor)
              then product ++ " (" ++ name ++ ")"
              else cleanVendor ++ " " ++ product ++ " (" ++ name ++ ")"
            else if str_truthy product then product ++ " (" ++ name ++ ")"
            else name
        | None => name
        end
  end.

End DisplayName.

(** * The logger's own state (logger.js 1-36, 87-106, 108-111) *)

Module Logger.

Inductive Channel : Type := ConsoleError | ConsoleWarn | ConsoleLog.

(** A line written to the console: the console method, and of the message
    the sequence number, the level and the event as [_emit] sets them
    before the payload is spread over the message. *)
Record Line : Type := {
  channel : Channel;
  seq : N;
  level : string;
  event : string
}.

(** The module variables, with what the logger has done to the outside:
    [handlers] are the handlers of changed::debug-logging connected and not
    disconnected, each with the settings object it is on; [next_handler] is
    the id the next [connect] returns (ids are positive, hence truthy);
    [lines] is the console, oldest line first. A settings object is
    identified by a number. *)
Record State : Type := {
  _enabled : bool;
  _sequence : N;
  _opCounter : N;
  _settings : option nat;
  _debugLoggingChangedId : option positive;
  handlers : list (nat * positive);
  next_handler : positive;
  lines : list Line
}.

(** The module as loaded. *)
Definition loaded : State :=
  {| _enabled := false; _sequence := 0; _opCounter := 0; _settings := None;
     _debugLoggingChangedId := None; handlers := []; next_handler := 1;
     lines := [] |}.

Definition disconnect (settings : nat) (id : positive)
           (hs : list (nat * positive)) : list (nat * positive) :=
  filter (fun h => negb (Nat.eqb (fst h) settings && Pos.eqb (snd h) id)) hs.

(** logger.js 29-36 *)
Definition shutdownLogger (s : State) : State :=
  let hs :=
    match _settings s, _debugLoggingChangedId s with
    | Some settings, Some id => disconnect settings id (handlers s)
    | _, _ => handlers s
    end in
  {| _enabled := false; _sequence := _sequence s; _opCounter := _opCounter s;
     _settings := None; _debugLoggingChangedId := None; handlers := hs;
     next_handler := next_handler s; lines := lines s |}.

(** logger.js 13-27. [debugLogging] is what [settings.get_boolean] answers,
    [None] when it throws; [connects] tells whether [settings.connect]
    returns, rather than throws. *)
Definition initLogger (settings : nat) (debugLogging : option bool)
           (connects : bool) (s : State) : State :=
  let s := shutdownLogger s in
  match debugLogging with
  | Some b =>
      if connects then
        {| _enabled := b; _sequence := _sequence s;
           _opCounter := _opCounter s; _settings := Some settings;
           _debugLoggingChangedId := Some (next_handler s);
           handlers := (handlers s ++ [(settings, next_handler s)])%list;
           next_handler := Pos.succ (next_handler s); lines := lines s |}
      else s
  | None => s
  end.

(** logger.js 19-21: the handler of changed::debug-logging, run for a
    handler that is connected; [debugLogging = None] when [get_boolean]
    throws inside it. *)
Definition debug_logging_changed (debugLogging : option bool) (s : State)
  : State :=
  match handlers s, debugLogging with
  | _ :: _, Some b =>
      {| _enabled := b; _sequence := _sequence s; _opCounter := _opCounter s;
         _settings := _settings s;
         _debugLoggingChangedId := _debugLoggingChangedId s;
         handlers := handlers s; next_handler := next_handler s;
         lines := lines s |}
  | _, _ => s
  end.

Definition channel_of (level : string) : Channel :=
  if String.eqb level "ERROR" then ConsoleError
  else if String.eqb level "WARN" then ConsoleWarn
  else ConsoleLog.

(** logger.js 87-106 *)
Definition _emit (level event : string) (s : State) : State :=
  if negb (_enabled s) then s
  else
    let n := (_sequence s + 1)%N in
    {| _enabled := _enabled s; _sequence := n; _opCounter := _opCounter s;
       _settings := _settings s;
       _debugLoggingChangedId := _debugLoggingChangedId s;
       handlers := handlers s; next_handler := next_handler s;
       lines := (lines s ++ [ {| channel := channel_of level; seq := n;
                                 level := level; event := event |} ])%list |}.

Definition logDebug (event : string) : State -> State := _emit "DEBUG" event.
Definition logInfo (event : string) : State -> State := _emit "INFO" event.
Definition logError (event : string) : State -> State := _emit "ERROR" event.
Definition logStep : State -> State := logDebug "step".

(** What the extension and the shell do to the logger. *)
Inductive Step : Type :=
| InitLogger (settings : nat) (debugLogging : option bool) (connects : bool)
| ShutdownLogger
| DebugLoggingChanged (debugLogging : option bool)
| LogDebug (event : string)
| LogInfo (event : string)
| LogError (event : string)
| LogStep.

Definition step (st : Step) (s : State) : State :=
  match st with
  | InitLogger settings debugLogging connects =>
      initLogger settings debugLogging connects s
  | ShutdownLogger => shutdownLogger s
  | DebugLoggingChanged debugLogging => debug_logging_changed debugLogging s
  | LogDebug event => logDebug event s
  | LogInfo event => logInfo event s
  | LogError event => logError event s
  | LogStep => logStep s
  end.

(** The state after a history of steps, oldest first. *)
Definition run (history : list Step) (s : State) : State :=
  fold_left (fun s st => step st s) history s.

(** Whether a step writes a line when the logger is enabled. *)
Definition writes (st : Step) : bool :=
  match st with
  | LogDebug _ | LogInfo _ | LogError _ | LogStep => true
  | _ => false
  end.

(** The handler the module variables record is the one handler connected,
    and the sequence counter numbers the lines written. *)
Definition consistent (s : State) : Prop :=
  handlers s = match _settings s, _debugLoggingChangedId s with
               | Some settings, Some id => [(settings, id)]
               | _, _ => []
               end /\
  (_settings s = None <-> _debugLoggingChangedId s = None) /\
  _sequence s = N.of_nat (length (lines s)) /\
  (forall i line, nth_error (lines s) i = Some line ->
                  seq line = N.of_nat (S i)).

End Logger.

(** * The payload of a log line (logger.js 42-85) *)

Section SafeValue.

(** JavaScript numbers, and [BigInt.prototype.toString]. *)
Variable Num : Type.
Variable bigint_toString : Z -> string.

(** The values [_safeValue] tells apart. A variant is an object with a
    [deepUnpack] method, which returns a value or throws; reading a property
    of an object returns a value or throws; [inr e] is a throw, [e] being the
    text of the exception. The properties of an object are listed in the
    order of [Object.keys]. *)
#[warnings="-register-all"]
Inductive JsValue : Type :=
| JsNull
| JsUndefined
| JsString (s : string)
| JsNumber (n : Num)
| JsBoolean (b : bool)
| JsBigInt (z : Z)
| JsFunction (name : string)
| JsSymbol (description : string)
| JsArray (items : list JsValue)
| JsVariant (deepUnpack : JsValue + string)
| JsObject (fields : list (string * (JsValue + string))).

(** logger.js 42-85; the default of [depth] is 0. *)
Fixpoint _safeValue (value : JsValue) (depth : nat) : JsValue :=
  if (5 <? depth)%nat then JsString "[MaxDepth]"
  else
    match value with
    | JsNull | JsUndefined => value
    | JsString _ | JsNumber _ | JsBoolean _ => value
    | JsBigInt z => JsString (bigint_toString z)
    | JsFunction name =>
        JsString ("[Function " ++
                  (if str_truthy name then name else "anonymous") ++ "]")
    | JsArray items => JsArray (map (fun v => _safeValue v (S depth)) items)
    | JsVariant (inl unpacked) => _safeValue unpacked (S depth)
    | JsVariant (inr e) =>
        JsString ("[Variant deepUnpack error: " ++ e ++ "]")
    | JsObject fields =>
        JsObject
          (map (fun kv : string * (JsValue + string) =>
                  (fst kv,
                   match snd kv with
                   | inl v => inl (_safeValue v (S depth))
                   | inr e => inl (JsString ("[Serialize error: " ++ e ++ "]"))
                   end))
               fields)
    | JsSymbol description => JsString ("Symbol(" ++ description ++ ")")
    end.

(** How deep the arrays and objects of a value nest; a variant counts for
    what it unpacks to. *)
Fixpoint nesting (v : JsValue) : nat :=
  match v with
  | JsArray items => S (fold_right (fun i n => Nat.max (nesting i) n) O items)
  | JsObject fields =>
      S (fold_right (fun kv n =>
                       Nat.max (match snd kv with
                                | inl i => nesting i
                                | inr _ => O
                                end) n)
                    O fields)
  | JsVariant (inl unpacked) => nesting unpacked
  | _ => O
  end.

(** Plain data: null, undefined, strings, numbers, booleans, and the arrays
    and objects made of plain data, every property readable. *)
Fixpoint plain (v : JsValue) : bool :=
  match v with
  | JsNull | JsUndefined | JsString _ | JsNumber _ | JsBoolean _ => true
  | JsArray items => forallb plain items
  | JsObject fields =>
      forallb (fun kv => match snd kv with
                         | inl i => plain i
                         | inr _ => false
                         end)
              fields
  | _ => false
  end.

(** Every property of every object of the value can be read. *)
Fixpoint readable (v : JsValue) : bool :=
  match v with
  | JsArray items => forallb readable items
  | JsVariant (inl unpacked) => readable unpacked
  | JsObject fields =>
      forallb (fun kv => match snd kv with
                         | inl i => readable i
                         | inr _ => false
                         end)
              fields
  | _ => true
  end.

End SafeValue.

(** * More worked data *)


Definition torn_env : ToggleEnv Q :=
  {| fetched := {| result := both_on; torn_down := true |};
     xmlConf := None; refetched := answered both_on;
     applied := answered ApplyOk |}.

(** The submission of a toggle that disables the external display. *)
Definition panel_alone : Layout Q := [logical_at 0 0 true [on_panel]].

(** Both displays side by side, as the snapshot restores them. *)
Definition side_by_side : Layout Q :=
  [logical_at 0 0 true [on_panel]; logical_at 1920 0 false [on_external]].

(** A refresh armed, a prompt armed, the refresh armed again (which removes
    the first source), and the second refresh source dispatched. *)
Definition sample_timers : list Timers.Step :=
  [Timers.ScheduleConfigRefresh; Timers.ArmPrimaryDialog;
   Timers.ScheduleConfigRefresh; Timers.Dispatch 3].

(** The logger initialised with debug logging on, and two lines written. *)
Definition sample_logging : list Logger.Step :=
  [Logger.InitLogger 7 (Some true) true; Logger.LogInfo "toggle.init.done";
   Logger.LogError "toggle.disabled"].

(** A payload of plain data. *)
Definition plain_payload : JsValue Z :=
  JsObject [("opId", inl (JsString Z "toggle-1"));
            ("monitors", inl (JsArray [JsNumber 1; JsNumber 2]))].

(** * Properties *)

Create Rewrite HintDb registry.
Create Rewrite HintDb quiet.
Create Rewrite HintDb muted.

Section Properties.

Set Default Proof Using "Type".

Variable Scale : Type.
Variable scale_one : Scale.
Variable round_div : Z -> Scale -> Z.
Implicit Types (w : World Scale) (t : Toggle Scale) (lms : Layout Scale).

Local Abbreviation toggle := (_toggleMonitor scale_one round_div).
Local Abbreviation act := (toggle_act scale_one round_div).
Local Abbreviation plan := (planLayout scale_one round_div).

(** ** Vocabulary of the statements *)

(** Whether an effect is a console line. *)
Definition is_console (e : Event Scale) : bool :=
  match e with
  | Console _ _ => true
  | _ => false
  end.

(** The effects other than console lines: service calls and armed timers. *)
Definition calls (es : list (Event Scale)) : list (Event Scale) :=
  filter (fun e => negb (is_console e)) es.

(** The same world with the logger switched off and no console line. *)
Definition mute w : World Scale :=
  {| tg := tg w; _enabled := false; out := calls (out w) |}.

(** What [fixPrimaryFlags] may do to one entry: nothing, or clear a set
    primary flag. *)
Definition same_but_demoted (a b : LogicalMonitor Scale) : Prop :=
  x b = x a /\ y b = y a /\ scale b = scale a /\ transform b = transform a /\
  assignments b = assignments a /\ properties b = properties a /\
  (isPrimary b = isPrimary a \/ (isPrimary a = true /\ isPrimary b = false)).

(** [b] is [a] moved by [(dx, dy)], every other field kept. *)
Definition shifted_by (dx dy : Z) (a b : LogicalMonitor Scale) : Prop :=
  x b = x a - dx /\ y b = y a - dy /\ scale b = scale a /\
  transform b = transform a /\ isPrimary b = isPrimary a /\
  assignments b = assignments a /\ properties b = properties a.

(** The least value of [f] over [lms] is [m]. *)
Definition minimum_is (f : LogicalMonitor Scale -> Z) lms (m : Z) : Prop :=
  (exists lm, In lm lms /\ f lm = m) /\ (forall lm, In lm lms -> m <= f lm).

(** [m] is the first element of the list that satisfies [p]. *)
Inductive first_such (A : Type) (p : A -> bool) : list A -> A -> Prop :=
| first_here m l : p m = true -> first_such p (m :: l) m
| first_later a l m :
    p a = false -> first_such p l m -> first_such p (a :: l) m.

Definition none_such (A : Type) (p : A -> bool) (l : list A) : Prop :=
  forall a, In a l -> p a = false.

(** [phys] is the known physical monitor of connector [c]. *)
Definition known_monitor t (c : string) (phys : PhysicalMonitor) : Prop :=
  first_such (fun p => String.eqb (connector p) c) (monitors t) phys.

Definition unknown_connector t (conn : option string) : Prop :=
  match conn with
  | Some c => none_such (fun p => String.eqb (connector p) c) (monitors t)
  | None => True
  end.

(** The snapshot records mode id [id] for connector [c]. *)
Definition recorded_mode t (c id : string) : Prop :=
  exists s, snap_get c (snapshot t) = Some s /\ s_modeId s = Some id.

(** [phys] still offers a mode with id [id]. *)
Definition offers (phys : PhysicalMonitor) (id : string) : Prop :=
  exists m, In m (modes phys) /\ mode_id m = id.

(** The priority order of [resolveModeId] in the specification's words:
    (a) the recorded snapshot mode id if still offered, else (b) the mode
    flagged current, else (c) the mode flagged preferred, else (d) the first
    mode; no mode for an unknown connector, nor when the monitor has no mode
    at all. [usable] says which recorded ids count for (a). *)
Inductive resolves_to (usable : string -> Prop) t
  : option string -> option string -> Prop :=
| res_unknown conn :
    unknown_connector t conn -> resolves_to usable t conn None
| res_snapshot c phys id :
    known_monitor t c phys ->
    recorded_mode t c id -> usable id -> offers phys id ->
    resolves_to usable t (Some c) (Some id)
| res_current c phys m :
    known_monitor t c phys ->
    ~ (exists id, recorded_mode t c id /\ usable id /\ offers phys id) ->
    first_such is_current (modes phys) m ->
    resolves_to usable t (Some c) (Some (mode_id m))
| res_preferred c phys m :
    known_monitor t c phys ->
    ~ (exists id, recorded_mode t c id /\ usable id /\ offers phys id) ->
    none_such is_current (modes phys) ->
    first_such is_preferred (modes phys) m ->
    resolves_to usable t (Some c) (Some (mode_id m))
| res_first c phys m rest :
    known_monitor t c phys ->
    ~ (exists id, recorded_mode t c id /\ usable id /\ offers phys id) ->
    none_such is_current (modes phys) ->
    none_such is_preferred (modes phys) ->
    modes phys = m :: rest ->
    resolves_to usable t (Some c) (Some (mode_id m))
| res_no_mode c phys :
    known_monitor t c phys ->
    ~ (exists id, recorded_mode t c id /\ usable id /\ offers phys id) ->
    modes phys = [] ->
    resolves_to usable t (Some c) None.

(** The specification's sentence as written: every recorded id counts. *)
Definition resolves_as_stated := resolves_to (fun _ => True).

(** The code's guard [snapMode && ...]: an empty id does not count. *)
Definition resolves_as_coded := resolves_to (fun id => id <> "").

(** The snapshot records the empty string as the mode id of [conn]. The
    recorded id is the id of a mode that the display service flagged
    current (toggle.js 274-282), and the service names its modes. *)
Definition records_empty_id t (conn : option string) : Prop :=
  match conn with
  | Some c => recorded_mode t c ""
  | None => False
  end.

(** Every known physical monitor's connector appears in some logical
    monitor's assignment set. *)
Definition full_coverage (mons : list PhysicalMonitor) lms : Prop :=
  forall p, In p mons ->
    exists lm a, In lm lms /\ In a (assignments lm) /\
                 a_connector a = connector p.

(** The fetch reply is a success reporting at least one physical monitor
    under full coverage. *)
Definition covering_reply (reply : Reply (FetchResult Scale)) : Prop :=
  exists newSerial mons lms props,
    result reply = FetchOk newSerial mons lms props /\
    mons <> [] /\ full_coverage mons lms.

(** Whether a reply makes the fetch overwrite the snapshot. *)
Definition overwrites (reply : Reply (FetchResult Scale)) : bool :=
  match result reply with
  | FetchOk _ mons lms _ => allActive mons (fixPrimaryFlags lms)
  | FetchError _ => false
  end.

(** The layouts submitted so far. *)
Definition sub w : list (Layout Scale) := submitted (out w).

(** A layout is submitted by the toggle exactly when planning, on the
    registry the fetch left, yields a candidate. *)
Definition planned_submission (env : ToggleEnv Scale) t : list (Layout Scale) :=
  if proxy t then
    match plan t (xmlConf env) with
    | Candidate finalLogicalMonitors => [finalLogicalMonitors]
    | _ => []
    end
  else [].

(** The layouts submitted by make-primary (toggle.js 636-663). *)
Definition primary_submission (target : string) t : list (Layout Scale) :=
  if proxy t then
    match keep_some (map (retarget t target) (logicalMonitors t)) with
    | [] => []
    | finalLms => [normalizePositions finalLms]
    end
  else [].

(** The candidate of the branch the toggle takes, before finalization. *)
Definition branch_plan t (xml : option (XmlConf Scale)) : Planned Scale :=
  if isActive t then plan_disable t else plan_enable scale_one round_div t xml.

(** The snapshot a world holds. *)
Definition snap w : Snapshot Scale := snapshot (tg w).

(** An entry in the form finalization produces: one assignment, whose mode
    id is what [_resolveModeId] answers for its connector. *)
Definition resolved_entry t (lm : LogicalMonitor Scale) : Prop :=
  exists c id,
    assignments lm = single_assignment c id /\ properties lm = [] /\
    _resolveModeId t (Some c) = Some id /\ str_truthy id = true.

(** The layout the enable branch restores or places, before the primary
    flags are enforced (toggle.js 429-489). *)
Definition placed t (xml : option (XmlConf Scale)) : Planned Scale :=
  if hasSnapshot t then Candidate (restore_from_snapshot t)
  else place_to_right scale_one round_div t xml.

(** The current logical monitors that hold [target] and whose mode
    resolves: those make-primary flags. *)
Definition holders t (target : string) : Layout Scale :=
  filter (fun lm => has_connector (Some target) lm
                    && opt_truthy (_resolveModeId t (first_connector lm)))
         (logicalMonitors t).

(** The logical monitors whose first connector resolves a mode: those the
    map of lines 636-643 keeps. *)
Definition resolvable t (lms : Layout Scale) : Layout Scale :=
  filter (fun lm => opt_truthy (_resolveModeId t (first_connector lm))) lms.

(** [e] is the right edge of [lm]: its x plus the rounded quotient of the
    width of its resolved mode by its scale. *)
Definition right_edge_of t (lm : LogicalMonitor Scale) (e : Z) : Prop :=
  exists c phys id m,
    first_connector lm = Some c /\ known_monitor t c phys /\
    _resolveModeId t (Some c) = Some id /\ id <> "" /\
    first_such (fun md => String.eqb (mode_id md) id) (modes phys) m /\
    e = x lm + round_div (mode_width m) (scale lm).

Definition is_nil (A : Type) (l : list A) : bool :=
  match l with [] => true | _ => false end.

(** The entry the fallback appends for the selected connector, as it stands
    after the primary flags are enforced. *)
Definition placed_entry t (xml : option (XmlConf Scale)) (mon modeId : string)
  : LogicalMonitor Scale :=
  {| x := maxRight round_div t; y := 0;
     scale := match xml with Some c => xc_scale c | None => scale_one end;
     transform := match xml with Some c => xc_transform c | None => 0 end;
     isPrimary := is_nil (keep_some (map (reresolve t) (logicalMonitors t)));
     assignments := single_assignment mon modeId;
     properties := [] |}.

(** The current logical monitors as the fallback carries them over. *)
Definition carried_over t : Layout Scale :=
  ensure_primary
    (fixPrimaryFlags (keep_some (map (reresolve t) (logicalMonitors t)))).

(** The logical monitor rebuilt from a snapshot entry (toggle.js 439-442). *)
Definition restored (c : string) (s : SnapEntry Scale) (modeId : string)
  : LogicalMonitor Scale :=
  {| x := s_x s; y := s_y s; scale := s_scale s; transform := s_transform s;
     isPrimary := s_isPrimary s; assignments := single_assignment c modeId;
     properties := [] |}.

(** The calls made and timers armed so far. *)
Definition made w : list (Event Scale) := calls (out w).

(** The registry a toggle plans on: what its first fetch leaves. *)
Definition fetched_registry (env : ToggleEnv Scale) t : Toggle Scale :=
  tg (toggle_fetch env (start t false)).

(** The calls and timers that follow the first fetch of a toggle, planned
    on registry [t1]. *)
Definition act_trace (env : ToggleEnv Scale) (t1 : Toggle Scale)
  : list (Event Scale) :=
  match plan t1 (xmlConf env) with
  | Inert _ => []
  | AbortRefetch _ => [GetCurrentState]
  | Candidate L =>
      ApplyMonitorsConfig (serial t1) (persistenceMode t1) L
                          (propertiesToApply t1) ::
      if torn_down (applied env) then []
      else
        match result (applied env) with
        | ApplyOk =>
            TimeoutSet "_configRefreshTimeoutId" 1200 ::
            (if isActive t1 then []
             else [TimeoutSet "_primaryDialogTimeoutId" 1500])
        | ApplyError _ => [TimeoutSet "_configRefreshTimeoutId" 1200]
        end
  end.

(** The service calls and timers of one toggle, in order. *)
Definition toggle_trace (env : ToggleEnv Scale) t : list (Event Scale) :=
  if negb (proxy t) || toggling t then []
  else
    GetCurrentState ::
    if torn_down (fetched env) then []
    else act_trace env (fetched_registry env t).

(** The registry make-primary works on. *)
Definition primary_registry (env : PrimaryEnv Scale) t : Toggle Scale :=
  tg (primary_fetch env (start t false)).

(** The service calls and timers of one make-primary, in order. *)
Definition makePrimary_trace (target : string) (env : PrimaryEnv Scale) t
  : list (Event Scale) :=
  if negb (proxy t) then []
  else
    GetCurrentState ::
    if torn_down (p_fetched env) then []
    else
      let t1 := primary_registry env t in
      match keep_some (map (retarget t1 target) (logicalMonitors t1)) with
      | [] => []
      | finalLms =>
          ApplyMonitorsConfig (serial t1) (persistenceMode t1)
                              (normalizePositions finalLms)
                              (propertiesToApply t1) ::
          if torn_down (p_applied env) then []
          else
            match result (p_applied env) with
            | ApplyOk => [TimeoutSet "_configRefreshTimeoutId" 1200]
            | ApplyError _ => []
            end
      end.

(** The number of [GetCurrentStateAsync] calls among the effects. *)
Definition fetches (es : list (Event Scale)) : nat :=
  length (filter (fun e => match e with GetCurrentState => true | _ => false end)
                 es).

(** [propertiesToApply] in terms of the properties a fetch reported. *)
Definition layout_mode_of (props : Props) : option Z :=
  if prop_bool "supports-changing-layout-mode" false props
  then Some (prop_int "layout-mode" 1 props)
  else None.

(** A submitted entry names one connector the registry knows, with a mode
    id that is not empty and that the connector's monitor offers. *)
Definition names_known_mode t (lm : LogicalMonitor Scale) : Prop :=
  exists c id phys,
    assignments lm = single_assignment c id /\ properties lm = [] /\
    known_monitor t c phys /\ id <> "" /\ offers phys id.

(** The registry [destroy] leaves (toggle.js 695-717). *)
Definition destroyed t : Toggle Scale :=
  {| proxy := false; indicator := false;
     savedConnector := savedConnector t; monitors := [];
     logicalMonitors := []; serial := serial t;
     layoutMode := layoutMode t;
     supportsChangingLayoutMode := supportsChangingLayoutMode t;
     monitor := None; persistenceMode := persistenceMode t;
     snapshot := []; toggling := toggling t; checked := checked t;
     sensitive := sensitive t |}.

(** The toggle as [_disableToggle] leaves it: unchecked and insensitive. *)
Definition disabled t : Toggle Scale :=
  set_sensitive false (set_checked false t).

(** The registry after a fetch answered by [reply]. *)
Definition after_fetch (reply : Reply (FetchResult Scale)) t : Toggle Scale :=
  tg (_getMonitorConfig reply (start t false)).

(** The registry after the part of a toggle that follows its first fetch,
    planned on registry [t1]. *)
Definition act_registry (env : ToggleEnv Scale) (t1 : Toggle Scale)
  : Toggle Scale :=
  match plan t1 (xmlConf env) with
  | Inert _ => disabled t1
  | AbortRefetch _ => after_fetch (refetched env) t1
  | Candidate _ =>
      if torn_down (applied env) then destroyed t1
      else
        match result (applied env) with
        | ApplyOk => set_checked (negb (isActive t1)) t1
        | ApplyError _ => disabled t1
        end
  end.

(** The writes of the two nested loops that take a snapshot (toggle.js
    255-271), in the order they are made. *)
Definition snapshot_writes (mons : list PhysicalMonitor) lms
  : list (string * SnapEntry Scale) :=
  flat_map (fun lm =>
              map (fun m => (a_connector m,
                             snapshot_entry mons lm (a_connector m)))
                  (assignments lm))
           lms.

(** The last logical monitor of the list that holds connector [c]. *)
Definition last_holder (c : string) lms : option (LogicalMonitor Scale) :=
  find (has_connector (Some c)) (rev lms).

(** The registry holds at most one logical monitor flagged primary. *)
Definition single_primary t : Prop :=
  (primary_count (logicalMonitors t) <= 1)%nat.

(** A snapshot entry the enable branch can restore: the mode of its
    connector resolves to an id that is not empty. *)
Definition restorable t (e : string * SnapEntry Scale) : bool :=
  opt_truthy (_resolveModeId t (Some (fst e))).

(** [lm] is the snapshot entry [e] restored and moved by [(dx, dy)]: the
    entry's connector with its resolved mode, at the entry's scale and
    transform. *)
Definition restored_at t (dx dy : Z) (e : string * SnapEntry Scale)
           (lm : LogicalMonitor Scale) : Prop :=
  exists id,
    _resolveModeId t (Some (fst e)) = Some id /\ id <> "" /\
    assignments lm = single_assignment (fst e) id /\ properties lm = [] /\
    x lm = s_x (snd e) - dx /\ y lm = s_y (snd e) - dy /\
    scale lm = s_scale (snd e) /\ transform lm = s_transform (snd e).

(** The least value of [f] over the entries of a snapshot is [m]. *)
Definition least_recorded (f : SnapEntry Scale -> Z)
           (entries : list (string * SnapEntry Scale)) (m : Z) : Prop :=
  (exists e, In e entries /\ f (snd e) = m) /\
  (forall e, In e entries -> m <= f (snd e)).

(** ** The two repairs *)

Lemma demote_extras_false_count lms :
  primary_count (demote_extras false lms) = 0%nat.
Proof.
  unfold primary_count.
  induction lms as [|lm rest IH]; simpl; [reflexivity|].
  destruct (isPrimary lm) eqn:E; simpl; [|rewrite E]; exact IH.
Qed.

Lemma demote_extras_true_count lms :
  (1 <= primary_count lms)%nat ->
  primary_count (demote_extras true lms) = 1%nat.
Proof.
  unfold primary_count.
  induction lms as [|lm rest IH]; simpl; [lia|].
  destruct (isPrimary lm) eqn:E; simpl.
  - intros _. rewrite E. simpl. f_equal. apply demote_extras_false_count.
  - intros H. rewrite E. auto.
Qed.

Lemma demote_extras_first_primary lms :
  first_primary (demote_extras true lms) = first_primary lms.
Proof.
  induction lms as [|lm rest IH]; simpl; [reflexivity|].
  destruct (isPrimary lm) eqn:E; simpl; rewrite E; [reflexivity|].
  now rewrite IH.
Qed.

Lemma demote_extras_keeps_first lms i :
  first_primary lms = Some i ->
  nth_error (demote_extras true lms) i = nth_error lms i.
Proof.
  revert i.
  induction lms as [|lm rest IH]; simpl; intros i H; [discriminate|].
  destruct (isPrimary lm) eqn:E.
  - now inversion H.
  - destruct (first_primary rest) as [k|]; simpl in H; [|discriminate].
    inversion H; subst. simpl. now apply IH.
Qed.

Lemma first_primary_some lms :
  (1 <= primary_count lms)%nat -> exists i, first_primary lms = Some i.
Proof.
  unfold primary_count.
  induction lms as [|lm rest IH]; simpl; [lia|].
  destruct (isPrimary lm); simpl; intros H.
  - now exists 0%nat.
  - destruct (IH H) as [i Hi]. exists (S i). now rewrite Hi.
Qed.

Lemma first_primary_is_primary lms i :
  first_primary lms = Some i ->
  exists lm, nth_error lms i = Some lm /\ isPrimary lm = true.
Proof.
  revert i.
  induction lms as [|lm rest IH]; simpl; intros i H; [discriminate|].
  destruct (isPrimary lm) eqn:E.
  - inversion H; subst. now exists lm.
  - destruct (first_primary rest) as [k|]; simpl in H; [|discriminate].
    inversion H; subst. now apply IH.
Qed.

Lemma first_primary_least lms i j lm :
  first_primary lms = Some i ->
  nth_error lms j = Some lm -> isPrimary lm = true -> (i <= j)%nat.
Proof.
  revert i j.
  induction lms as [|l rest IH]; simpl; intros i j H Hj Hp; [discriminate|].
  destruct (isPrimary l) eqn:E.
  - inversion H; lia.
  - destruct (first_primary rest) as [k|] eqn:Ek; simpl in H; [|discriminate].
    inversion H; subst.
    destruct j as [|j]; simpl in Hj.
    + inversion Hj; subst. congruence.
    + specialize (IH k j eq_refl Hj Hp). lia.
Qed.

Lemma primary_count_exists lms :
  (exists lm, In lm lms /\ isPrimary lm = true) ->
  (1 <= primary_count lms)%nat.
Proof.
  intros [lm [Hin Hp]]. unfold primary_count.
  assert (In lm (filter (@isPrimary Scale) lms)) as H
    by (apply filter_In; auto).
  destruct (filter (@isPrimary Scale) lms); [contradiction|simpl; lia].
Qed.

(** With exactly one flagged entry, every flagged index is the first one. *)
Lemma single_primary_unique lms i j lm :
  primary_count lms = 1%nat ->
  first_primary lms = Some i ->
  nth_error lms j = Some lm -> isPrimary lm = true -> j = i.
Proof.
  unfold primary_count. revert i j.
  induction lms as [|l rest IH]; simpl; intros i j Hc Hf Hj Hp; [discriminate|].
  destruct (isPrimary l) eqn:E; simpl in Hc.
  - inversion Hf; subst.
    destruct j as [|j]; [reflexivity|]. simpl in Hj. exfalso.
    assert (In lm (filter (@isPrimary Scale) rest)) as Hin
      by (apply filter_In; split; [eapply nth_error_In; eauto|assumption]).
    destruct (filter (@isPrimary Scale) rest); [contradiction|discriminate].
  - destruct (first_primary rest) as [k|] eqn:Ek; simpl in Hf; [|discriminate].
    inversion Hf; subst.
    destruct j as [|j]; simpl in Hj.
    + inversion Hj; subst. congruence.
    + f_equal. eapply IH; eauto.
Qed.

Lemma fixPrimaryFlags_count lms :
  (1 <= primary_count lms)%nat -> primary_count (fixPrimaryFlags lms) = 1%nat.
Proof.
  intros H. unfold fixPrimaryFlags.
  destruct (length (filter (@isPrimary Scale) lms) <=? 1)%nat eqn:E.
  - apply Nat.leb_le in E. unfold primary_count in *. lia.
  - now apply demote_extras_true_count.
Qed.

Lemma fixPrimaryFlags_count_le lms :
  (primary_count (fixPrimaryFlags lms) <= 1)%nat.
Proof.
  destruct (Nat.eq_dec (primary_count lms) 0) as [Hz|Hnz].
  - unfold fixPrimaryFlags. unfold primary_count in Hz. rewrite Hz. simpl.
    unfold primary_count. lia.
  - rewrite fixPrimaryFlags_count; lia.
Qed.

Lemma fixPrimaryFlags_first_primary lms :
  first_primary (fixPrimaryFlags lms) = first_primary lms.
Proof.
  unfold fixPrimaryFlags.
  destruct (length (filter (@isPrimary Scale) lms) <=? 1)%nat;
    [reflexivity|apply demote_extras_first_primary].
Qed.

Lemma fixPrimaryFlags_keeps_first lms i :
  first_primary lms = Some i ->
  nth_error (fixPrimaryFlags lms) i = nth_error lms i.
Proof.
  unfold fixPrimaryFlags.
  destruct (length (filter (@isPrimary Scale) lms) <=? 1)%nat;
    [reflexivity|apply demote_extras_keeps_first].
Qed.

Lemma fixPrimaryFlags_fixpoint lms :
  (primary_count lms <= 1)%nat -> fixPrimaryFlags lms = lms.
Proof.
  unfold fixPrimaryFlags, primary_count. intros H.
  apply Nat.leb_le in H. now rewrite H.
Qed.

Lemma fixPrimaryFlags_iter lms n :
  Nat.iter (S n) (@fixPrimaryFlags Scale) lms = fixPrimaryFlags lms.
Proof.
  induction n as [|n IH]; [reflexivity|].
  change (Nat.iter (S (S n)) (@fixPrimaryFlags Scale) lms)
    with (fixPrimaryFlags (Nat.iter (S n) (@fixPrimaryFlags Scale) lms)).
  rewrite IH. apply fixPrimaryFlags_fixpoint, fixPrimaryFlags_count_le.
Qed.

(** C3. For a list with at least one entry flagged primary, applying
    [fixPrimaryFlags] one or more times leaves exactly one flagged entry: it
    sits at the index of the first flagged entry of the input, it is that
    very entry, and no other index is flagged. *)
Theorem fixPrimaryFlags_keeps_exactly_first lms (n : nat) :
  (exists lm, In lm lms /\ isPrimary lm = true) ->
  (1 <= n)%nat ->
  let repaired := Nat.iter n (@fixPrimaryFlags Scale) lms in
  primary_count repaired = 1%nat /\
  exists i lm,
    first_primary lms = Some i /\
    nth_error lms i = Some lm /\ isPrimary lm = true /\
    (forall k l, (k < i)%nat -> nth_error lms k = Some l -> isPrimary l = false) /\
    nth_error repaired i = Some lm /\
    (forall j l, nth_error repaired j = Some l -> isPrimary l = true -> j = i).
Proof.
  intros Hex Hn repaired.
  destruct n as [|n]; [lia|].
  subst repaired. rewrite fixPrimaryFlags_iter.
  apply primary_count_exists in Hex.
  pose proof (fixPrimaryFlags_count lms Hex) as Hc.
  split; [exact Hc|].
  destruct (first_primary_some lms Hex) as [i Hi].
  destruct (first_primary_is_primary lms Hi) as [lm [Hlm Hp]].
  exists i, lm. repeat split; auto.
  - intros k l Hk Hl. destruct (isPrimary l) eqn:E; [|reflexivity].
    pose proof (first_primary_least lms k Hi Hl E). lia.
  - now rewrite fixPrimaryFlags_keeps_first.
  - intros j l Hj Hl.
    eapply single_primary_unique; eauto.
    now rewrite fixPrimaryFlags_first_primary.
Qed.

Lemma same_but_demoted_refl a : same_but_demoted a a.
Proof. unfold same_but_demoted. repeat split; auto. Qed.

Lemma demote_extras_frame first lms :
  Forall2 same_but_demoted lms (demote_extras first lms).
Proof.
  revert first.
  induction lms as [|lm rest IH]; simpl; intros first; [constructor|].
  destruct (isPrimary lm) eqn:E.
  - constructor; [|apply IH].
    destruct first; [apply same_but_demoted_refl|].
    unfold same_but_demoted; simpl. repeat split; auto.
  - constructor; [apply same_but_demoted_refl|apply IH].
Qed.

Lemma Forall2_same_refl lms : Forall2 same_but_demoted lms lms.
Proof.
  induction lms; constructor; [apply same_but_demoted_refl|assumption].
Qed.

Lemma fixPrimaryFlags_entries lms :
  Forall2 same_but_demoted lms (fixPrimaryFlags lms).
Proof.
  unfold fixPrimaryFlags.
  destruct (length (filter (@isPrimary Scale) lms) <=? 1)%nat;
    [apply Forall2_same_refl|apply demote_extras_frame].
Qed.

Lemma fixPrimaryFlags_length lms :
  length (fixPrimaryFlags lms) = length lms.
Proof.
  symmetry. eapply Forall2_length, fixPrimaryFlags_entries.
Qed.

(** C10. [fixPrimaryFlags] returns its input when at most one entry is
    flagged primary; in every case it keeps the number and order of the
    entries, and entry by entry x, y, scale, transform, assignments and
    properties, and the primary flag is either kept or goes from true to
    false. *)
Theorem fixPrimaryFlags_frame lms :
  ((primary_count lms <= 1)%nat -> fixPrimaryFlags lms = lms) /\
  length (fixPrimaryFlags lms) = length lms /\
  Forall2 same_but_demoted lms (fixPrimaryFlags lms).
Proof.
  split; [apply fixPrimaryFlags_fixpoint|].
  split; [apply fixPrimaryFlags_length|apply fixPrimaryFlags_entries].
Qed.

Lemma fold_min_step_spec (vs : list Z) (a : Z) :
  exists m, fold_left min_step vs (Some a) = Some m /\
            (m = a \/ In m vs) /\ m <= a /\ (forall v, In v vs -> m <= v).
Proof.
  revert a.
  induction vs as [|v rest IH]; simpl; intros a.
  - exists a. split; [reflexivity|]. split; [now left|].
    split; [lia|]. intros ? [].
  - destruct (v <? a) eqn:E.
    + apply Z.ltb_lt in E.
      destruct (IH v) as [m [Hm [Hin [Hle Hall]]]].
      exists m. split; [exact Hm|]. split; [|split].
      * destruct Hin as [->|Hin]; auto.
      * lia.
      * intros u [<-|Hu]; auto.
    + apply Z.ltb_ge in E.
      destruct (IH a) as [m [Hm [Hin [Hle Hall]]]].
      exists m. split; [exact Hm|]. split; [|split].
      * destruct Hin as [->|Hin]; auto.
      * exact Hle.
      * intros u [<-|Hu]; auto. lia.
Qed.

Lemma running_min_spec (vs : list Z) :
  vs <> [] ->
  exists m, running_min vs = Some m /\ In m vs /\ (forall v, In v vs -> m <= v).
Proof.
  destruct vs as [|v rest]; [congruence|]. intros _.
  unfold running_min. simpl.
  destruct (fold_min_step_spec rest v) as [m [Hm [Hin [Hle Hall]]]].
  exists m. split; [exact Hm|]. split.
  - destruct Hin as [->|Hin]; auto.
  - intros u [<-|Hu]; auto.
Qed.

Lemma Forall2_shift_map lms dx dy :
  Forall2 (shifted_by dx dy) lms
    (map (fun lm => set_position (x lm - dx) (y lm - dy) lm) lms).
Proof.
  induction lms as [|lm rest IH]; simpl; constructor; [|exact IH].
  unfold shifted_by; simpl. repeat split; reflexivity.
Qed.

Lemma Forall2_shift_zero lms : Forall2 (shifted_by 0 0) lms lms.
Proof.
  induction lms as [|lm rest IH]; constructor; [|exact IH].
  unfold shifted_by. repeat split; lia.
Qed.

(** [normalizePositions] is a translation by the two minima. *)
Lemma normalizePositions_shift lms :
  lms <> [] ->
  exists minX minY,
    minimum_is (@x Scale) lms minX /\ minimum_is (@y Scale) lms minY /\
    Forall2 (shifted_by minX minY) lms (normalizePositions lms).
Proof.
  intros Hne.
  assert (map (@x Scale) lms <> []) as HX by (destruct lms; simpl; congruence).
  assert (map (@y Scale) lms <> []) as HY by (destruct lms; simpl; congruence).
  destruct (running_min_spec HX) as [mx [Hmx [Hinx Hallx]]].
  destruct (running_min_spec HY) as [my [Hmy [Hiny Hally]]].
  exists mx, my.
  apply in_map_iff in Hinx. destruct Hinx as [lx [Hlx Hinx]].
  apply in_map_iff in Hiny. destruct Hiny as [ly [Hly Hiny]].
  split; [|split].
  - split; [now exists lx|]. intros lm Hlm. apply Hallx. now apply in_map.
  - split; [now exists ly|]. intros lm Hlm. apply Hally. now apply in_map.
  - unfold normalizePositions.
    destruct lms as [|l0 rest]; [congruence|].
    rewrite Hmx, Hmy.
    destruct ((mx =? 0) && (my =? 0)) eqn:E.
    + apply andb_true_iff in E. destruct E as [Ex Ey].
      apply Z.eqb_eq in Ex. apply Z.eqb_eq in Ey. rewrite Ex, Ey.
      apply Forall2_shift_zero.
    + apply Forall2_shift_map.
Qed.

Lemma Forall2_nth_error (A B : Type) (R : A -> B -> Prop) l1 l2 i a b :
  Forall2 R l1 l2 -> nth_error l1 i = Some a -> nth_error l2 i = Some b ->
  R a b.
Proof.
  intros H. revert i.
  induction H as [|u v l1 l2 Huv H IH]; intros [|i]; simpl; try discriminate.
  - intros Ha Hb. inversion Ha; inversion Hb; subst. exact Huv.
  - apply IH.
Qed.

Lemma Forall2_In_r (A B : Type) (R : A -> B -> Prop) l1 l2 b :
  Forall2 R l1 l2 -> In b l2 -> exists a, In a l1 /\ R a b.
Proof.
  induction 1 as [|u v l1 l2 Huv H IH]; simpl; [intros []|].
  intros [<-|Hb]; [exists u; auto|].
  destruct (IH Hb) as [a [Ha HR]]. exists a; auto.
Qed.

Lemma Forall2_In_l (A B : Type) (R : A -> B -> Prop) l1 l2 a :
  Forall2 R l1 l2 -> In a l1 -> exists b, In b l2 /\ R a b.
Proof.
  induction 1 as [|u v l1 l2 Huv H IH]; simpl; [intros []|].
  intros [<-|Ha]; [exists v; auto|].
  destruct (IH Ha) as [b [Hb HR]]. exists b; auto.
Qed.

(** C4. For a non-empty list, the result of [normalizePositions] has least
    x equal to 0 and least y equal to 0, has as many entries, and for every
    pair of positions the differences of the x and of the y coordinates are
    those of the input, every other field of every entry being unchanged. *)
Theorem normalizePositions_origin_and_offsets lms :
  lms <> [] ->
  let r := normalizePositions lms in
  minimum_is (@x Scale) r 0 /\ minimum_is (@y Scale) r 0 /\
  length r = length lms /\
  (forall i j a b a' b',
      nth_error lms i = Some a -> nth_error lms j = Some b ->
      nth_error r i = Some a' -> nth_error r j = Some b' ->
      x a' - x b' = x a - x b /\ y a' - y b' = y a - y b) /\
  (forall i a a',
      nth_error lms i = Some a -> nth_error r i = Some a' ->
      scale a' = scale a /\ transform a' = transform a /\
      isPrimary a' = isPrimary a /\ assignments a' = assignments a /\
      properties a' = properties a).
Proof.
  intros Hne r.
  destruct (normalizePositions_shift Hne)
    as [mx [my [[[lx [Hlx Hxm]] Hxall] [[[ly [Hly Hym]] Hyall] HF]]]].
  fold r in HF.
  split; [|split; [|split; [|split]]].
  - split.
    + destruct (Forall2_In_l lx HF Hlx) as [b [Hb Hs]].
      exists b. split; [exact Hb|]. destruct Hs as [Hx _]. lia.
    + intros lm Hlm. destruct (Forall2_In_r lm HF Hlm) as [a [Ha Hs]].
      destruct Hs as [Hx _]. specialize (Hxall a Ha). lia.
  - split.
    + destruct (Forall2_In_l ly HF Hly) as [b [Hb Hs]].
      exists b. split; [exact Hb|]. destruct Hs as [_ [Hy _]]. lia.
    + intros lm Hlm. destruct (Forall2_In_r lm HF Hlm) as [a [Ha Hs]].
      destruct Hs as [_ [Hy _]]. specialize (Hyall a Ha). lia.
  - symmetry. eapply Forall2_length; eauto.
  - intros i j a b a' b' Ha Hb Ha' Hb'.
    destruct (Forall2_nth_error i HF Ha Ha') as [Hx1 [Hy1 _]].
    destruct (Forall2_nth_error j HF Hb Hb') as [Hx2 [Hy2 _]].
    lia.
  - intros i a a' Ha Ha'.
    destruct (Forall2_nth_error i HF Ha Ha') as [_ [_ H]]. exact H.
Qed.

(** ** Mode resolution *)

Lemma find_first_such (A : Type) (p : A -> bool) l m :
  find p l = Some m <-> first_such p l m.
Proof.
  split.
  - induction l as [|a l IH]; simpl; [discriminate|].
    destruct (p a) eqn:E; intros H.
    + inversion H; subst. now constructor.
    + constructor; auto.
  - induction 1 as [m l H|a l m Ha H IH]; simpl.
    + now rewrite H.
    + now rewrite Ha.
Qed.

Lemma find_none_such (A : Type) (p : A -> bool) l :
  find p l = None <-> none_such p l.
Proof.
  split.
  - intros H a Ha. eapply find_none; eauto.
  - induction l as [|a l IH]; simpl; intros H; [reflexivity|].
    rewrite (H a (or_introl eq_refl)). apply IH.
    intros b Hb. apply H. now right.
Qed.

Lemma first_such_functional (A : Type) (p : A -> bool) l m1 m2 :
  first_such p l m1 -> first_such p l m2 -> m1 = m2.
Proof.
  intros H1 H2. apply find_first_such in H1. apply find_first_such in H2.
  congruence.
Qed.

Lemma first_such_not_none (A : Type) (p : A -> bool) l m :
  first_such p l m -> none_such p l -> False.
Proof.
  intros H1 H2. apply find_first_such in H1. apply find_none_such in H2.
  congruence.
Qed.

Lemma existsb_offers (phys : PhysicalMonitor) (id : string) :
  existsb (fun m => String.eqb (mode_id m) id) (modes phys) = true
  <-> offers phys id.
Proof.
  unfold offers. rewrite existsb_exists.
  split; intros [m [Hin H]]; exists m; split; auto.
  - now apply String.eqb_eq.
  - now apply String.eqb_eq.
Qed.

Lemma str_truthy_iff (s : string) : str_truthy s = true <-> s <> "".
Proof.
  unfold str_truthy. rewrite negb_true_iff. apply String.eqb_neq.
Qed.

(** The guard of line 363 holds exactly when a non-empty recorded id is
    still offered. *)
Lemma snapshot_guard_iff t c phys :
  (let snapMode := match snap_get c (snapshot t) with
                   | Some s => s_modeId s
                   | None => None
                   end in
   opt_truthy snapMode &&
   match snapMode with
   | Some id => existsb (fun m => String.eqb (mode_id m) id) (modes phys)
   | None => false
   end = true)
  <-> exists id, recorded_mode t c id /\ id <> "" /\ offers phys id.
Proof.
  unfold recorded_mode. simpl.
  destruct (snap_get c (snapshot t)) as [s|] eqn:Es.
  - destruct (s_modeId s) as [id|] eqn:Eid; simpl.
    + rewrite andb_true_iff, str_truthy_iff, existsb_offers.
      split.
      * intros [H1 H2]. exists id. split; [|split]; auto. now exists s.
      * intros [id' [[s' [Hs' Hid']] [H1 H2]]].
        inversion Hs'; subst s'. rewrite Eid in Hid'.
        inversion Hid'; subst. auto.
    + split; [discriminate|].
      intros [id' [[s' [Hs' Hid']] _]]. inversion Hs'; subst s'. congruence.
  - simpl. split; [discriminate|].
    intros [id' [[s' [Hs' _]] _]]. discriminate.
Qed.

Lemma resolveModeId_coded t conn :
  resolves_as_coded t conn (_resolveModeId t conn).
Proof.
  unfold resolves_as_coded, _resolveModeId.
  destruct conn as [c|]; simpl; [|now constructor].
  destruct (find (fun p => String.eqb (connector p) c) (monitors t))
    as [phys|] eqn:Ephys.
  2:{ constructor. simpl. now apply find_none_such. }
  apply find_first_such in Ephys.
  pose proof (snapshot_guard_iff t c phys) as G. simpl in G.
  destruct (opt_truthy _ && _) eqn:Eg.
  - destruct (proj1 G eq_refl) as [id [[s [Hs Hid]] [Hne Hoff]]].
    rewrite Hs, Hid. eapply res_snapshot; eauto. now exists s.
  - assert (~ (exists id, recorded_mode t c id /\ id <> "" /\ offers phys id))
      as Hno by (intros H; apply G in H; discriminate).
    destruct (find is_current (modes phys)) as [cur|] eqn:Ecur.
    { eapply res_current; eauto. now apply find_first_such. }
    apply find_none_such in Ecur.
    destruct (find is_preferred (modes phys)) as [pref|] eqn:Epref.
    { eapply res_preferred; eauto. now apply find_first_such. }
    apply find_none_such in Epref.
    destruct (modes phys) as [|m rest] eqn:Em; simpl.
    + eapply res_no_mode; eauto.
    + eapply res_first with (rest := rest); eauto; rewrite Em; assumption.
Qed.

Lemma recorded_mode_functional t c id1 id2 :
  recorded_mode t c id1 -> recorded_mode t c id2 -> id1 = id2.
Proof.
  intros [s1 [H1 E1]] [s2 [H2 E2]]. congruence.
Qed.

Lemma first_such_in (A : Type) (p : A -> bool) l m :
  first_such p l m -> In m l.
Proof. induction 1; simpl; auto. Qed.

Lemma resolves_to_functional usable t conn r1 r2 :
  resolves_to usable t conn r1 -> resolves_to usable t conn r2 -> r1 = r2.
Proof.
  intros H1 H2.
  destruct H1; inversion H2; subst; try reflexivity;
    repeat match goal with
      | H : unknown_connector _ (Some _) |- _ => simpl in H
      | H1 : known_monitor ?t ?c ?p1, H2 : known_monitor ?t ?c ?p2 |- _ =>
          pose proof (first_such_functional H1 H2); subst p2; clear H2
      | H1 : known_monitor ?t ?c _, H2 : none_such _ (monitors ?t) |- _ =>
          exfalso; exact (first_such_not_none H1 H2)
      | H1 : first_such ?p ?l _, H2 : none_such ?p ?l |- _ =>
          exfalso; exact (first_such_not_none H1 H2)
      | H1 : first_such ?p ?l ?a, H2 : first_such ?p ?l ?b |- _ =>
          pose proof (first_such_functional H1 H2); subst b; clear H2
      | H1 : recorded_mode ?t ?c ?a, H2 : recorded_mode ?t ?c ?b |- _ =>
          pose proof (recorded_mode_functional H1 H2); subst b; clear H2
      | H1 : first_such _ (modes ?p) _, H2 : modes ?p = [] |- _ =>
          exfalso; apply first_such_in in H1; rewrite H2 in H1; exact H1
      end;
    try reflexivity;
    try (exfalso;
         match goal with
         | H : ~ (exists id, _) |- _ => apply H; eexists; eauto
         end; fail);
    try congruence.
Qed.

(** The priority order determines the result, an empty recorded id being
    skipped. *)
Lemma resolveModeId_coded_iff t conn r :
  _resolveModeId t conn = r <-> resolves_as_coded t conn r.
Proof.
  split.
  - intros <-. apply resolveModeId_coded.
  - intros H. eapply resolves_to_functional; [apply resolveModeId_coded|exact H].
Qed.

(** Two readings of "usable" that agree on the id recorded for the
    connector give the same resolution. *)
Lemma resolves_to_usable (P Q : string -> Prop) t conn r :
  (forall c id, conn = Some c -> recorded_mode t c id -> P id -> Q id) ->
  (forall c id, conn = Some c -> recorded_mode t c id -> Q id -> P id) ->
  resolves_to P t conn r -> resolves_to Q t conn r.
Proof.
  intros HPQ HQP H.
  assert (forall c phys,
             conn = Some c ->
             ~ (exists id, recorded_mode t c id /\ P id /\ offers phys id) ->
             ~ (exists id, recorded_mode t c id /\ Q id /\ offers phys id))
    as Hneg.
  { intros c phys Ec Hno [id [Hrec [Hq Hoff]]]. apply Hno. exists id.
    split; [exact Hrec|]. split; [|exact Hoff]. exact (HQP c id Ec Hrec Hq). }
  destruct H as [conn Hu|c phys id Hk Hrec Hp Hoff|c phys m Hk Hno Hc
                |c phys m Hk Hno Hnc Hpf|c phys m rest Hk Hno Hnc Hnp Hm
                |c phys Hk Hno Hm].
  - now apply res_unknown.
  - apply res_snapshot with (phys := phys); auto;
      try exact (HPQ c id eq_refl Hrec Hp).
  - apply res_current with (phys := phys); auto;
      try exact (Hneg c phys eq_refl Hno).
  - apply res_preferred with (phys := phys); auto;
      try exact (Hneg c phys eq_refl Hno).
  - apply res_first with (phys := phys) (rest := rest); auto;
      try exact (Hneg c phys eq_refl Hno).
  - apply res_no_mode with (phys := phys); auto;
      try exact (Hneg c phys eq_refl Hno).
Qed.

(** C7. [_resolveModeId] returns, in this order of priority: the mode id
    the snapshot records for the connector if it is still offered by the
    connector's physical monitor; otherwise the id of the first mode flagged
    current; otherwise of the first mode flagged preferred; otherwise of the
    first mode of the list; and no mode when the connector is unknown (or
    its monitor lists no mode at all). The priority order determines the
    result. Stated for a snapshot that does not record the empty string as
    the connector's mode id: the guard [snapMode && ...] of line 363 would
    skip such an id. *)
Theorem resolveModeId_priority t conn r :
  ~ records_empty_id t conn ->
  (_resolveModeId t conn = r <-> resolves_as_stated t conn r).
Proof.
  intros Hnonempty.
  assert (forall r', resolves_as_coded t conn r' -> resolves_as_stated t conn r')
    as Hstated.
  { intros r'. apply resolves_to_usable.
    - intros; exact I.
    - intros c id -> Hrec _ ->. exact (Hnonempty Hrec). }
  split.
  - intros <-. apply Hstated, resolveModeId_coded.
  - intros H.
    exact (resolves_to_functional (Hstated _ (resolveModeId_coded t conn)) H).
Qed.

(** ** The fetch and the snapshot store *)

Lemma has_connector_iff (c : string) (lm : LogicalMonitor Scale) :
  has_connector (Some c) lm = true <->
  exists a, In a (assignments lm) /\ a_connector a = c.
Proof.
  simpl. rewrite existsb_exists.
  split; intros [a [Hin H]]; exists a; split; auto; now apply String.eqb_eq.
Qed.

Lemma allActive_iff (mons : list PhysicalMonitor) lms :
  allActive mons lms = true <-> mons <> [] /\ full_coverage mons lms.
Proof.
  unfold allActive, full_coverage.
  rewrite andb_true_iff, forallb_forall, Nat.ltb_lt.
  split.
  - intros [Hlen Hall]. split; [destruct mons; simpl in *; [lia|congruence]|].
    intros p Hp. specialize (Hall p Hp).
    apply existsb_exists in Hall. destruct Hall as [lm [Hlm Hc]].
    apply has_connector_iff in Hc. destruct Hc as [a [Ha Hc]].
    now exists lm, a.
  - intros [Hne Hall]. split; [destruct mons; simpl; [congruence|lia]|].
    intros p Hp. destruct (Hall p Hp) as [lm [a [Hlm [Ha Hc]]]].
    apply existsb_exists. exists lm. split; [exact Hlm|].
    apply has_connector_iff. now exists a.
Qed.

Lemma fixPrimaryFlags_assignments lms :
  map (@assignments Scale) (fixPrimaryFlags lms) = map (@assignments Scale) lms.
Proof.
  pose proof (fixPrimaryFlags_entries lms) as HF.
  induction HF as [|a b l1 l2 Hab HF IH]; simpl; [reflexivity|].
  destruct Hab as [_ [_ [_ [_ [Has _]]]]]. now rewrite Has, IH.
Qed.

Lemma full_coverage_assignments (mons : list PhysicalMonitor) lms lms' :
  map (@assignments Scale) lms' = map (@assignments Scale) lms ->
  full_coverage mons lms -> full_coverage mons lms'.
Proof.
  intros Hmap Hfull p Hp.
  destruct (Hfull p Hp) as [lm [a [Hlm [Ha Hc]]]].
  assert (In (assignments lm) (map (@assignments Scale) lms')) as Hin
    by (rewrite Hmap; now apply in_map).
  apply in_map_iff in Hin. destruct Hin as [lm' [Heq Hlm']].
  exists lm', a. rewrite Heq. auto.
Qed.

Lemma full_coverage_fixPrimaryFlags (mons : list PhysicalMonitor) lms :
  full_coverage mons (fixPrimaryFlags lms) <-> full_coverage mons lms.
Proof.
  split; apply full_coverage_assignments;
    [symmetry|]; apply fixPrimaryFlags_assignments.
Qed.

(** Steps that leave the registry alone. *)
Lemma emit_tg level event w : tg (_emit level event w) = tg w.
Proof. unfold _emit. now destruct (_enabled w). Qed.

Lemma emit_enabled level event w : _enabled (_emit level event w) = _enabled w.
Proof. unfold _emit. destruct (_enabled w) eqn:E; simpl; auto. Qed.

Lemma emit_event_tg (e : Event Scale) w : tg (emit_event e w) = tg w.
Proof. reflexivity. Qed.

Lemma with_tg_tg t w : tg (with_tg t w) = t.
Proof. reflexivity. Qed.

Lemma updateIndicator_tg w : tg (_updateIndicatorVisibility w) = tg w.
Proof.
  unfold _updateIndicatorVisibility.
  destruct (proxy (tg w)); simpl; [|reflexivity].
  destruct (indicator (tg w)); [apply emit_tg|reflexivity].
Qed.

#[local] Hint Rewrite emit_tg emit_event_tg with_tg_tg updateIndicator_tg
  : registry.

(** The registry after a fetch that succeeds on a live toggle. *)
Lemma getMonitorConfig_ok_tg reply w newSerial mons lms props :
  proxy (tg w) = true -> torn_down reply = false ->
  result reply = FetchOk newSerial mons lms props ->
  tg (_getMonitorConfig reply w)
  = let t := ingest (tg w) newSerial mons (fixPrimaryFlags lms) props in
    set_sensitive true (set_checked (isActive t) t).
Proof.
  intros Hp Htd Hres. unfold _getMonitorConfig.
  rewrite Hp, Htd, Hres. simpl.
  unfold logInfo, logStep, logDebug. rewrite emit_tg. simpl.
  unfold _sync. simpl.
  set (w1 := if allActive mons (fixPrimaryFlags lms) then _ else _).
  assert (tg w1 = ingest (tg w) newSerial mons (fixPrimaryFlags lms) props)
    as Hw1.
  { subst w1. destruct (allActive mons (fixPrimaryFlags lms));
      rewrite ?emit_tg; simpl; rewrite ?emit_tg; simpl;
      now rewrite ?emit_tg. }
  rewrite Hw1. cbn [proxy ingest]. rewrite Hp. cbn [negb].
  unfold logDebug. rewrite emit_tg, updateIndicator_tg. reflexivity.
Qed.

(** The registry after a fetch that fails on a live toggle. *)
Lemma getMonitorConfig_error_tg reply w e :
  proxy (tg w) = true -> torn_down reply = false ->
  result reply = FetchError e ->
  tg (_getMonitorConfig reply w)
  = set_sensitive false (set_checked false (tg w)).
Proof.
  intros Hp Htd Hres. unfold _getMonitorConfig.
  rewrite Hp, Htd, Hres. simpl.
  unfold _disableToggle, logError, logStep, logDebug.
  autorewrite with registry. rewrite Hp. cbn [negb].
  now autorewrite with registry.
Qed.

Lemma getMonitorConfig_dead reply w :
  proxy (tg w) = false -> _getMonitorConfig reply w = w.
Proof. intros Hp. unfold _getMonitorConfig. now rewrite Hp. Qed.

Lemma overwrites_iff reply : overwrites reply = true <-> covering_reply reply.
Proof.
  unfold overwrites, covering_reply.
  destruct (result reply) as [s mons lms props|e].
  - rewrite allActive_iff, full_coverage_fixPrimaryFlags.
    split.
    + intros [H1 H2]. now exists s, mons, lms, props.
    + intros [s' [mons' [lms' [props' [Heq [H1 H2]]]]]].
      inversion Heq; subst. auto.
  - split; [discriminate|].
    intros [s' [mons' [lms' [props' [Heq _]]]]]. discriminate.
Qed.

Lemma getMonitorConfig_snapshot reply w :
  torn_down reply = false -> overwrites reply = false ->
  snapshot (tg (_getMonitorConfig reply w)) = snapshot (tg w).
Proof.
  intros Htd How.
  destruct (proxy (tg w)) eqn:Hp; [|now rewrite getMonitorConfig_dead].
  unfold overwrites in How.
  destruct (result reply) as [s mons lms props|e] eqn:Hres.
  - rewrite (getMonitorConfig_ok_tg _ _ Hp Htd Hres). simpl. now rewrite How.
  - now rewrite (getMonitorConfig_error_tg _ _ Hp Htd Hres).
Qed.

(** ** The flows: what is submitted, what is logged *)

Lemma submitted_app (es1 es2 : list (Event Scale)) :
  submitted (es1 ++ es2) = (submitted es1 ++ submitted es2)%list.
Proof. unfold submitted. apply flat_map_app. Qed.

Lemma sub_emit level event w : sub (_emit level event w) = sub w.
Proof.
  unfold sub, _emit. destruct (_enabled w); simpl; [|reflexivity].
  rewrite submitted_app. simpl. apply app_nil_r.
Qed.

Lemma sub_with_tg t w : sub (with_tg t w) = sub w.
Proof. reflexivity. Qed.

Lemma sub_submit s m lms lp w :
  sub (emit_event (ApplyMonitorsConfig s m lms lp) w) = (sub w ++ [lms])%list.
Proof. unfold sub. simpl. now rewrite submitted_app. Qed.

Lemma sub_timeout prop delay w : sub (_resetTimeout prop delay w) = sub w.
Proof.
  unfold sub, _resetTimeout. simpl. rewrite submitted_app. apply app_nil_r.
Qed.

Lemma sub_fetch_call w : sub (emit_event GetCurrentState w) = sub w.
Proof. unfold sub. simpl. rewrite submitted_app. apply app_nil_r. Qed.

Lemma sub_updateIndicator w : sub (_updateIndicatorVisibility w) = sub w.
Proof.
  unfold _updateIndicatorVisibility.
  destruct (proxy (tg w)); simpl; [|reflexivity].
  destruct (indicator (tg w)); [apply sub_emit|reflexivity].
Qed.

Lemma sub_disableToggle reason w : sub (_disableToggle reason w) = sub w.
Proof.
  unfold _disableToggle, logError.
  destruct (proxy (tg w)); simpl; [|reflexivity].
  now rewrite sub_emit.
Qed.

Lemma sub_scheduleConfigRefresh w : sub (_scheduleConfigRefresh w) = sub w.
Proof.
  unfold _scheduleConfigRefresh.
  destruct (proxy (tg w)); simpl; [|reflexivity]. apply sub_timeout.
Qed.

Lemma sub_destroy w : sub (destroy w) = sub w.
Proof.
  unfold destroy, logInfo. rewrite sub_emit, sub_with_tg. apply sub_emit.
Qed.

Lemma sub_sync w : sub (_sync w) = sub w.
Proof.
  unfold _sync, logDebug.
  destruct (proxy (tg w)); simpl; [|reflexivity].
  now rewrite sub_emit, sub_updateIndicator.
Qed.

Lemma sub_getMonitorConfig reply w : sub (_getMonitorConfig reply w) = sub w.
Proof.
  unfold _getMonitorConfig, logStep, logDebug, logInfo, logError.
  destruct (proxy (tg w)); simpl; [|reflexivity].
  destruct (torn_down reply).
  { now rewrite sub_destroy, sub_fetch_call, sub_emit. }
  destruct (result reply) as [s mons lms props|e].
  - rewrite sub_emit, sub_with_tg, sub_sync.
    destruct (allActive mons (fixPrimaryFlags lms));
      rewrite ?sub_emit, ?sub_with_tg, ?sub_emit, sub_fetch_call;
      apply sub_emit.
  - now rewrite sub_disableToggle, sub_emit, sub_fetch_call, sub_emit.
Qed.

#[local] Hint Rewrite sub_emit sub_with_tg sub_submit sub_timeout
  sub_fetch_call sub_updateIndicator sub_disableToggle
  sub_scheduleConfigRefresh sub_destroy sub_sync sub_getMonitorConfig : quiet.

Lemma sub_toggle_act env w :
  sub (act env w) = (sub w ++ planned_submission env (tg w))%list.
Proof.
  unfold toggle_act, planned_submission, logStep, logDebug, logInfo, logError.
  destruct (proxy (tg w)) eqn:Hp; simpl; [|now rewrite app_nil_r].
  set (w1 := if isActive (tg w) then _ else _).
  assert (sub w1 = sub w /\ tg w1 = tg w) as [Hs Ht].
  { subst w1. destruct (isActive (tg w)); [|destruct (hasSnapshot (tg w))];
      autorewrite with quiet registry; auto. }
  destruct (plan (tg w) (xmlConf env)) as [L|reason|reason].
  - autorewrite with registry. rewrite Ht, Hp. simpl.
    destruct (torn_down (applied env)).
    { autorewrite with quiet. now rewrite Hs. }
    destruct (result (applied env)).
    + destruct (negb (isActive (tg w)));
        autorewrite with quiet; now rewrite Hs.
    + autorewrite with quiet. now rewrite Hs.
  - autorewrite with quiet. now rewrite Hs, app_nil_r.
  - autorewrite with quiet. now rewrite Hs, app_nil_r.
Qed.

Lemma submitted_toggle env t en :
  submitted (effects (toggle env) t en)
  = if negb (proxy t) || toggling t then []
    else planned_submission env
           (tg (toggle_fetch env (start t en))).
Proof.
  unfold effects, _toggleMonitor. simpl.
  destruct (negb (proxy t) || toggling t); [reflexivity|].
  fold (sub (logInfo "toggle.action.end"
    (with_tg (set_toggling false
       (tg (act env (toggle_fetch env (start t en)))))
       (act env (toggle_fetch env (start t en)))))).
  unfold logInfo. autorewrite with quiet.
  rewrite sub_toggle_act. unfold toggle_fetch, logInfo.
  now autorewrite with quiet.
Qed.

Lemma submitted_makePrimary target env t en :
  submitted (effects (_makePrimary target env) t en)
  = if negb (proxy t) then []
    else primary_submission target (tg (primary_fetch env (start t en))).
Proof.
  unfold effects, _makePrimary, primary_submission. simpl.
  destruct (proxy t); simpl; [|reflexivity].
  set (w1 := primary_fetch env (start t en)).
  assert (sub w1 = []) as Hs1.
  { subst w1. unfold primary_fetch, logInfo. now autorewrite with quiet. }
  fold (sub w1) in Hs1.
  destruct (proxy (tg w1)) eqn:Hp; simpl; [|exact Hs1].
  destruct (keep_some (map (retarget (tg w1) target) (logicalMonitors (tg w1))))
    as [|lm rest] eqn:Ek; [exact Hs1|].
  unfold logStep, logDebug, logInfo, logError.
  autorewrite with registry. rewrite Hp. simpl.
  match goal with |- submitted (out ?w') = _ => fold (sub w') end.
  destruct (torn_down (p_applied env)).
  { autorewrite with quiet. now rewrite Hs1. }
  destruct (result (p_applied env)); autorewrite with quiet; now rewrite Hs1.
Qed.

Lemma normalizePositions_length lms :
  length (normalizePositions lms) = length lms.
Proof.
  unfold normalizePositions.
  destruct lms as [|lm rest]; [reflexivity|].
  destruct (running_min _); [|reflexivity].
  destruct (running_min _); [|reflexivity].
  destruct (_ && _); [reflexivity|apply length_map].
Qed.

Lemma normalizePositions_nonempty lms :
  lms <> [] -> normalizePositions lms <> [].
Proof.
  intros H E. apply H. apply length_zero_iff_nil.
  rewrite <- normalizePositions_length, E. reflexivity.
Qed.

Lemma finalize_candidate t lms L :
  finalize t lms = Candidate L ->
  keep_some (map (reresolve t) lms) <> [] /\
  L = normalizePositions (keep_some (map (reresolve t) lms)).
Proof.
  unfold finalize.
  destruct (keep_some (map (reresolve t) lms)) as [|lm rest];
    [discriminate|].
  intros H. inversion H. split; [discriminate|reflexivity].
Qed.

Lemma planLayout_candidate t xml L :
  plan t xml = Candidate L ->
  exists lms, branch_plan t xml = Candidate lms /\ finalize t lms = Candidate L.
Proof.
  unfold planLayout, branch_plan.
  destruct (if isActive t then _ else _) as [lms|r|r];
    try discriminate.
  intros H. now exists lms.
Qed.

(** C5. No layout with zero logical monitors is ever submitted, by the
    toggle or by make-primary. In particular the toggle submits nothing when
    disabling leaves no logical monitor, and nothing when the finalization's
    mode resolution empties the candidate of either branch. *)
Theorem never_submits_empty_layout t en :
  (forall env L, In L (submitted (effects (toggle env) t en)) -> L <> []) /\
  (forall target env L,
      In L (submitted (effects (_makePrimary target env) t en)) -> L <> []) /\
  (forall env,
      let t1 := tg (toggle_fetch env (start t en)) in
      isActive t1 = true ->
      keep_some (map (strip_connector (monitor t1)) (logicalMonitors t1)) = [] ->
      submitted (effects (toggle env) t en) = []) /\
  (forall env lms,
      let t1 := tg (toggle_fetch env (start t en)) in
      branch_plan t1 (xmlConf env) = Candidate lms ->
      keep_some (map (reresolve t1) lms) = [] ->
      submitted (effects (toggle env) t en) = []).
Proof.
  split; [|split; [|split]].
  - intros env L. rewrite submitted_toggle.
    destruct (negb (proxy t) || toggling t); [intros []|].
    unfold planned_submission.
    destruct (proxy _); [|intros []].
    destruct (plan _ _) as [L'|r|r] eqn:Ep; try (intros []; fail).
    intros [<-|[]].
    destruct (planLayout_candidate _ _ Ep) as [lms [_ Hf]].
    destruct (finalize_candidate _ _ Hf) as [Hne ->].
    now apply normalizePositions_nonempty.
  - intros target env L. rewrite submitted_makePrimary.
    destruct (negb (proxy t)); [intros []|].
    unfold primary_submission.
    destruct (proxy _); [|intros []].
    destruct (keep_some _) as [|lm rest] eqn:Ek; [intros []|].
    intros [<-|[]]. apply normalizePositions_nonempty. discriminate.
  - intros env t1 Hact Hempty. rewrite submitted_toggle.
    destruct (negb (proxy t) || toggling t); [reflexivity|].
    unfold planned_submission. fold t1.
    destruct (proxy t1); [|reflexivity].
    unfold planLayout, plan_disable. rewrite Hact, Hempty. reflexivity.
  - intros env lms t1 Hb Hempty. rewrite submitted_toggle.
    destruct (negb (proxy t) || toggling t); [reflexivity|].
    unfold planned_submission. fold t1.
    destruct (proxy t1); [|reflexivity].
    unfold planLayout. unfold branch_plan in Hb. rewrite Hb.
    unfold finalize. now rewrite Hempty.
Qed.

Lemma snap_emit level event w : snap (_emit level event w) = snap w.
Proof. unfold snap. now rewrite emit_tg. Qed.

Lemma snap_emit_event (e : Event Scale) w : snap (emit_event e w) = snap w.
Proof. reflexivity. Qed.

Lemma snap_with_tg t w : snap (with_tg t w) = snapshot t.
Proof. reflexivity. Qed.

Lemma snapshot_set_checked b t : snapshot (set_checked b t) = snapshot t.
Proof. reflexivity. Qed.

Lemma snapshot_set_toggling b t : snapshot (set_toggling b t) = snapshot t.
Proof. reflexivity. Qed.

Lemma snap_updateIndicator w : snap (_updateIndicatorVisibility w) = snap w.
Proof. unfold snap. now rewrite updateIndicator_tg. Qed.

Lemma snap_disableToggle reason w : snap (_disableToggle reason w) = snap w.
Proof.
  unfold _disableToggle, logError.
  destruct (proxy (tg w)); cbn [negb]; [|reflexivity]. now rewrite snap_emit.
Qed.

Lemma snap_resetTimeout prop delay w : snap (_resetTimeout prop delay w) = snap w.
Proof. reflexivity. Qed.

Lemma snap_scheduleConfigRefresh w : snap (_scheduleConfigRefresh w) = snap w.
Proof.
  unfold _scheduleConfigRefresh. now destruct (proxy (tg w)).
Qed.

#[local] Hint Rewrite snap_emit snap_emit_event snap_with_tg
  snapshot_set_checked snapshot_set_toggling snap_updateIndicator
  snap_disableToggle snap_resetTimeout snap_scheduleConfigRefresh : quiet.

(** Planning and submission never write the snapshot: after the toggle's
    fetch, only the re-fetch of an abort may. *)
Lemma snap_toggle_act env w :
  torn_down (refetched env) = false -> torn_down (applied env) = false ->
  overwrites (refetched env) = false ->
  snap (act env w) = snap w.
Proof.
  intros Hr Ha Ho.
  unfold toggle_act, logStep, logDebug, logInfo, logError.
  destruct (proxy (tg w)) eqn:Hp; simpl; [|reflexivity].
  set (w1 := if isActive (tg w) then _ else _).
  assert (snap w1 = snap w /\ tg w1 = tg w) as [Hs Ht].
  { subst w1. destruct (isActive (tg w)); [|destruct (hasSnapshot (tg w))];
      autorewrite with quiet registry; auto. }
  destruct (plan (tg w) (xmlConf env)) as [L|reason|reason].
  - autorewrite with registry. rewrite Ht, Hp, Ha. simpl.
    destruct (result (applied env)).
    + destruct (negb (isActive (tg w))); autorewrite with quiet; reflexivity.
    + autorewrite with quiet. exact Hs.
  - unfold snap. rewrite getMonitorConfig_snapshot; auto.
    fold (snap (_emit ERROR "toggle.action.abort" w1)).
    now rewrite snap_emit.
  - now rewrite snap_disableToggle.
Qed.

(** C8. A fetch overwrites the snapshot only under full coverage, that is
    when every known physical monitor's connector (there being at least one)
    appears in some logical monitor's assignments in the reply: every other
    fetch, failed ones included, leaves the snapshot exactly as it was. A
    toggle that disables the selected connector leaves the snapshot as its
    own fetch left it (planning and submission never write it), provided the
    re-fetch of an abort is not under full coverage either. The toggle is
    taken not to be destroyed while a call is pending. *)
Theorem snapshot_overwritten_only_under_full_coverage t en :
  (forall reply,
      torn_down reply = false ->
      (~ covering_reply reply ->
       snapshot (tg (_getMonitorConfig reply (start t en))) = snapshot t) /\
      (snapshot (tg (_getMonitorConfig reply (start t en))) <> snapshot t ->
       covering_reply reply)) /\
  (forall env,
      proxy t = true -> toggling t = false ->
      torn_down (fetched env) = false ->
      torn_down (refetched env) = false ->
      torn_down (applied env) = false ->
      let t1 := tg (toggle_fetch env (start t en)) in
      isActive t1 = true ->
      ~ covering_reply (refetched env) ->
      snapshot (tg (toggle env (start t en))) = snapshot t1).
Proof.
  split.
  - intros reply Htd.
    assert (overwrites reply = false ->
            snapshot (tg (_getMonitorConfig reply (start t en))) = snapshot t)
      as Hkeep by (intros Ho; now rewrite getMonitorConfig_snapshot).
    split.
    + intros Hnc. apply Hkeep.
      destruct (overwrites reply) eqn:Eo; [|reflexivity].
      exfalso. apply Hnc. now apply overwrites_iff.
    + intros Hchg.
      destruct (overwrites reply) eqn:Eo; [now apply overwrites_iff|].
      exfalso. apply Hchg. now apply Hkeep.
  - intros env Hp Htg Hf Hr Ha t1 _ Hnc.
    assert (overwrites (refetched env) = false) as Ho.
    { destruct (overwrites (refetched env)) eqn:Eo; [|reflexivity].
      exfalso. apply Hnc. now apply overwrites_iff. }
    unfold _toggleMonitor. simpl. rewrite Hp, Htg. simpl.
    unfold logInfo. rewrite emit_tg. simpl.
    change (snap (act env (toggle_fetch env (start t en))) = snapshot t1).
    now rewrite snap_toggle_act.
Qed.

(** *** Console lines *)

(** Flows only ever add effects, and never touch the logger's switch. *)
Lemma keeps_emit_event (e e' : Event Scale) w :
  In e (out w) -> In e (out (emit_event e' w)).
Proof. intros H. simpl. apply in_or_app. now left. Qed.

Lemma keeps_emit (e : Event Scale) level event w :
  In e (out w) -> In e (out (_emit level event w)).
Proof.
  unfold _emit. destruct (_enabled w); cbn [negb]; auto using keeps_emit_event.
Qed.

Lemma keeps_with_tg (e : Event Scale) t w :
  In e (out w) -> In e (out (with_tg t w)).
Proof. auto. Qed.

Lemma enabled_emit_event (e : Event Scale) w :
  _enabled (emit_event e w) = _enabled w.
Proof. reflexivity. Qed.

Lemma enabled_with_tg t w : _enabled (with_tg t w) = _enabled w.
Proof. reflexivity. Qed.

(** An enabled logger writes the line. *)
Lemma emit_writes level event w :
  _enabled w = true -> In (Console level event) (out (_emit level event w)).
Proof.
  intros H. unfold _emit. rewrite H. simpl. apply in_or_app. right. now left.
Qed.

Lemma keeps_updateIndicator (e : Event Scale) w :
  In e (out w) -> In e (out (_updateIndicatorVisibility w)).
Proof.
  unfold _updateIndicatorVisibility, logDebug.
  destruct (proxy (tg w)); cbn [negb]; auto.
  destruct (indicator (tg w)); auto using keeps_emit.
Qed.

Lemma enabled_updateIndicator w :
  _enabled (_updateIndicatorVisibility w) = _enabled w.
Proof.
  unfold _updateIndicatorVisibility, logDebug.
  destruct (proxy (tg w)); cbn [negb]; auto.
  destruct (indicator (tg w)); auto using emit_enabled.
Qed.

Lemma keeps_disableToggle (e : Event Scale) reason w :
  In e (out w) -> In e (out (_disableToggle reason w)).
Proof.
  unfold _disableToggle, logError.
  destruct (proxy (tg w)); cbn [negb]; auto using keeps_emit, keeps_with_tg.
Qed.

Lemma enabled_disableToggle reason w :
  _enabled (_disableToggle reason w) = _enabled w.
Proof.
  unfold _disableToggle, logError.
  destruct (proxy (tg w)); cbn [negb]; auto. now rewrite emit_enabled.
Qed.

Lemma disableToggle_writes reason w :
  proxy (tg w) = true -> _enabled w = true ->
  In (Console ERROR "toggle.disabled") (out (_disableToggle reason w)).
Proof.
  intros Hp He. unfold _disableToggle, logError. rewrite Hp. cbn [negb].
  now apply emit_writes.
Qed.

Lemma keeps_scheduleConfigRefresh (e : Event Scale) w :
  In e (out w) -> In e (out (_scheduleConfigRefresh w)).
Proof.
  unfold _scheduleConfigRefresh, _resetTimeout.
  destruct (proxy (tg w)); cbn [negb]; auto using keeps_emit_event.
Qed.

Lemma keeps_sync (e : Event Scale) w : In e (out w) -> In e (out (_sync w)).
Proof.
  unfold _sync, logDebug.
  destruct (proxy (tg w)); cbn [negb];
    auto using keeps_emit, keeps_updateIndicator, keeps_with_tg.
Qed.

Lemma keeps_destroy (e : Event Scale) w :
  In e (out w) -> In e (out (destroy w)).
Proof.
  unfold destroy, logInfo. auto using keeps_emit, keeps_with_tg.
Qed.

Lemma keeps_getMonitorConfig (e : Event Scale) reply w :
  In e (out w) -> In e (out (_getMonitorConfig reply w)).
Proof.
  intros H. unfold _getMonitorConfig, logStep, logDebug, logInfo, logError.
  destruct (proxy (tg w)); cbn [negb]; [|exact H].
  destruct (torn_down reply).
  { auto 10 using keeps_destroy, keeps_emit_event, keeps_emit. }
  destruct (result reply) as [s mons lms props|err].
  - apply keeps_emit, keeps_with_tg, keeps_sync.
    destruct (allActive mons (fixPrimaryFlags lms));
      auto 10 using keeps_emit, keeps_with_tg, keeps_emit_event.
  - auto 10 using keeps_disableToggle, keeps_emit, keeps_emit_event.
Qed.

(** A failed fetch on a live toggle writes its ERROR line. *)
Lemma getMonitorConfig_error_writes reply w err :
  proxy (tg w) = true -> _enabled w = true ->
  torn_down reply = false -> result reply = FetchError err ->
  In (Console ERROR "toggle.config.fetch.error")
     (out (_getMonitorConfig reply w)).
Proof.
  intros Hp He Htd Hres.
  unfold _getMonitorConfig, logStep, logDebug, logError.
  rewrite Hp, Htd, Hres. cbn [negb].
  apply keeps_disableToggle, emit_writes.
  now rewrite enabled_emit_event, emit_enabled.
Qed.

(** What a live fetch leaves of the proxy and of the logger's switch. *)
Lemma getMonitorConfig_alive reply w :
  torn_down reply = false ->
  proxy (tg (_getMonitorConfig reply w)) = proxy (tg w).
Proof.
  intros Htd. destruct (proxy (tg w)) eqn:Hp;
    [|now rewrite getMonitorConfig_dead].
  destruct (result reply) as [s mons lms props|err] eqn:Hres.
  - now rewrite (getMonitorConfig_ok_tg _ _ Hp Htd Hres).
  - now rewrite (getMonitorConfig_error_tg _ _ Hp Htd Hres).
Qed.

Lemma enabled_sync w : _enabled (_sync w) = _enabled w.
Proof.
  unfold _sync, logDebug. destruct (proxy (tg w)); cbn [negb]; auto.
  now rewrite emit_enabled, enabled_updateIndicator.
Qed.

Lemma enabled_destroy w : _enabled (destroy w) = _enabled w.
Proof. unfold destroy, logInfo. now rewrite emit_enabled, enabled_with_tg, emit_enabled. Qed.

Lemma enabled_getMonitorConfig reply w :
  _enabled (_getMonitorConfig reply w) = _enabled w.
Proof.
  unfold _getMonitorConfig, logStep, logDebug, logInfo, logError.
  destruct (proxy (tg w)); cbn [negb]; auto.
  destruct (torn_down reply).
  { now rewrite enabled_destroy, enabled_emit_event, emit_enabled. }
  destruct (result reply) as [s mons lms props|err].
  - rewrite emit_enabled, enabled_with_tg, enabled_sync.
    destruct (allActive mons (fixPrimaryFlags lms));
      rewrite ?emit_enabled, ?enabled_with_tg, ?emit_enabled,
        enabled_emit_event; apply emit_enabled.
  - now rewrite enabled_disableToggle, emit_enabled, enabled_emit_event,
      emit_enabled.
Qed.

Lemma keeps_toggle_act (e : Event Scale) env w :
  In e (out w) -> In e (out (act env w)).
Proof.
  intros H. unfold toggle_act, logStep, logDebug, logInfo, logError.
  destruct (proxy (tg w)); cbn [negb]; [|exact H].
  set (w1 := if isActive (tg w) then _ else _).
  assert (In e (out w1)) as H1.
  { subst w1. destruct (isActive (tg w)); [|destruct (hasSnapshot (tg w))];
      auto using keeps_emit. }
  destruct (plan (tg w) (xmlConf env)) as [L|reason|reason].
  - destruct (negb (proxy (tg (_emit DEBUG "step" w1))));
      [auto using keeps_emit|].
    destruct (torn_down (applied env)).
    { auto 10 using keeps_destroy, keeps_emit_event, keeps_emit. }
    destruct (result (applied env)).
    + destruct (negb (isActive (tg w)));
        unfold _resetTimeout;
        auto 10 using keeps_scheduleConfigRefresh, keeps_updateIndicator,
          keeps_with_tg, keeps_emit, keeps_emit_event.
    + auto 10 using keeps_scheduleConfigRefresh, keeps_disableToggle,
        keeps_emit, keeps_emit_event.
  - auto using keeps_getMonitorConfig, keeps_emit.
  - auto using keeps_disableToggle.
Qed.

(** The ERROR line each failing exit of [toggle_act] writes. *)
Lemma toggle_act_writes env w :
  proxy (tg w) = true -> _enabled w = true ->
  match plan (tg w) (xmlConf env) with
  | AbortRefetch _ =>
      In (Console ERROR "toggle.action.abort") (out (act env w))
  | Inert _ =>
      In (Console ERROR "toggle.disabled") (out (act env w))
  | Candidate _ =>
      torn_down (applied env) = false ->
      forall e, result (applied env) = ApplyError e ->
      In (Console ERROR "toggle.action.apply.error") (out (act env w))
  end.
Proof.
  intros Hp He.
  unfold toggle_act, logStep, logDebug, logInfo, logError.
  rewrite Hp. cbn [negb].
  set (w1 := if isActive (tg w) then _ else _).
  assert (tg w1 = tg w /\ _enabled w1 = true) as [Ht He1].
  { subst w1. destruct (isActive (tg w)); [|destruct (hasSnapshot (tg w))];
      rewrite ?emit_tg, ?emit_enabled; auto. }
  destruct (plan (tg w) (xmlConf env)) as [L|reason|reason].
  - intros Htd e Hres. rewrite emit_tg, Ht, Hp, Htd, Hres. cbn [negb].
    apply keeps_scheduleConfigRefresh, keeps_disableToggle, emit_writes.
    now rewrite enabled_emit_event, emit_enabled.
  - apply keeps_getMonitorConfig, emit_writes. exact He1.
  - apply disableToggle_writes; [now rewrite Ht|exact He1].
Qed.

Lemma toggle_fetch_alive env t en :
  proxy t = true -> torn_down (fetched env) = false ->
  proxy (tg (toggle_fetch env (start t en))) = true /\
  _enabled (toggle_fetch env (start t en)) = en.
Proof.
  intros Hp Htd. unfold toggle_fetch, logInfo. split.
  - rewrite getMonitorConfig_alive by exact Htd. now rewrite emit_tg.
  - now rewrite enabled_getMonitorConfig, emit_enabled.
Qed.

Lemma keeps_toggle_finally (e : Event Scale) env t en :
  proxy t = true -> toggling t = false ->
  In e (out (act env (toggle_fetch env (start t en)))) ->
  In e (effects (toggle env) t en).
Proof.
  intros Hp Htg H. unfold effects, _toggleMonitor, logInfo. simpl.
  rewrite Hp, Htg. cbn [negb orb]. now apply keeps_emit, keeps_with_tg.
Qed.

(** *** The logger switched off *)

(** ** The logger does not steer the flows *)

Lemma tg_mute w : tg (mute w) = tg w.
Proof. reflexivity. Qed.

Lemma calls_app (es1 es2 : list (Event Scale)) :
  calls (es1 ++ es2) = (calls es1 ++ calls es2)%list.
Proof. apply filter_app. Qed.

Lemma emit_mute level event w : _emit level event (mute w) = mute (_emit level event w).
Proof.
  unfold _emit, mute. simpl. destruct (_enabled w); simpl; [|reflexivity].
  now rewrite calls_app, app_nil_r.
Qed.

Lemma emit_event_mute (e : Event Scale) w :
  is_console e = false -> emit_event e (mute w) = mute (emit_event e w).
Proof.
  intros He. unfold emit_event, mute. simpl.
  rewrite calls_app. simpl. now rewrite He.
Qed.

Lemma fetch_call_mute w :
  emit_event GetCurrentState (mute w) = mute (emit_event GetCurrentState w).
Proof. now apply emit_event_mute. Qed.

Lemma submit_mute s m lms lp w :
  emit_event (ApplyMonitorsConfig s m lms lp) (mute w)
  = mute (emit_event (ApplyMonitorsConfig s m lms lp) w).
Proof. now apply emit_event_mute. Qed.

Lemma resetTimeout_mute prop delay w :
  _resetTimeout prop delay (mute w) = mute (_resetTimeout prop delay w).
Proof. now apply emit_event_mute. Qed.

Lemma with_tg_mute t w : with_tg t (mute w) = mute (with_tg t w).
Proof. reflexivity. Qed.

#[local] Hint Rewrite tg_mute emit_mute fetch_call_mute submit_mute
  resetTimeout_mute with_tg_mute : muted.

Ltac split_replies :=
  repeat match goal with
    | |- context [match ?r with FetchOk _ _ _ _ => _ | FetchError _ => _ end] =>
        destruct r eqn:?
    | |- context [match ?r with ApplyOk => _ | ApplyError _ => _ end] =>
        destruct r eqn:?
    | |- context [match ?r with
                  | Candidate _ => _ | AbortRefetch _ => _ | Inert _ => _
                  end] =>
        destruct r eqn:?
    end.

Ltac commute_mute w :=
  cbv zeta; change (tg (mute w)) with (tg w);
  unfold logStep, logDebug, logInfo, logError;
  split_replies;
  repeat (repeat progress autorewrite with muted registry;
          match goal with
          | |- context [if ?c then _ else _] =>
              lazymatch c with
              | context [mute] => fail
              | context [_emit] => fail
              | _ => destruct c eqn:?; cbn [negb andb orb]; cbv beta iota
              end
          end);
  repeat progress autorewrite with muted registry; try reflexivity.

Lemma updateIndicator_mute w :
  _updateIndicatorVisibility (mute w) = mute (_updateIndicatorVisibility w).
Proof. unfold _updateIndicatorVisibility. commute_mute w. Qed.
#[local] Hint Rewrite updateIndicator_mute : muted.

Lemma sync_mute w : _sync (mute w) = mute (_sync w).
Proof. unfold _sync. commute_mute w. Qed.
#[local] Hint Rewrite sync_mute : muted.

Lemma disableToggle_mute reason w :
  _disableToggle reason (mute w) = mute (_disableToggle reason w).
Proof. unfold _disableToggle. commute_mute w. Qed.
#[local] Hint Rewrite disableToggle_mute : muted.

Lemma destroy_mute w : destroy (mute w) = mute (destroy w).
Proof. unfold destroy. commute_mute w. Qed.
#[local] Hint Rewrite destroy_mute : muted.

Lemma scheduleConfigRefresh_mute w :
  _scheduleConfigRefresh (mute w) = mute (_scheduleConfigRefresh w).
Proof. unfold _scheduleConfigRefresh. commute_mute w. Qed.
#[local] Hint Rewrite scheduleConfigRefresh_mute : muted.

Lemma getMonitorConfig_mute reply w :
  _getMonitorConfig reply (mute w) = mute (_getMonitorConfig reply w).
Proof. unfold _getMonitorConfig. commute_mute w. Qed.
#[local] Hint Rewrite getMonitorConfig_mute : muted.

Lemma toggle_fetch_mute env w :
  toggle_fetch env (mute w) = mute (toggle_fetch env w).
Proof. unfold toggle_fetch. commute_mute w. Qed.
#[local] Hint Rewrite toggle_fetch_mute : muted.

Lemma toggle_act_mute env w : act env (mute w) = mute (act env w).
Proof.
  unfold toggle_act. cbv zeta. change (tg (mute w)) with (tg w).
  unfold logStep, logDebug, logInfo, logError.
  destruct (negb (proxy (tg w))) eqn:Hp; [reflexivity|].
  destruct (isActive (tg w)); cbn [negb];
    [|destruct (hasSnapshot (tg w))];
    (destruct (plan (tg w) (xmlConf env));
     [destruct (torn_down (applied env));
      [|destruct (result (applied env))]| |]);
    repeat progress autorewrite with muted registry;
    rewrite ?Hp; cbv beta iota;
    repeat progress autorewrite with muted registry; reflexivity.
Qed.
#[local] Hint Rewrite toggle_act_mute : muted.

Lemma toggle_mute env w : toggle env (mute w) = mute (toggle env w).
Proof. unfold _toggleMonitor. commute_mute w. Qed.

Lemma primary_fetch_mute env w :
  primary_fetch env (mute w) = mute (primary_fetch env w).
Proof. unfold primary_fetch. commute_mute w. Qed.
#[local] Hint Rewrite primary_fetch_mute : muted.

Lemma makePrimary_mute target env w :
  _makePrimary target env (mute w) = mute (_makePrimary target env w).
Proof. unfold _makePrimary. commute_mute w. Qed.

Lemma start_mute t : mute (start t true) = start t false.
Proof. reflexivity. Qed.

(** A muted world holds no console line. *)
Lemma muted_writes_nothing level event w :
  ~ In (Console level event) (out (mute w)).
Proof.
  unfold mute, calls. cbn [out]. intros H.
  apply filter_In in H. destruct H as [_ H]. discriminate.
Qed.

(** C9 (as amended). With debug logging enabled, and the toggle not
    destroyed while the failing call is pending, every error path of the
    toggle and make-primary flows writes at least one ERROR line: a failed
    fetch, alone or inside either flow; a planning abort of the toggle
    (aborted with a re-fetch, or made inert); a rejected submission of
    either flow; a timer callback that throws. With debug logging disabled
    a fetch, a toggle and a make-primary write no line at all, whatever the
    service answers, and the handler of a throwing timer callback adds
    nothing. *)
Theorem error_paths_log_only_when_enabled t :
  (proxy t = true ->
    (forall reply e,
        torn_down reply = false -> result reply = FetchError e ->
        In (Console ERROR "toggle.config.fetch.error")
           (effects (_getMonitorConfig reply) t true)) /\
    (forall env e,
        toggling t = false ->
        torn_down (fetched env) = false -> result (fetched env) = FetchError e ->
        In (Console ERROR "toggle.config.fetch.error")
           (effects (toggle env) t true)) /\
    (forall env reason,
        toggling t = false -> torn_down (fetched env) = false ->
        plan (tg (toggle_fetch env (start t true))) (xmlConf env)
          = AbortRefetch reason ->
        In (Console ERROR "toggle.action.abort") (effects (toggle env) t true)) /\
    (forall env reason,
        toggling t = false -> torn_down (fetched env) = false ->
        plan (tg (toggle_fetch env (start t true))) (xmlConf env)
          = Inert reason ->
        In (Console ERROR "toggle.disabled") (effects (toggle env) t true)) /\
    (forall env L e,
        toggling t = false -> torn_down (fetched env) = false ->
        plan (tg (toggle_fetch env (start t true))) (xmlConf env)
          = Candidate L ->
        torn_down (applied env) = false -> result (applied env) = ApplyError e ->
        In (Console ERROR "toggle.action.apply.error")
           (effects (toggle env) t true)) /\
    (forall target env e,
        torn_down (p_fetched env) = false ->
        result (p_fetched env) = FetchError e ->
        In (Console ERROR "toggle.config.fetch.error")
           (effects (_makePrimary target env) t true)) /\
    (forall target env L e,
        torn_down (p_fetched env) = false ->
        In L (primary_submission target (tg (primary_fetch env (start t true)))) ->
        torn_down (p_applied env) = false ->
        result (p_applied env) = ApplyError e ->
        In (Console ERROR "toggle.make_primary.apply.error")
           (effects (_makePrimary target env) t true)) /\
    (forall timeoutProp callback e w',
        callback (start t true) = Thrown e w' -> _enabled w' = true ->
        In (Console ERROR "toggle.timeout.callback.error")
           (out (timeout_fired timeoutProp callback (start t true))))) /\
  (forall level event,
      (forall reply,
          ~ In (Console level event)
               (effects (_getMonitorConfig reply) t false)) /\
      (forall env,
          ~ In (Console level event) (effects (toggle env) t false)) /\
      (forall target env,
          ~ In (Console level event)
               (effects (_makePrimary target env) t false)) /\
      (forall timeoutProp callback e w',
          callback (start t false) = Thrown e w' -> _enabled w' = false ->
          out (timeout_fired timeoutProp callback (start t false)) = out w')).
Proof.
  split.
  { intros Hp.
    split; [|split; [|split; [|split; [|split; [|split; [|split]]]]]].
    - intros reply e Htd Hres. unfold effects.
      eapply getMonitorConfig_error_writes; eauto.
    - intros env e Htg Htd Hres.
      apply keeps_toggle_finally; auto.
      apply keeps_toggle_act. unfold toggle_fetch, logInfo.
      eapply getMonitorConfig_error_writes; eauto;
        rewrite ?emit_tg, ?emit_enabled; auto.
    - intros env reason Htg Htd Hplan.
      apply keeps_toggle_finally; auto.
      destruct (@toggle_fetch_alive env t true Hp Htd) as [Hp1 He1].
      pose proof (@toggle_act_writes env _ Hp1 He1) as H.
      now rewrite Hplan in H.
    - intros env reason Htg Htd Hplan.
      apply keeps_toggle_finally; auto.
      destruct (@toggle_fetch_alive env t true Hp Htd) as [Hp1 He1].
      pose proof (@toggle_act_writes env _ Hp1 He1) as H.
      now rewrite Hplan in H.
    - intros env L e Htg Htd Hplan Hta Hres.
      apply keeps_toggle_finally; auto.
      destruct (@toggle_fetch_alive env t true Hp Htd) as [Hp1 He1].
      pose proof (@toggle_act_writes env _ Hp1 He1) as H.
      rewrite Hplan in H. eauto.
    - intros target env e Htd Hres.
      unfold effects, _makePrimary. simpl. rewrite Hp. cbn [negb].
      set (w1 := primary_fetch env (start t true)).
      assert (In (Console ERROR "toggle.config.fetch.error") (out w1)) as H1.
      { subst w1. unfold primary_fetch, logInfo.
        eapply getMonitorConfig_error_writes; eauto;
          rewrite ?emit_tg, ?emit_enabled; auto. }
      destruct (negb (proxy (tg w1))); [exact H1|].
      destruct (keep_some _); [exact H1|].
      unfold logStep, logDebug, logInfo, logError.
      destruct (negb (proxy (tg (_emit DEBUG "step" w1))));
        [auto using keeps_emit|].
      destruct (torn_down (p_applied env)).
      { auto 10 using keeps_destroy, keeps_emit_event, keeps_emit. }
      destruct (result (p_applied env));
        auto 10 using keeps_scheduleConfigRefresh, keeps_emit, keeps_emit_event.
    - intros target env L e Htd HL Hta Hres.
      unfold effects, _makePrimary. simpl. rewrite Hp. cbn [negb].
      set (w1 := primary_fetch env (start t true)) in *.
      assert (_enabled w1 = true) as He1.
      { subst w1. unfold primary_fetch, logInfo.
        now rewrite enabled_getMonitorConfig, emit_enabled. }
      unfold primary_submission in HL.
      destruct (proxy (tg w1)) eqn:Hp1; [|destruct HL]. cbn [negb].
      destruct (keep_some _); [destruct HL|].
      unfold logStep, logDebug, logInfo, logError.
      rewrite emit_tg, Hp1, Hta, Hres. cbn [negb].
      apply emit_writes. now rewrite enabled_emit_event, emit_enabled.
    - intros timeoutProp callback e w' Hcb He.
      unfold timeout_fired, logError. rewrite Hcb. now apply emit_writes. }
  intros level event.
  split; [|split; [|split]].
  - intros reply. unfold effects. rewrite <- start_mute.
    rewrite getMonitorConfig_mute. apply muted_writes_nothing.
  - intros env. unfold effects. rewrite <- start_mute.
    rewrite toggle_mute. apply muted_writes_nothing.
  - intros target env. unfold effects. rewrite <- start_mute.
    rewrite makePrimary_mute. apply muted_writes_nothing.
  - intros timeoutProp callback e w' Hcb He.
    unfold timeout_fired, logError, _emit. rewrite Hcb, He. reflexivity.
Qed.

(** *** Primary flags of the submitted layouts *)

Lemma reresolve_resolved t lm : resolved_entry t lm -> reresolve t lm = Some lm.
Proof.
  intros [c [id [Ha [Hpr [Hr Ht]]]]]. unfold reresolve, first_connector.
  rewrite Ha. simpl. rewrite Hr, Ht.
  destruct lm; simpl in *. now subst.
Qed.

Lemma reresolve_image t lm lm' :
  reresolve t lm = Some lm' ->
  resolved_entry t lm' /\ x lm' = x lm /\ y lm' = y lm /\
  scale lm' = scale lm /\ transform lm' = transform lm /\
  isPrimary lm' = isPrimary lm.
Proof.
  unfold reresolve.
  destruct (first_connector lm) as [c|] eqn:Ec;
    [|destruct (_resolveModeId t None); discriminate].
  destruct (_resolveModeId t (Some c)) as [id|] eqn:Er; [|discriminate].
  destruct (str_truthy id) eqn:Ht; [|discriminate].
  intros H. inversion H; subst; clear H. simpl.
  split; [|auto 10]. exists c, id. auto.
Qed.

Lemma keep_some_In (A B : Type) (f : A -> option B) l b :
  In b (keep_some (map f l)) <-> exists a, In a l /\ f a = Some b.
Proof.
  induction l as [|a l IH]; simpl.
  - split; [intros []|intros [a [[] _]]].
  - destruct (f a) as [b'|] eqn:E; simpl; rewrite IH; split.
    + intros [<-|[a' [Ha' Hf]]]; [exists a; auto|exists a'; auto].
    + intros [a' [[<-|Ha'] Hf]]; [left; congruence|right; exists a'; auto].
    + intros [a' [Ha' Hf]]. exists a'; auto.
    + intros [a' [[<-|Ha'] Hf]]; [congruence|exists a'; auto].
Qed.

Lemma keep_some_fixed (A : Type) (f : A -> option A) l :
  Forall (fun a => f a = Some a) l -> keep_some (map f l) = l.
Proof.
  induction 1 as [|a l Ha H IH]; simpl; [reflexivity|].
  now rewrite Ha, IH.
Qed.

Lemma finalize_resolved t lms :
  Forall (resolved_entry t) lms -> lms <> [] ->
  finalize t lms = Candidate (normalizePositions lms).
Proof.
  intros HF Hne. unfold finalize.
  rewrite keep_some_fixed.
  - destruct lms; [congruence|reflexivity].
  - eapply Forall_impl; [|exact HF]. apply reresolve_resolved.
Qed.

Lemma restore_from_snapshot_resolved t :
  Forall (resolved_entry t) (restore_from_snapshot t).
Proof.
  apply Forall_forall. intros lm Hin.
  apply keep_some_In in Hin. destruct Hin as [[conn s] [_ Hr]].
  unfold restore_entry in Hr.
  destruct (_resolveModeId t (Some conn)) as [id|] eqn:Er; [|discriminate].
  destruct (str_truthy id) eqn:Ht; [|discriminate]. simpl in Hr.
  destruct (existsb _ _); [|discriminate]. simpl in Hr.
  inversion Hr; subst. exists conn, id. auto.
Qed.

Lemma place_to_right_resolved t xml cand :
  place_to_right scale_one round_div t xml = Candidate cand ->
  Forall (resolved_entry t) cand.
Proof.
  unfold place_to_right.
  destruct (find_phys (monitors t) (monitor t)); [|discriminate].
  destruct (monitor t) as [mon|] eqn:Em; [|discriminate].
  destruct (_resolveModeId t (Some mon)) as [id|] eqn:Er; [|discriminate].
  destruct (str_truthy id) eqn:Ht; [|discriminate].
  intros H. inversion H; subst; clear H.
  apply Forall_app. split.
  - apply Forall_forall. intros lm Hin.
    apply keep_some_In in Hin. destruct Hin as [a [_ Ha]].
    now apply reresolve_image in Ha.
  - constructor; [|constructor]. exists mon, id. auto.
Qed.

Lemma resolved_set_isPrimary t b lm :
  resolved_entry t lm -> resolved_entry t (set_isPrimary b lm).
Proof. intros [c [id H]]. exists c, id. exact H. Qed.

Lemma fixPrimaryFlags_resolved t lms :
  Forall (resolved_entry t) lms -> Forall (resolved_entry t) (fixPrimaryFlags lms).
Proof.
  intros HF. pose proof (fixPrimaryFlags_entries lms) as H2.
  induction H2 as [|a b l1 l2 Hab H2 IH]; [constructor|].
  inversion HF; subst. constructor; [|auto].
  destruct Hab as [_ [_ [_ [_ [Has [Hpr _]]]]]].
  match goal with H : resolved_entry t a |- _ =>
    destruct H as [c [id [Ea [Ep Er]]]] end.
  exists c, id. rewrite Has, Hpr. auto.
Qed.

Lemma ensure_primary_resolved t lms :
  Forall (resolved_entry t) lms -> Forall (resolved_entry t) (ensure_primary lms).
Proof.
  intros HF. unfold ensure_primary.
  destruct (negb (existsb _ lms)); [|exact HF].
  destruct HF as [|lm rest H1 H2]; simpl; [constructor|].
  constructor; [now apply resolved_set_isPrimary|exact H2].
Qed.

Lemma primary_count_zero_iff lms :
  primary_count lms = 0%nat <-> existsb (@isPrimary Scale) lms = false.
Proof.
  unfold primary_count.
  induction lms as [|lm rest IH]; simpl; [split; reflexivity|].
  destruct (isPrimary lm); simpl; [split; discriminate|exact IH].
Qed.

Lemma ensure_primary_count lms :
  lms <> [] -> (primary_count lms <= 1)%nat ->
  primary_count (ensure_primary lms) = 1%nat.
Proof.
  intros Hne Hle. unfold ensure_primary.
  destruct (existsb (@isPrimary Scale) lms) eqn:E; simpl.
  - destruct (primary_count lms) as [|[|n]] eqn:Ec; try lia.
    apply primary_count_zero_iff in Ec. congruence.
  - apply primary_count_zero_iff in E.
    destruct lms as [|lm rest]; [congruence|].
    unfold primary_count in *. simpl in *.
    destruct (isPrimary lm); simpl in *; [discriminate|]. now rewrite E.
Qed.

Lemma ensure_primary_first lms :
  lms <> [] ->
  first_primary (ensure_primary lms)
  = match first_primary lms with
    | Some i => Some i
    | None => Some 0%nat
    end.
Proof.
  intros Hne. unfold ensure_primary.
  destruct (existsb (@isPrimary Scale) lms) eqn:E; simpl.
  - destruct (first_primary lms) eqn:Ef; [reflexivity|]. exfalso.
    clear Hne. induction lms as [|lm rest IH]; simpl in *; [discriminate|].
    destruct (isPrimary lm); simpl in *; [discriminate|].
    destruct (first_primary rest); [discriminate|]. auto.
  - destruct lms as [|lm rest]; [congruence|]. simpl in *.
    apply orb_false_iff in E. destruct E as [E1 E2]. rewrite E1.
    assert (first_primary rest = None) as ->; [|reflexivity].
    clear -E2. induction rest as [|l r IH]; simpl in *; [reflexivity|].
    apply orb_false_iff in E2. destruct E2 as [E2 E3]. rewrite E2.
    now rewrite IH.
Qed.

Lemma ensure_primary_length lms : length (ensure_primary lms) = length lms.
Proof.
  unfold ensure_primary. destruct (negb _); [|reflexivity].
  now destruct lms.
Qed.

Lemma normalizePositions_flags lms :
  map (@isPrimary Scale) (normalizePositions lms) = map (@isPrimary Scale) lms.
Proof.
  unfold normalizePositions.
  destruct lms as [|lm rest]; [reflexivity|].
  destruct (running_min _); [|reflexivity].
  destruct (running_min _); [|reflexivity].
  destruct (_ && _); [reflexivity|].
  rewrite map_map. reflexivity.
Qed.

Lemma primary_count_flags (l1 l2 : Layout Scale) :
  map (@isPrimary Scale) l1 = map (@isPrimary Scale) l2 ->
  primary_count l1 = primary_count l2 /\ first_primary l1 = first_primary l2.
Proof.
  unfold primary_count. revert l2.
  induction l1 as [|a l1 IH]; intros [|b l2] H; simpl in *;
    try discriminate; [auto|].
  inversion H as [[Hab Hrest]]. rewrite Hab.
  destruct (IH l2 Hrest) as [H1 H2].
  destruct (isPrimary b); simpl; rewrite ?H1, ?H2; auto.
Qed.

Lemma plan_enable_layout t xml L :
  isActive t = false -> plan t xml = Candidate L ->
  exists cand,
    placed t xml = Candidate cand /\ cand <> [] /\
    Forall (resolved_entry t) cand /\
    L = normalizePositions (ensure_primary (fixPrimaryFlags cand)).
Proof.
  intros Hact Hplan. unfold planLayout in Hplan. rewrite Hact in Hplan.
  unfold plan_enable in Hplan. fold (placed t xml) in Hplan.
  destruct (placed t xml) as [cand|r|r] eqn:Ep; try discriminate.
  assert (Forall (resolved_entry t) cand) as HF.
  { unfold placed in Ep. destruct (hasSnapshot t).
    - inversion Ep; subst. apply restore_from_snapshot_resolved.
    - eapply place_to_right_resolved; eauto. }
  assert (Forall (resolved_entry t) (ensure_primary (fixPrimaryFlags cand)))
    as HF' by now apply ensure_primary_resolved, fixPrimaryFlags_resolved.
  exists cand. split; [reflexivity|].
  destruct cand as [|c0 rest].
  { simpl in Hplan. discriminate. }
  split; [discriminate|]. split; [exact HF|].
  rewrite finalize_resolved in Hplan; auto.
  - now inversion Hplan.
  - intros E. apply (f_equal (@length _)) in E.
    rewrite ensure_primary_length in E.
    pose proof (fixPrimaryFlags_length (c0 :: rest)) as Hl.
    rewrite Hl in E. discriminate.
Qed.

(** Dropping entries while keeping the flags of the others. *)
Lemma keep_some_primary_count (f : LogicalMonitor Scale -> option (LogicalMonitor Scale)) lms :
  (forall a b, f a = Some b -> isPrimary b = isPrimary a) ->
  (primary_count (keep_some (map f lms)) <= primary_count lms)%nat /\
  (length (keep_some (map f lms)) <= length lms)%nat /\
  (length (keep_some (map f lms)) = length lms ->
   primary_count (keep_some (map f lms)) = primary_count lms).
Proof.
  intros Hf. unfold primary_count.
  induction lms as [|a rest [IH1 [IH2 IH3]]]; simpl; [auto|].
  destruct (f a) as [b|] eqn:E; simpl.
  - rewrite (Hf a b E). destruct (isPrimary a); simpl.
    + split; [lia|]. split; [lia|]. intros H. f_equal. apply IH3. lia.
    + split; [lia|]. split; [lia|]. intros H. apply IH3. lia.
  - destruct (isPrimary a); simpl; (split; [lia|]; split; [lia|]; intros H; lia).
Qed.

Lemma strip_connector_flag mon (a b : LogicalMonitor Scale) :
  strip_connector mon a = Some b -> isPrimary b = isPrimary a.
Proof.
  unfold strip_connector. destruct (filter _ _); [discriminate|].
  intros H. now inversion H.
Qed.

Lemma reresolve_flag t (a b : LogicalMonitor Scale) :
  reresolve t a = Some b -> isPrimary b = isPrimary a.
Proof. intros H. now apply reresolve_image in H. Qed.

Lemma single_to_origin_flags lms :
  map (@isPrimary Scale) (single_to_origin lms) = map (@isPrimary Scale) lms.
Proof. destruct lms as [|a [|b rest]]; reflexivity. Qed.

Lemma single_to_origin_length lms :
  length (single_to_origin lms) = length lms.
Proof. destruct lms as [|a [|b rest]]; reflexivity. Qed.

(** What the disable branch submits. *)
Lemma plan_disable_layout t xml L :
  isActive t = true -> plan t xml = Candidate L ->
  let stripped :=
    keep_some (map (strip_connector (monitor t)) (logicalMonitors t)) in
  stripped <> [] /\
  L = normalizePositions
        (keep_some (map (reresolve t)
                        (ensure_primary (single_to_origin stripped)))).
Proof.
  intros Hact Hplan stripped. unfold planLayout in Hplan.
  rewrite Hact in Hplan. unfold plan_disable in Hplan. fold stripped in Hplan.
  destruct stripped as [|s0 rest] eqn:Es; [discriminate|].
  split; [discriminate|].
  now apply finalize_candidate in Hplan.
Qed.

(** The registry never holds more than one primary: a fetch stores the
    repaired list, and nothing else writes it. *)
Lemma fetch_single_primary reply w :
  (primary_count (logicalMonitors (tg w)) <= 1)%nat ->
  (primary_count (logicalMonitors (tg (_getMonitorConfig reply w))) <= 1)%nat.
Proof.
  intros H.
  destruct (proxy (tg w)) eqn:Hp; [|now rewrite getMonitorConfig_dead].
  destruct (torn_down reply) eqn:Htd.
  - unfold _getMonitorConfig, destroy, logInfo, logStep, logDebug.
    rewrite Hp, Htd. cbn [negb]. rewrite emit_tg. simpl.
    unfold primary_count. simpl. lia.
  - destruct (result reply) as [s mons lms props|e] eqn:Hres.
    + rewrite (getMonitorConfig_ok_tg _ _ Hp Htd Hres). simpl.
      apply fixPrimaryFlags_count_le.
    + now rewrite (getMonitorConfig_error_tg _ _ Hp Htd Hres).
Qed.

Lemma resolveModeId_none t : _resolveModeId t None = None.
Proof. reflexivity. Qed.

Lemma retarget_primary_count t target lms :
  primary_count (keep_some (map (retarget t target) lms))
  = length (filter (fun lm => has_connector (Some target) lm
                     && opt_truthy (_resolveModeId t (first_connector lm))) lms).
Proof.
  unfold primary_count.
  induction lms as [|lm rest IH]; [reflexivity|].
  cbn [map keep_some filter]. unfold retarget at 1.
  destruct (first_connector lm) as [c|] eqn:Ec.
  - destruct (_resolveModeId t (Some c)) as [id|] eqn:Er; cbn [opt_truthy].
    + destruct (str_truthy id); cbn [keep_some filter isPrimary].
      * destruct (has_connector (Some target) lm); cbn [andb length];
          now rewrite IH.
      * now rewrite andb_false_r.
    + now rewrite andb_false_r.
  - rewrite resolveModeId_none. cbn [opt_truthy]. now rewrite andb_false_r.
Qed.

Lemma retarget_flags t target lms :
  map (@isPrimary Scale) (keep_some (map (retarget t target) lms))
  = map (has_connector (Some target)) (resolvable t lms).
Proof.
  unfold resolvable.
  induction lms as [|lm rest IH]; [reflexivity|].
  cbn [map keep_some filter]. unfold retarget at 1.
  destruct (first_connector lm) as [c|] eqn:Ec.
  - destruct (_resolveModeId t (Some c)) as [id|] eqn:Er; cbn [opt_truthy].
    + destruct (str_truthy id); cbn [keep_some map isPrimary]; now rewrite IH.
    + exact IH.
  - rewrite resolveModeId_none. cbn [opt_truthy]. exact IH.
Qed.

(** X24. A layout submitted by the toggle's enable branch holds exactly one
    primary entry: it has the entries of the restored or placed candidate,
    the first flagged entry of that candidate keeps the flag, and the first
    entry is promoted when none is flagged. A layout submitted by the
    disable branch holds at most one primary entry, and exactly one when
    finalization drops no logical monitor. A layout submitted by make-primary
    has one entry per current logical monitor that resolves a mode, in
    order, flagged exactly when that logical monitor holds the target
    connector. The registry is taken to hold at most one primary, as every
    fetch leaves it. *)
Theorem submitted_primary_flags t en :
  (primary_count (logicalMonitors t) <= 1)%nat ->
  (forall env L,
      In L (submitted (effects (toggle env) t en)) ->
      let t1 := tg (toggle_fetch env (start t en)) in
      (isActive t1 = false ->
       primary_count L = 1%nat /\
       exists cand,
         placed t1 (xmlConf env) = Candidate cand /\
         length L = length cand /\
         first_primary L = match first_primary cand with
                           | Some i => Some i
                           | None => Some 0%nat
                           end) /\
      (isActive t1 = true ->
       (primary_count L <= 1)%nat /\
       (length L = length (keep_some (map (strip_connector (monitor t1))
                                          (logicalMonitors t1))) ->
        primary_count L = 1%nat))) /\
  (forall target env L,
      In L (submitted (effects (_makePrimary target env) t en)) ->
      let t1 := tg (primary_fetch env (start t en)) in
      primary_count L = length (holders t1 target) /\
      map (@isPrimary Scale) L
      = map (has_connector (Some target))
            (resolvable t1 (logicalMonitors t1))).
Proof.
  intros Hinv. split.
  - intros env L HL t1. rewrite submitted_toggle in HL.
    destruct (negb (proxy t) || toggling t); [destruct HL|].
    unfold planned_submission in HL. fold t1 in HL.
    destruct (proxy t1); [|destruct HL].
    destruct (plan t1 (xmlConf env)) as [L'|r|r] eqn:Ep; try (destruct HL; fail).
    destruct HL as [<-|[]].
    split.
    + intros Hact.
      destruct (@plan_enable_layout _ _ _ Hact Ep) as [cand [Hpl [Hne [HF ->]]]].
      destruct (primary_count_flags _ _
                  (normalizePositions_flags
                     (ensure_primary (fixPrimaryFlags cand)))) as [-> Hfp].
      pose proof (fixPrimaryFlags_length cand) as Hlen.
      assert (fixPrimaryFlags cand <> []) as Hne'.
      { intros E. rewrite E in Hlen. destruct cand; [congruence|discriminate]. }
      split.
      * apply ensure_primary_count; [exact Hne'|apply fixPrimaryFlags_count_le].
      * exists cand. split; [exact Hpl|]. split.
        -- now rewrite normalizePositions_length, ensure_primary_length.
        -- rewrite Hfp, ensure_primary_first by exact Hne'.
           now rewrite fixPrimaryFlags_first_primary.
    + intros Hact.
      destruct (@plan_disable_layout _ _ _ Hact Ep) as [Hne ->].
      set (stripped := keep_some (map (strip_connector (monitor t1))
                                      (logicalMonitors t1))) in *.
      assert (primary_count (logicalMonitors t1) <= 1)%nat as Hinv1.
      { subst t1. unfold toggle_fetch, logInfo.
        apply fetch_single_primary. now rewrite emit_tg. }
      destruct (keep_some_primary_count
                  (strip_connector (monitor t1)) (logicalMonitors t1)
                  (@strip_connector_flag (monitor t1))) as [Hs1 _].
      fold stripped in Hs1.
      assert (primary_count (ensure_primary (single_to_origin stripped)) = 1%nat)
        as Hone.
      { apply ensure_primary_count.
        - intros E. apply (f_equal (@length _)) in E.
          rewrite single_to_origin_length in E.
          destruct stripped; [congruence|discriminate].
        - destruct (primary_count_flags _ _ (single_to_origin_flags stripped))
            as [-> _]. lia. }
      destruct (keep_some_primary_count (reresolve t1)
                  (ensure_primary (single_to_origin stripped))
                  (@reresolve_flag t1)) as [Hr1 [Hr2 Hr3]].
      destruct (primary_count_flags _ _
                  (normalizePositions_flags
                     (keep_some (map (reresolve t1)
                        (ensure_primary (single_to_origin stripped))))))
        as [-> _].
      split; [lia|].
      rewrite normalizePositions_length. intros Hlen.
      rewrite Hr3; [exact Hone|].
      now rewrite ensure_primary_length, single_to_origin_length.
  - intros target env L HL. rewrite submitted_makePrimary in HL.
    destruct (negb (proxy t)); [destruct HL|].
    unfold primary_submission in HL.
    set (t1 := tg (primary_fetch env (start t en))) in *.
    destruct (proxy t1); [|destruct HL].
    destruct (keep_some (map (retarget t1 target) (logicalMonitors t1)))
      as [|l0 rest] eqn:Ek; [destruct HL|].
    destruct HL as [<-|[]].
    split.
    + destruct (primary_count_flags _ _
                  (normalizePositions_flags (l0 :: rest))) as [-> _].
      rewrite <- Ek. apply retarget_primary_count.
    + rewrite normalizePositions_flags, <- Ek. apply retarget_flags.
Qed.

(** *** Enabling without a snapshot *)

Lemma right_edge_step_spec t acc lm :
  (right_edge_step round_div t acc lm = acc /\
   forall e, right_edge_of t lm e -> e <= acc) \/
  (right_edge_of t lm (right_edge_step round_div t acc lm) /\
   acc <= right_edge_step round_div t acc lm /\
   forall e, right_edge_of t lm e -> e <= right_edge_step round_div t acc lm).
Proof.
  unfold right_edge_step.
  assert ((forall e, right_edge_of t lm e -> False) ->
          forall e, right_edge_of t lm e -> e <= acc) as Hno
    by (intros H e He; exfalso; eauto).
  destruct (first_connector lm) as [c|] eqn:Ec.
  2:{ left. split; [reflexivity|]. apply Hno.
      intros e [c [phys [id [m [H _]]]]]. congruence. }
  simpl.
  destruct (find (fun p => String.eqb (connector p) c) (monitors t))
    as [phys|] eqn:Ephys.
  2:{ left. split; [reflexivity|]. apply Hno.
      intros e [c' [phys [id [m [H1 [H2 _]]]]]].
      assert (c' = c) by congruence; subst c'.
      apply find_first_such in H2. congruence. }
  destruct (_resolveModeId t (Some c)) as [id|] eqn:Er.
  2:{ left. split; [reflexivity|]. apply Hno.
      intros e [c' [phys' [id [m [H1 [_ [H3 _]]]]]]].
      assert (c' = c) by congruence; subst c'. congruence. }
  destruct (str_truthy id) eqn:Ht.
  2:{ left. split; [reflexivity|]. apply Hno.
      intros e [c' [phys' [id' [m [H1 [_ [H3 [H4 _]]]]]]]].
      assert (c' = c) by congruence; subst c'.
      assert (id' = id) by congruence; subst id'.
      apply str_truthy_iff in H4. congruence. }
  destruct (find (fun md => String.eqb (mode_id md) id) (modes phys))
    as [m|] eqn:Em.
  2:{ left. split; [reflexivity|]. apply Hno.
      intros e [c' [phys' [id' [m [H1 [H2 [H3 [_ [H5 _]]]]]]]]].
      assert (c' = c) by congruence; subst c'.
      assert (id' = id) by congruence; subst id'.
      apply find_first_such in H2.
      assert (phys' = phys) by congruence; subst phys'.
      apply find_first_such in H5. congruence. }
  assert (forall e, right_edge_of t lm e ->
                    e = x lm + round_div (mode_width m) (scale lm)) as Huniq.
  { intros e [c' [phys' [id' [m' [H1 [H2 [H3 [_ [H5 ->]]]]]]]]].
    assert (c' = c) by congruence; subst c'.
    assert (id' = id) by congruence; subst id'.
    apply find_first_such in H2.
    assert (phys' = phys) by congruence; subst phys'.
    apply find_first_such in H5.
    assert (m' = m) by congruence; now subst m'. }
  assert (right_edge_of t lm (x lm + round_div (mode_width m) (scale lm)))
    as Hedge.
  { exists c, phys, id, m.
    split; [exact Ec|]. split; [now apply find_first_such|].
    split; [exact Er|]. split; [now apply str_truthy_iff|].
    split; [now apply find_first_such|reflexivity]. }
  destruct (Z.max_spec acc (x lm + round_div (mode_width m) (scale lm)))
    as [[Hlt ->]|[Hle ->]].
  - right. split; [exact Hedge|]. split; [lia|].
    intros e He. rewrite (Huniq e He). lia.
  - left. split; [reflexivity|]. intros e He. rewrite (Huniq e He). lia.
Qed.

Lemma fold_right_edge_spec t lms acc :
  let r := fold_left (right_edge_step round_div t) lms acc in
  acc <= r /\
  (r = acc \/ exists lm, In lm lms /\ right_edge_of t lm r) /\
  (forall lm e, In lm lms -> right_edge_of t lm e -> e <= r).
Proof.
  revert acc.
  induction lms as [|lm rest IH]; intros acc; simpl.
  - split; [lia|]. split; [now left|]. intros lm e [].
  - destruct (IH (right_edge_step round_div t acc lm)) as [H1 [H2 H3]].
    destruct (right_edge_step_spec t acc lm) as [[Heq Hle]|[Hedge [Hge Hle]]].
    + rewrite Heq in *. split; [exact H1|]. split.
      * destruct H2 as [H2|[l [Hl He]]]; [now left|right; exists l; auto].
      * intros l e [<-|Hl] He; [|eauto]. specialize (Hle e He). lia.
    + split; [lia|]. split.
      * destruct H2 as [H2|[l [Hl He]]].
        -- right. exists lm. split; [now left|]. now rewrite H2.
        -- right. exists l; auto.
      * intros l e [<-|Hl] He; [|eauto]. specialize (Hle e He). lia.
Qed.

(** [maxRight] is the largest right edge of the current layout, and 0 when
    there is none or all are negative. *)
Lemma maxRight_spec t :
  0 <= maxRight round_div t /\
  (maxRight round_div t = 0 \/
   exists lm, In lm (logicalMonitors t) /\
              right_edge_of t lm (maxRight round_div t)) /\
  (forall lm e, In lm (logicalMonitors t) -> right_edge_of t lm e ->
                e <= maxRight round_div t).
Proof. apply fold_right_edge_spec. Qed.

Lemma demote_extras_app_plain first lms (n : LogicalMonitor Scale) :
  isPrimary n = false ->
  demote_extras first (lms ++ [n])%list = (demote_extras first lms ++ [n])%list.
Proof.
  intros Hn. revert first.
  induction lms as [|lm rest IH]; intros first; simpl.
  - now rewrite Hn.
  - destruct (isPrimary lm); now rewrite IH.
Qed.

Lemma filter_app_plain lms (n : LogicalMonitor Scale) :
  isPrimary n = false ->
  filter (@isPrimary Scale) (lms ++ [n])%list = filter (@isPrimary Scale) lms.
Proof.
  intros Hn. rewrite filter_app. simpl. rewrite Hn. apply app_nil_r.
Qed.

Lemma fixPrimaryFlags_app_plain lms (n : LogicalMonitor Scale) :
  isPrimary n = false ->
  fixPrimaryFlags (lms ++ [n])%list = (fixPrimaryFlags lms ++ [n])%list.
Proof.
  intros Hn. unfold fixPrimaryFlags. rewrite filter_app_plain by exact Hn.
  destruct (_ <=? _)%nat; [reflexivity|now apply demote_extras_app_plain].
Qed.

Lemma ensure_primary_app_plain lms (n : LogicalMonitor Scale) :
  isPrimary n = false ->
  ensure_primary (lms ++ [n])%list
  = (ensure_primary lms ++ [set_isPrimary (is_nil lms) n])%list.
Proof.
  intros Hn. unfold ensure_primary. rewrite existsb_app. simpl.
  rewrite Hn, !orb_false_r.
  destruct lms as [|lm rest]; [reflexivity|].
  assert (set_isPrimary false n = n) as Hid
    by (destruct n; simpl in *; now subst).
  cbn [is_nil]. rewrite Hid.
  destruct (existsb (@isPrimary Scale) (lm :: rest)); reflexivity.
Qed.

Lemma fixPrimaryFlags_is_nil lms :
  is_nil (fixPrimaryFlags lms) = is_nil lms.
Proof.
  pose proof (fixPrimaryFlags_length lms) as Hlen.
  destruct lms, (fixPrimaryFlags _); simpl in *; congruence.
Qed.

Lemma plan_fallback t xml mon phys modeId :
  isActive t = false -> hasSnapshot t = false ->
  monitor t = Some mon -> find_phys (monitors t) (Some mon) = Some phys ->
  _resolveModeId t (Some mon) = Some modeId -> str_truthy modeId = true ->
  plan t xml
  = Candidate (normalizePositions
                 (carried_over t ++ [placed_entry t xml mon modeId])%list).
Proof.
  intros Hact Hsnap Hmon Hphys Hres Htr.
  assert (placed t xml = Candidate
            (keep_some (map (reresolve t) (logicalMonitors t)) ++
             [ {| x := maxRight round_div t; y := 0;
                  scale := match xml with Some c => xc_scale c | None => scale_one end;
                  transform := match xml with Some c => xc_transform c | None => 0 end;
                  isPrimary := false;
                  assignments := single_assignment mon modeId;
                  properties := [] |} ])%list) as Hpl.
  { unfold placed, place_to_right. rewrite Hsnap, Hmon, Hphys, Hres, Htr.
    reflexivity. }
  pose proof (place_to_right_resolved t xml) as HF.
  unfold placed in Hpl. rewrite Hsnap in Hpl. specialize (HF _ Hpl).
  unfold planLayout, plan_enable. rewrite Hact, Hsnap, Hpl.
  rewrite fixPrimaryFlags_app_plain, ensure_primary_app_plain by reflexivity.
  rewrite fixPrimaryFlags_is_nil.
  apply fixPrimaryFlags_resolved, ensure_primary_resolved in HF.
  rewrite fixPrimaryFlags_app_plain, ensure_primary_app_plain in HF
    by reflexivity.
  rewrite fixPrimaryFlags_is_nil in HF.
  apply finalize_resolved; [exact HF|].
  intros E. apply app_eq_nil in E. destruct E as [_ E]. discriminate.
Qed.

Lemma carried_over_nil t :
  carried_over t = [] <->
  keep_some (map (reresolve t) (logicalMonitors t)) = [].
Proof.
  unfold carried_over.
  set (kept := keep_some (map (reresolve t) (logicalMonitors t))).
  pose proof (ensure_primary_length (fixPrimaryFlags kept)) as H1.
  pose proof (fixPrimaryFlags_length kept) as H2.
  split; intros E.
  - rewrite E in H1. simpl in H1. destruct kept; [reflexivity|].
    simpl in H2. lia.
  - rewrite E. reflexivity.
Qed.

Lemma maxRight_nil t : logicalMonitors t = [] -> maxRight round_div t = 0.
Proof. unfold maxRight. now intros ->. Qed.

Lemma placed_entry_alone t xml mon modeId :
  logicalMonitors t = [] -> isPrimary (placed_entry t xml mon modeId) = true.
Proof. unfold placed_entry. simpl. now intros ->. Qed.

(** C6 (as amended). In a state with no usable snapshot where the selected
    connector is inactive, known, and resolves a mode, the enable operation
    submits the position normalization of: the current logical monitors
    whose mode resolves, primary flags enforced, followed by an entry for
    the selected connector. That entry has y = 0 and x equal to the largest
    right edge x + Math.round(width / scale) over the current logical
    monitors whose mode resolves, or 0 when there is none (or none is
    positive). It is not primary when a current logical monitor is carried
    over, and it is promoted to primary when none is: in particular with no
    current logical monitors the layout is that single entry, at (0, 0),
    primary. *)
Theorem enable_without_snapshot_places_right t en env mon phys modeId :
  proxy t = true -> toggling t = false -> torn_down (fetched env) = false ->
  let t1 := tg (toggle_fetch env (start t en)) in
  isActive t1 = false -> hasSnapshot t1 = false ->
  monitor t1 = Some mon -> find_phys (monitors t1) (Some mon) = Some phys ->
  _resolveModeId t1 (Some mon) = Some modeId -> modeId <> "" ->
  let entry := placed_entry t1 (xmlConf env) mon modeId in
  submitted (effects (toggle env) t en)
  = [normalizePositions (carried_over t1 ++ [entry])%list] /\
  has_connector (Some mon) entry = true /\
  y entry = 0 /\
  0 <= x entry /\
  (x entry = 0 \/
   exists lm, In lm (logicalMonitors t1) /\ right_edge_of t1 lm (x entry)) /\
  (forall lm e, In lm (logicalMonitors t1) -> right_edge_of t1 lm e ->
                e <= x entry) /\
  (carried_over t1 <> [] -> isPrimary entry = false) /\
  (carried_over t1 = [] -> isPrimary entry = true) /\
  (logicalMonitors t1 = [] ->
   submitted (effects (toggle env) t en) = [[entry]] /\
   x entry = 0 /\ y entry = 0 /\ isPrimary entry = true).
Proof.
  intros Hp Htg Htd t1 Hact Hsnap Hmon Hphys Hres Hne entry.
  destruct (@toggle_fetch_alive env t en Hp Htd) as [Hp1 _]. fold t1 in Hp1.
  assert (str_truthy modeId = true) as Htr by now apply str_truthy_iff.
  assert (submitted (effects (toggle env) t en)
          = [normalizePositions (carried_over t1 ++ [entry])%list]) as Hsub.
  { rewrite submitted_toggle, Hp, Htg. cbn [negb orb].
    unfold planned_submission. fold t1. rewrite Hp1.
    unfold entry. erewrite plan_fallback; eauto. }
  destruct (maxRight_spec t1) as [M1 [M2 M3]].
  split; [exact Hsub|].
  split; [simpl; now rewrite String.eqb_refl|].
  split; [reflexivity|]. split; [exact M1|]. split; [exact M2|].
  split; [exact M3|].
  split; [|split].
  - intros Hco. unfold entry. simpl.
    destruct (keep_some (map (reresolve t1) (logicalMonitors t1))) eqn:Ek;
      [|reflexivity].
    exfalso. apply Hco. now apply carried_over_nil.
  - intros Hco. apply carried_over_nil in Hco. unfold entry. simpl.
    now rewrite Hco.
  - intros Hnil. rewrite Hsub.
    assert (carried_over t1 = []) as Hco
      by (apply carried_over_nil; now rewrite Hnil).
    assert (x entry = 0) as Hx by now apply maxRight_nil.
    assert (isPrimary entry = true) as Hpr by now apply placed_entry_alone.
    rewrite Hco. cbn [app].
    unfold normalizePositions, running_min. cbn [map fold_left min_step].
    rewrite Hx. change (y entry) with 0. cbn [Z.eqb andb]. auto.
Qed.

(** *** Disable, then enable from the snapshot *)

(** The registry fields a successful fetch leaves. *)
Lemma fetch_ok_fields reply w newSerial mons lms props :
  proxy (tg w) = true -> torn_down reply = false ->
  result reply = FetchOk newSerial mons lms props ->
  let t' := tg (_getMonitorConfig reply w) in
  proxy t' = true /\ toggling t' = toggling (tg w) /\
  monitors t' = mons /\ logicalMonitors t' = fixPrimaryFlags lms /\
  monitor t' = select_monitor (savedConnector (tg w)) mons (monitor (tg w)) /\
  snapshot t' = (if allActive mons (fixPrimaryFlags lms)
                 then take_snapshot mons (fixPrimaryFlags lms)
                 else snapshot (tg w)).
Proof.
  intros Hp Htd Hres t'. subst t'.
  rewrite (getMonitorConfig_ok_tg _ _ Hp Htd Hres). simpl. auto 10.
Qed.

Lemma disableToggle_fields reason w :
  let t' := tg (_disableToggle reason w) in
  proxy t' = proxy (tg w) /\ toggling t' = toggling (tg w) /\
  monitor t' = monitor (tg w) /\ snapshot t' = snapshot (tg w).
Proof.
  unfold _disableToggle, logError.
  destruct (proxy (tg w)) eqn:Hp; cbn [negb]; [|auto].
  rewrite emit_tg. simpl. auto.
Qed.

Lemma scheduleConfigRefresh_tg w : tg (_scheduleConfigRefresh w) = tg w.
Proof. unfold _scheduleConfigRefresh. now destruct (proxy (tg w)). Qed.

(** A toggle that reaches the submission on a live toggle changes only the
    flags shown to the user. *)
Lemma toggle_act_candidate_fields env w L :
  proxy (tg w) = true -> plan (tg w) (xmlConf env) = Candidate L ->
  torn_down (applied env) = false ->
  let t' := tg (act env w) in
  proxy t' = true /\ toggling t' = toggling (tg w) /\
  monitor t' = monitor (tg w) /\ snapshot t' = snapshot (tg w).
Proof.
  intros Hp Hplan Htd.
  unfold toggle_act, logStep, logDebug, logInfo, logError.
  rewrite Hp, Hplan. cbn [negb].
  set (w1 := if isActive (tg w) then _ else _).
  assert (tg w1 = tg w) as Ht.
  { subst w1. destruct (isActive (tg w)); [|destruct (hasSnapshot (tg w))];
      now rewrite ?emit_tg. }
  rewrite emit_tg, Ht, Hp, Htd. cbn [negb].
  destruct (result (applied env)).
  - set (w2 := _scheduleConfigRefresh _).
    assert (tg w2 = set_checked (negb (isActive (tg w))) (tg w)) as Ht2.
    { subst w2. rewrite scheduleConfigRefresh_tg, updateIndicator_tg.
      rewrite with_tg_tg, emit_tg, emit_event_tg, emit_tg. now rewrite Ht. }
    destruct (negb (isActive (tg w))); simpl; rewrite Ht2; simpl; auto.
  - rewrite scheduleConfigRefresh_tg.
    destruct (disableToggle_fields "apply-config-error"
                (_emit ERROR "toggle.action.apply.error"
                   (emit_event
                      (ApplyMonitorsConfig (serial (tg w)) (persistenceMode (tg w))
                         L (propertiesToApply (tg w)))
                      (_emit DEBUG "step" w1)))) as [H1 [H2 [H3 H4]]].
    cbv zeta in H1, H2, H3, H4.
    rewrite emit_tg, emit_event_tg, emit_tg, Ht in H1, H2, H3, H4.
    rewrite H1, H2, H3, H4. auto.
Qed.

(** A known monitor whose modes all carry a non-empty id resolves a mode. *)
Lemma resolve_truthy_of_modes t c phys :
  find_phys (monitors t) (Some c) = Some phys ->
  modes phys <> [] -> Forall (fun m => mode_id m <> "") (modes phys) ->
  exists id, _resolveModeId t (Some c) = Some id /\ str_truthy id = true.
Proof.
  intros Hphys Hne Hall. simpl in Hphys. apply find_first_such in Hphys.
  rewrite Forall_forall in Hall.
  pose proof (resolveModeId_coded t (Some c)) as H.
  inversion H as [conn Hu|c0 p id Hk Hrec Hus Hoff|c0 p m Hk Hno Hf
                  |c0 p m Hk Hno Hnc Hf|c0 p m rest Hk Hno Hnc Hnp Hm
                  |c0 p Hk Hno Hm]; subst.
  - exfalso. simpl in Hu. exact (first_such_not_none Hphys Hu).
  - exists id. split; [reflexivity|now apply str_truthy_iff].
  - pose proof (first_such_functional Hphys Hk); subst p.
    exists (mode_id m). split; [reflexivity|].
    apply str_truthy_iff, Hall. eapply first_such_in; eauto.
  - pose proof (first_such_functional Hphys Hk); subst p.
    exists (mode_id m). split; [reflexivity|].
    apply str_truthy_iff, Hall. eapply first_such_in; eauto.
  - pose proof (first_such_functional Hphys Hk); subst p.
    exists (mode_id m). split; [reflexivity|].
    apply str_truthy_iff, Hall. rewrite Hm. now left.
  - pose proof (first_such_functional Hphys Hk); subst p. congruence.
Qed.

(** A recorded, non-empty, still offered mode id is the one resolved. *)
Lemma resolve_snapshot_hit t c phys s id :
  find_phys (monitors t) (Some c) = Some phys ->
  snap_get c (snapshot t) = Some s -> s_modeId s = Some id ->
  id <> "" -> offers phys id ->
  _resolveModeId t (Some c) = Some id.
Proof.
  intros Hphys Hs Hid Hne Hoff.
  apply (@resolves_to_functional _ _ _ _ _ (resolveModeId_coded t (Some c))).
  simpl in Hphys. apply find_first_such in Hphys.
  eapply res_snapshot; eauto. now exists s.
Qed.

Lemma fixPrimaryFlags_pair (l1 l2 : LogicalMonitor Scale) :
  fixPrimaryFlags [l1; l2]
  = [l1; if isPrimary l1 && isPrimary l2 then set_isPrimary false l2 else l2].
Proof.
  unfold fixPrimaryFlags. simpl.
  destruct (isPrimary l1) eqn:E1, (isPrimary l2) eqn:E2; simpl;
    rewrite ?E1, ?E2; reflexivity.
Qed.

Lemma normalizePositions_id lms :
  minimum_is (@x Scale) lms 0 -> minimum_is (@y Scale) lms 0 ->
  normalizePositions lms = lms.
Proof.
  intros [[lx [Hlx Hx0]] Hxall] [[ly [Hly Hy0]] Hyall].
  unfold normalizePositions. destruct lms as [|l0 rest]; [reflexivity|].
  assert (map (@x Scale) (l0 :: rest) <> []) as HX by discriminate.
  assert (map (@y Scale) (l0 :: rest) <> []) as HY by discriminate.
  destruct (running_min_spec HX) as [mx [Hmx [Hinx Hmxall]]].
  destruct (running_min_spec HY) as [my [Hmy [Hiny Hmyall]]].
  rewrite Hmx, Hmy.
  apply in_map_iff in Hinx. destruct Hinx as [ax [Hax Hinx]].
  apply in_map_iff in Hiny. destruct Hiny as [ay [Hay Hiny]].
  assert (mx = 0) as ->.
  { pose proof (Hxall ax Hinx). pose proof (Hmxall (x lx) (in_map _ _ _ Hlx)).
    lia. }
  assert (my = 0) as ->.
  { pose proof (Hyall ay Hiny). pose proof (Hmyall (y ly) (in_map _ _ _ Hly)).
    lia. }
  reflexivity.
Qed.

Lemma has_connector_assignments c (a b : LogicalMonitor Scale) :
  assignments a = assignments b -> has_connector c a = has_connector c b.
Proof. unfold has_connector. now intros ->. Qed.

Lemma existsb_has_connector_fix c lms :
  existsb (has_connector c) (fixPrimaryFlags lms)
  = existsb (has_connector c) lms.
Proof.
  pose proof (fixPrimaryFlags_entries lms) as HF.
  induction HF as [|a b l1 l2 Hab HF IH]; simpl; [reflexivity|].
  destruct Hab as [_ [_ [_ [_ [Has _]]]]].
  now rewrite IH, (has_connector_assignments c b a Has).
Qed.

Lemma find_phys_in (mons : list PhysicalMonitor) c phys :
  find_phys mons (Some c) = Some phys -> In phys mons /\ connector phys = c.
Proof.
  simpl. intros H. apply find_some in H. destruct H as [H1 H2].
  split; [exact H1|now apply String.eqb_eq].
Qed.

Lemma find_phys_known (mons : list PhysicalMonitor) c phys :
  find_phys mons (Some c) = Some phys ->
  existsb (fun p => String.eqb (connector p) c) mons = true.
Proof.
  intros H. apply find_phys_in in H. destruct H as [H1 H2].
  apply existsb_exists. exists phys. split; [exact H1|].
  now apply String.eqb_eq.
Qed.

(** The snapshot of a two-monitor layout, one connector each. *)
Lemma take_snapshot_pair (mons : list PhysicalMonitor)
      (f1 f2 : LogicalMonitor Scale) a1 a2 :
  assignments f1 = [a1] -> assignments f2 = [a2] ->
  a_connector a1 <> a_connector a2 ->
  take_snapshot mons [f1; f2]
  = [(a_connector a1, snapshot_entry mons f1 (a_connector a1));
     (a_connector a2, snapshot_entry mons f2 (a_connector a2))].
Proof.
  intros H1 H2 Hne. unfold take_snapshot. simpl. rewrite H1, H2. simpl.
  apply String.eqb_neq in Hne. now rewrite Hne.
Qed.

Lemma select_monitor_kept saved (mons : list PhysicalMonitor) A :
  A <> "" -> select_monitor saved mons (Some A) = Some A.
Proof.
  intros HA. unfold select_monitor. simpl.
  apply str_truthy_iff in HA. now rewrite HA.
Qed.

Lemma not_allActive_without (mons : list PhysicalMonitor) lms A phys :
  find_phys mons (Some A) = Some phys ->
  existsb (has_connector (Some A)) lms = false ->
  allActive mons (fixPrimaryFlags lms) = false.
Proof.
  intros Hphys Hoff.
  destruct (allActive mons (fixPrimaryFlags lms)) eqn:E; [|reflexivity].
  exfalso. apply allActive_iff in E. destruct E as [_ Hfull].
  apply find_phys_in in Hphys. destruct Hphys as [Hin Hc].
  destruct (Hfull phys Hin) as [lm [a [Hlm [Ha Hac]]]].
  assert (existsb (has_connector (Some A)) (fixPrimaryFlags lms) = true) as Hex.
  { apply existsb_exists. exists lm. split; [exact Hlm|].
    apply has_connector_iff. exists a. split; [exact Ha|congruence]. }
  rewrite existsb_has_connector_fix in Hex. congruence.
Qed.

(** Enabling from a two-entry snapshot with a single primary and
    normalised positions submits the snapshot's layout, entry by entry. *)
Lemma enable_from_pair_snapshot t' en env2 A c1 c2 s1 s2
      ser2 mons2 lms2 props2 p1 p2 :
  proxy t' = true -> toggling t' = false ->
  monitor t' = Some A -> A <> "" ->
  snapshot t' = [(c1, s1); (c2, s2)] -> c1 <> c2 -> (A = c1 \/ A = c2) ->
  fetched env2 = {| result := FetchOk ser2 mons2 lms2 props2;
                    torn_down := false |} ->
  existsb (has_connector (Some A)) lms2 = false ->
  find_phys mons2 (Some c1) = Some p1 ->
  find_phys mons2 (Some c2) = Some p2 ->
  (forall t2 c, monitors t2 = mons2 -> snapshot t2 = [(c1, s1); (c2, s2)] ->
                c = c1 \/ c = c2 ->
                exists id, _resolveModeId t2 (Some c) = Some id /\
                           str_truthy id = true) ->
  xorb (s_isPrimary s1) (s_isPrimary s2) = true ->
  Z.min (s_x s1) (s_x s2) = 0 -> Z.min (s_y s1) (s_y s2) = 0 ->
  exists id1 id2,
    submitted (effects (toggle env2) t' en)
    = [[restored c1 s1 id1; restored c2 s2 id2]].
Proof.
  intros Hp Htg Hmon HA Hsnap Hc HAc Hf Hoff Hp1 Hp2 Hr Hxor Hx Hy.
  rewrite submitted_toggle, Hp, Htg. cbn [negb orb].
  set (w := logInfo "toggle.action.start"
              (with_tg (set_toggling true t') (start t' en))).
  assert (tg w = set_toggling true t') as Htw
    by (subst w; unfold logInfo; now rewrite emit_tg).
  assert (proxy (tg w) = true) as Hpw by (rewrite Htw; exact Hp).
  assert (torn_down (fetched env2) = false) as Htd by now rewrite Hf.
  assert (result (fetched env2) = FetchOk ser2 mons2 lms2 props2) as Hres
    by now rewrite Hf.
  destruct (@fetch_ok_fields (fetched env2) w _ _ _ _ Hpw Htd Hres)
    as [F1 [F2 [F3 [F4 [F5 F6]]]]].
  change (_getMonitorConfig (fetched env2) w)
    with (toggle_fetch env2 (start t' en)) in F1, F2, F3, F4, F5, F6.
  set (t2 := tg (toggle_fetch env2 (start t' en))) in *.
  rewrite Htw in F5, F6. simpl in F5, F6.
  rewrite Hmon, select_monitor_kept in F5 by exact HA.
  assert (find_phys mons2 (Some A) <> None) as HAknown
    by (destruct HAc; subst; congruence).
  destruct (find_phys mons2 (Some A)) as [pA|] eqn:EpA; [|congruence].
  rewrite (@not_allActive_without _ _ _ _ EpA Hoff), Hsnap in F6.
  destruct (Hr t2 c1 F3 F6 (or_introl eq_refl)) as [id1 [Hr1 Hi1]].
  destruct (Hr t2 c2 F3 F6 (or_intror eq_refl)) as [id2 [Hr2 Hi2]].
  exists id1, id2.
  assert (isActive t2 = false) as Hact.
  { unfold isActive. rewrite F5, F4. now rewrite existsb_has_connector_fix. }
  assert (hasSnapshot t2 = true) as Hhas.
  { unfold hasSnapshot. rewrite F5, F6. simpl.
    destruct HAc as [->| ->].
    - now rewrite String.eqb_refl.
    - apply String.eqb_neq in Hc. now rewrite Hc, String.eqb_refl. }
  assert (restore_from_snapshot t2
          = [restored c1 s1 id1; restored c2 s2 id2]) as Hrest.
  { unfold restore_from_snapshot. rewrite F6. simpl.
    rewrite Hr1, Hr2, Hi1, Hi2, F3. simpl.
    now rewrite (@find_phys_known _ _ _ Hp1), (@find_phys_known _ _ _ Hp2). }
  assert (Forall (resolved_entry t2) [restored c1 s1 id1; restored c2 s2 id2])
    as HF by (rewrite <- Hrest; apply restore_from_snapshot_resolved).
  assert (ensure_primary (fixPrimaryFlags
            [restored c1 s1 id1; restored c2 s2 id2])
          = [restored c1 s1 id1; restored c2 s2 id2]) as Hflags.
  { rewrite fixPrimaryFlags_pair. unfold ensure_primary. simpl.
    destruct (s_isPrimary s1) eqn:E1, (s_isPrimary s2) eqn:E2;
      simpl in *; rewrite ?E1, ?E2; simpl; try discriminate; reflexivity. }
  unfold planned_submission. rewrite F1.
  unfold planLayout, plan_enable. rewrite Hact, Hhas, Hrest, Hflags.
  rewrite finalize_resolved by (exact HF || discriminate).
  rewrite normalizePositions_id; [reflexivity| |].
  - split.
    + destruct (Z.min_spec (s_x s1) (s_x s2)) as [[_ E]|[_ E]];
        rewrite Hx in E.
      * exists (restored c1 s1 id1). split; [now left|now simpl].
      * exists (restored c2 s2 id2). split; [right; now left|now simpl].
    + intros lm [<-|[<-|[]]]; simpl; lia.
  - split.
    + destruct (Z.min_spec (s_y s1) (s_y s2)) as [[_ E]|[_ E]];
        rewrite Hy in E.
      * exists (restored c1 s1 id1). split; [now left|now simpl].
      * exists (restored c2 s2 id2). split; [right; now left|now simpl].
    + intros lm [<-|[<-|[]]]; simpl; lia.
Qed.

Lemma toggle_tg env t en :
  proxy t = true -> toggling t = false ->
  tg (toggle env (start t en))
  = set_toggling false (tg (act env (toggle_fetch env (start t en)))).
Proof.
  intros Hp Htg. unfold _toggleMonitor, logInfo. simpl.
  rewrite Hp, Htg. cbn [negb orb]. now rewrite emit_tg.
Qed.

Lemma normalizePositions_assignments lms :
  map (@assignments Scale) (normalizePositions lms)
  = map (@assignments Scale) lms.
Proof.
  unfold normalizePositions.
  destruct lms as [|lm rest]; [reflexivity|].
  destruct (running_min _); [|reflexivity].
  destruct (running_min _); [|reflexivity].
  destruct (_ && _); [reflexivity|].
  rewrite map_map. reflexivity.
Qed.

Lemma existsb_has_connector_assignments c (l1 l2 : Layout Scale) :
  map (@assignments Scale) l1 = map (@assignments Scale) l2 ->
  existsb (has_connector c) l1 = existsb (has_connector c) l2.
Proof.
  revert l2. induction l1 as [|a l1 IH]; intros [|b l2] H; simpl in *;
    try discriminate; [reflexivity|].
  inversion H as [[Hab Hrest]].
  now rewrite (IH l2 Hrest), (has_connector_assignments c a b Hab).
Qed.

(** Disabling one of two single-connector logical monitors whose other
    connector resolves a mode submits a one-monitor layout without the
    selected connector, and leaves the snapshot this very fetch took. *)
Lemma disable_of_pair t en env1 A ser1 mons (l1 l2 : LogicalMonitor Scale)
      props1 a1 a2 p1 p2 :
  proxy t = true -> toggling t = false ->
  monitor t = Some A -> A <> "" ->
  fetched env1 = {| result := FetchOk ser1 mons [l1; l2] props1;
                    torn_down := false |} ->
  torn_down (applied env1) = false ->
  (forall p, In p mons ->
             connector p = a_connector a1 \/ connector p = a_connector a2) ->
  assignments l1 = [a1] -> assignments l2 = [a2] ->
  a_connector a1 <> a_connector a2 ->
  (A = a_connector a1 \/ A = a_connector a2) ->
  find_phys mons (Some (a_connector a1)) = Some p1 ->
  find_phys mons (Some (a_connector a2)) = Some p2 ->
  (forall t1 c, monitors t1 = mons -> c = a_connector a1 \/ c = a_connector a2 ->
                c <> A ->
                exists id, _resolveModeId t1 (Some c) = Some id /\
                           str_truthy id = true) ->
  let f2 := if isPrimary l1 && isPrimary l2 then set_isPrimary false l2 else l2 in
  let t' := tg (toggle env1 (start t en)) in
  proxy t' = true /\ toggling t' = false /\ monitor t' = Some A /\
  snapshot t' = [(a_connector a1, snapshot_entry mons l1 (a_connector a1));
                 (a_connector a2, snapshot_entry mons f2 (a_connector a2))] /\
  exists L1, submitted (effects (toggle env1) t en) = [L1] /\
             existsb (has_connector (Some A)) L1 = false.
Proof.
  intros Hp Htg Hmon HA Hf Hta Hcov Ha1 Ha2 Hc HAc Hp1 Hp2 Hres f2 t'.
  set (w := logInfo "toggle.action.start"
              (with_tg (set_toggling true t) (start t en))).
  assert (tg w = set_toggling true t) as Htw
    by (subst w; unfold logInfo; now rewrite emit_tg).
  assert (proxy (tg w) = true) as Hpw by (rewrite Htw; exact Hp).
  assert (torn_down (fetched env1) = false) as Htd by now rewrite Hf.
  assert (result (fetched env1) = FetchOk ser1 mons [l1; l2] props1) as Hr
    by now rewrite Hf.
  destruct (@fetch_ok_fields (fetched env1) w _ _ _ _ Hpw Htd Hr)
    as [F1 [F2 [F3 [F4 [F5 F6]]]]].
  change (_getMonitorConfig (fetched env1) w)
    with (toggle_fetch env1 (start t en)) in F1, F2, F3, F4, F5, F6.
  set (t1 := tg (toggle_fetch env1 (start t en))) in *.
  rewrite Htw in F5, F6. simpl in F5, F6.
  rewrite Hmon, select_monitor_kept in F5 by exact HA.
  rewrite fixPrimaryFlags_pair in F4, F6. fold f2 in F4, F6.
  assert (assignments f2 = [a2]) as Ha2'
    by (subst f2; destruct (isPrimary l1 && isPrimary l2); exact Ha2).
  assert (allActive mons [l1; f2] = true) as Hall.
  { apply allActive_iff. apply find_phys_in in Hp1. destruct Hp1 as [Hin1 _].
    split; [intros E; rewrite E in Hin1; destruct Hin1|].
    intros p Hin. destruct (Hcov p Hin) as [E|E].
    - exists l1, a1. rewrite Ha1. simpl. auto.
    - exists f2, a2. rewrite Ha2'. simpl. auto. }
  rewrite Hall, (take_snapshot_pair mons l1 f2 Ha1 Ha2' Hc) in F6.
  (* the layout planned by the disable branch *)
  assert (isActive t1 = true) as Hact.
  { unfold isActive. rewrite F5, F4. simpl. rewrite Ha1, Ha2'. simpl.
    destruct HAc as [->| ->]; rewrite String.eqb_refl; simpl;
      now rewrite ?orb_true_r. }
  assert (exists L1, plan t1 (xmlConf env1) = Candidate L1 /\
                     existsb (has_connector (Some A)) L1 = false)
    as [L1 [Hplan Hno]].
  { assert (forall (f : LogicalMonitor Scale) a,
              assignments f = [a] -> a_connector a <> A ->
              (a_connector a = a_connector a1 \/ a_connector a = a_connector a2) ->
              exists L1,
                finalize t1 (ensure_primary (single_to_origin
                  [ {| x := x f; y := y f; scale := scale f;
                       transform := transform f; isPrimary := isPrimary f;
                       assignments := [a]; properties := properties f |} ]))
                = Candidate L1 /\
                existsb (has_connector (Some A)) L1 = false) as Hfin.
    { intros f a Hfa Hne Hor.
      destruct (Hres t1 (a_connector a) F3 Hor Hne) as [id [Hid Htr]].
      unfold finalize, ensure_primary, single_to_origin, reresolve,
        first_connector.
      cbn [existsb isPrimary set_position orb promote_first].
      destruct (negb (isPrimary f || false));
        cbn [map set_isPrimary set_position assignments]; rewrite Hid, Htr;
        cbn [keep_some]; eexists; (split; [reflexivity|]);
        rewrite (existsb_has_connector_assignments _ _ _
                   (normalizePositions_assignments _));
        simpl; apply String.eqb_neq in Hne; now rewrite Hne. }
    unfold planLayout, plan_disable. rewrite Hact, F5, F4.
    cbn [map keep_some]. unfold strip_connector. rewrite Ha1, Ha2'.
    cbn [filter assigned_to].
    destruct HAc as [EA|EA].
    - assert (a_connector a2 <> A) as Hne by congruence.
      rewrite <- EA, String.eqb_refl. cbn [negb keep_some].
      apply String.eqb_neq in Hne. rewrite Hne. cbn [negb keep_some].
      apply String.eqb_neq in Hne.
      destruct (Hfin f2 a2 Ha2' Hne (or_intror eq_refl)) as [L1 [H1 H2]].
      exists L1. split; [|exact H2]. exact H1.
    - assert (a_connector a1 <> A) as Hne by congruence.
      rewrite <- EA, String.eqb_refl. cbn [negb keep_some].
      apply String.eqb_neq in Hne. rewrite Hne. cbn [negb keep_some].
      apply String.eqb_neq in Hne.
      destruct (Hfin l1 a1 Ha1 Hne (or_introl eq_refl)) as [L1 [H1 H2]].
      exists L1. split; [|exact H2]. exact H1. }
  destruct (@toggle_act_candidate_fields env1 (toggle_fetch env1 (start t en))
              L1 F1 Hplan Hta) as [G1 [G2 [G3 G4]]].
  subst t'. rewrite (@toggle_tg env1 t en Hp Htg). simpl.
  rewrite G1, G3, G4. fold t1. rewrite F5, F6.
  split; [reflexivity|]. split; [reflexivity|]. split; [reflexivity|].
  split; [reflexivity|].
  exists L1. split; [|exact Hno].
  rewrite submitted_toggle, Hp, Htg. cbn [negb orb].
  unfold planned_submission. fold t1. now rewrite F1, Hplan.
Qed.

Lemma snapshot_entry_fields (mons : list PhysicalMonitor)
      (lm : LogicalMonitor Scale) c :
  let e := snapshot_entry mons lm c in
  s_x e = x lm /\ s_y e = y lm /\ s_scale e = scale lm /\
  s_transform e = transform lm /\ s_isPrimary e = isPrimary lm.
Proof. simpl. auto. Qed.

Lemma snapshot_entry_mode (mons : list PhysicalMonitor)
      (lm : LogicalMonitor Scale) c phys m :
  find_phys mons (Some c) = Some phys ->
  first_such is_current (modes phys) m ->
  s_modeId (snapshot_entry mons lm c) = Some (mode_id m).
Proof.
  intros Hphys Hm. unfold snapshot_entry. rewrite Hphys.
  apply find_first_such in Hm. now rewrite Hm.
Qed.

(** C1 (as amended). Take two connectors A and B, each the single
    assignment of its own logical monitor (no mirroring), reported under full
    coverage with at least one primary flag and positions whose least x and
    least y are 0, A having a current mode with a non-empty id and B having
    modes with non-empty ids. The toggle controlling A first disables A, then,
    on a later fetch that reports A inactive, A's recorded mode id still
    offered and B still known with such modes, enables A again: the layout it
    submits holds a logical monitor for A whose x, y, scale, transform and
    primary flag are exactly those the snapshot records for A. *)
Theorem disable_then_enable_restores_snapshot
        t en env1 env2 A B ser1 mons (l1 l2 : LogicalMonitor Scale) props1
        a1 a2 pA pB mA ser2 mons2 lms2 props2 pA2 pB2 :
  proxy t = true -> toggling t = false ->
  monitor t = Some A -> A <> "" -> A <> B ->
  fetched env1 = {| result := FetchOk ser1 mons [l1; l2] props1;
                    torn_down := false |} ->
  torn_down (applied env1) = false ->
  (forall p, In p mons -> connector p = A \/ connector p = B) ->
  assignments l1 = [a1] -> assignments l2 = [a2] ->
  ((a_connector a1 = A /\ a_connector a2 = B) \/
   (a_connector a1 = B /\ a_connector a2 = A)) ->
  find_phys mons (Some A) = Some pA -> find_phys mons (Some B) = Some pB ->
  first_such is_current (modes pA) mA -> mode_id mA <> "" ->
  modes pB <> [] -> Forall (fun m => mode_id m <> "") (modes pB) ->
  (isPrimary l1 = true \/ isPrimary l2 = true) ->
  Z.min (x l1) (x l2) = 0 -> Z.min (y l1) (y l2) = 0 ->
  fetched env2 = {| result := FetchOk ser2 mons2 lms2 props2;
                    torn_down := false |} ->
  existsb (has_connector (Some A)) lms2 = false ->
  find_phys mons2 (Some A) = Some pA2 -> offers pA2 (mode_id mA) ->
  find_phys mons2 (Some B) = Some pB2 ->
  modes pB2 <> [] -> Forall (fun m => mode_id m <> "") (modes pB2) ->
  let w1 := toggle env1 (start t en) in
  (exists L1, submitted (effects (toggle env1) t en) = [L1] /\
              existsb (has_connector (Some A)) L1 = false) /\
  exists sA L lm,
    snap_get A (snapshot (tg w1)) = Some sA /\
    s_modeId sA = Some (mode_id mA) /\
    submitted (effects (toggle env2) (tg w1) en) = [L] /\
    In lm L /\ has_connector (Some A) lm = true /\
    x lm = s_x sA /\ y lm = s_y sA /\ scale lm = s_scale sA /\
    transform lm = s_transform sA /\ isPrimary lm = s_isPrimary sA.
Proof.
  intros Hp Htg Hmon HA HAB Hf1 Hta1 Hcov Ha1 Ha2 Hord HpA HpB HmA HidA
         HmB HallB Hprim Hx Hy Hf2 Hoff HpA2 HoffA HpB2 HmB2 HallB2 w1.
  set (f2 := if isPrimary l1 && isPrimary l2 then set_isPrimary false l2 else l2).
  assert (x f2 = x l2 /\ y f2 = y l2 /\
          xorb (isPrimary l1) (isPrimary f2) = true) as [Hfx [Hfy Hxor]].
  { subst f2. destruct (isPrimary l1) eqn:E1, (isPrimary l2) eqn:E2;
      simpl; rewrite ?E2; auto. destruct Hprim; discriminate. }
  (* the other connector resolves at the first fetch *)
  assert (forall t1 c, monitors t1 = mons ->
            c = a_connector a1 \/ c = a_connector a2 -> c <> A ->
            exists id, _resolveModeId t1 (Some c) = Some id /\
                       str_truthy id = true) as Hres1.
  { intros t1 c Hm Hc Hne.
    assert (c = B) as -> by (destruct Hord as [[E1 E2]|[E1 E2]];
                             destruct Hc; congruence).
    apply (@resolve_truthy_of_modes t1 B pB);
      [rewrite Hm; exact HpB|exact HmB|exact HallB]. }
  (* both connectors resolve at the second fetch *)
  assert (forall S t2 c, monitors t2 = mons2 -> snapshot t2 = S ->
            (exists sA, snap_get A S = Some sA /\
                        s_modeId sA = Some (mode_id mA)) ->
            c = A \/ c = B ->
            exists id, _resolveModeId t2 (Some c) = Some id /\
                       str_truthy id = true) as Hres2.
  { intros S t2 c Hm Hs [sA [HsA HsId]] [->| ->].
    - exists (mode_id mA). split; [|now apply str_truthy_iff].
      apply (@resolve_snapshot_hit t2 A pA2 sA (mode_id mA));
        [rewrite Hm; exact HpA2|rewrite Hs; exact HsA|exact HsId
        |exact HidA|exact HoffA].
    - apply (@resolve_truthy_of_modes t2 B pB2);
        [rewrite Hm; exact HpB2|exact HmB2|exact HallB2]. }
  destruct Hord as [[E1 E2]|[E1 E2]].
  - (* A is the first logical monitor *)
    assert (HpA' := HpA). assert (HpB' := HpB).
    rewrite <- E1 in HpA'. rewrite <- E2 in HpB'.
    destruct (@disable_of_pair t en env1 A ser1 mons l1 l2 props1 a1 a2 pA pB)
      as [D1 [D2 [D3 [D4 D5]]]]; auto.
    { intros p Hin. rewrite E1, E2. auto. }
    { congruence. }
    fold f2 in D4. fold w1 in D1, D2, D3, D4. rewrite E1, E2 in D4.
    split; [exact D5|].
    set (eA := snapshot_entry mons l1 A) in *.
    set (eB := snapshot_entry mons f2 B) in *.
    assert (s_modeId eA = Some (mode_id mA)) as HeA
      by (eapply snapshot_entry_mode; eauto).
    destruct (@enable_from_pair_snapshot (tg w1) en env2 A A B eA eB
                ser2 mons2 lms2 props2 pA2 pB2) as [id1 [id2 Hsub]]; auto.
    { intros t2 c Hm Hs Hc. apply (Hres2 _ t2 c Hm Hs); [|exact Hc].
      exists eA. split; [simpl; now rewrite String.eqb_refl|exact HeA]. }
    { simpl. now rewrite Hfx. }
    { simpl. now rewrite Hfy. }
    exists eA, [restored A eA id1; restored B eB id2], (restored A eA id1).
    split; [rewrite D4; simpl; now rewrite String.eqb_refl|].
    split; [exact HeA|]. split; [exact Hsub|]. split; [now left|].
    split; [simpl; now rewrite String.eqb_refl|]. simpl. auto 10.
  - (* B is the first logical monitor *)
    assert (HpA' := HpA). assert (HpB' := HpB).
    rewrite <- E2 in HpA'. rewrite <- E1 in HpB'.
    destruct (@disable_of_pair t en env1 A ser1 mons l1 l2 props1 a1 a2 pB pA)
      as [D1 [D2 [D3 [D4 D5]]]]; auto.
    { intros p Hin. rewrite E1, E2. destruct (Hcov p Hin); auto. }
    { congruence. }
    fold f2 in D4. fold w1 in D1, D2, D3, D4. rewrite E1, E2 in D4.
    split; [exact D5|].
    set (eB := snapshot_entry mons l1 B) in *.
    set (eA := snapshot_entry mons f2 A) in *.
    assert (s_modeId eA = Some (mode_id mA)) as HeA
      by (eapply snapshot_entry_mode; eauto).
    assert (String.eqb B A = false) as HBA
      by (apply String.eqb_neq; congruence).
    destruct (@enable_from_pair_snapshot (tg w1) en env2 A B A eB eA
                ser2 mons2 lms2 props2 pB2 pA2) as [id1 [id2 Hsub]]; auto.
    { intros t2 c Hm Hs Hc. apply (Hres2 _ t2 c Hm Hs); [|destruct Hc; auto].
      exists eA. split; [simpl; now rewrite HBA, String.eqb_refl|exact HeA]. }
    { simpl. now rewrite Hfx. }
    { simpl. now rewrite Hfy. }
    exists eA, [restored B eB id1; restored A eA id2], (restored A eA id2).
    split; [rewrite D4; simpl; now rewrite HBA, String.eqb_refl|].
    split; [exact HeA|]. split; [exact Hsub|]. split; [right; now left|].
    split; [simpl; now rewrite String.eqb_refl|]. simpl. auto 10.
Qed.

Lemma calls_idem (es : list (Event Scale)) : calls (calls es) = calls es.
Proof.
  unfold calls. induction es as [|e es IH]; simpl; [reflexivity|].
  destruct (negb (is_console e)) eqn:E; simpl; rewrite ?E, IH; reflexivity.
Qed.

(** X1. Whether debug logging is switched on changes nothing but the
    console: started on the same toggle, a fetch, a toggle and a
    make-primary leave the same registry behind, and make the same service
    calls and arm the same timers in the same order; with logging off their
    effects are those with logging on, less the console lines. *)
Theorem logging_switch_only_changes_console t :
  (forall reply,
      tg (_getMonitorConfig reply (start t false))
      = tg (_getMonitorConfig reply (start t true)) /\
      effects (_getMonitorConfig reply) t false
      = calls (effects (_getMonitorConfig reply) t true)) /\
  (forall env,
      tg (toggle env (start t false)) = tg (toggle env (start t true)) /\
      effects (toggle env) t false = calls (effects (toggle env) t true)) /\
  (forall target env,
      tg (_makePrimary target env (start t false))
      = tg (_makePrimary target env (start t true)) /\
      effects (_makePrimary target env) t false
      = calls (effects (_makePrimary target env) t true)).
Proof.
  unfold effects. rewrite <- start_mute.
  split; [|split]; intros.
  - now rewrite getMonitorConfig_mute.
  - now rewrite toggle_mute.
  - now rewrite makePrimary_mute.
Qed.


(** ** The calls of a flow *)

Lemma made_emit level event w : made (_emit level event w) = made w.
Proof.
  unfold made, _emit. destruct (_enabled w); simpl; [|reflexivity].
  rewrite calls_app. apply app_nil_r.
Qed.

Lemma made_with_tg t w : made (with_tg t w) = made w.
Proof. reflexivity. Qed.

Lemma made_event (e : Event Scale) w :
  is_console e = false -> made (emit_event e w) = (made w ++ [e])%list.
Proof.
  intros He. unfold made, emit_event. simpl. rewrite calls_app. simpl.
  now rewrite He.
Qed.

Lemma made_fetch_call w :
  made (emit_event GetCurrentState w) = (made w ++ [GetCurrentState])%list.
Proof. now apply made_event. Qed.

Lemma made_submit s m lms lp w :
  made (emit_event (ApplyMonitorsConfig s m lms lp) w)
  = (made w ++ [ApplyMonitorsConfig s m lms lp])%list.
Proof. now apply made_event. Qed.

Lemma made_timeout prop delay w :
  made (_resetTimeout prop delay w) = (made w ++ [TimeoutSet prop delay])%list.
Proof. now apply made_event. Qed.

Lemma made_updateIndicator w : made (_updateIndicatorVisibility w) = made w.
Proof.
  unfold _updateIndicatorVisibility.
  destruct (proxy (tg w)); simpl; [|reflexivity].
  destruct (indicator (tg w)); [apply made_emit|reflexivity].
Qed.

Lemma made_disableToggle reason w : made (_disableToggle reason w) = made w.
Proof.
  unfold _disableToggle, logError.
  destruct (proxy (tg w)); simpl; [|reflexivity].
  now rewrite made_emit.
Qed.

Lemma made_destroy w : made (destroy w) = made w.
Proof.
  unfold destroy, logInfo. rewrite made_emit, made_with_tg. apply made_emit.
Qed.

Lemma made_sync w : made (_sync w) = made w.
Proof.
  unfold _sync, logDebug.
  destruct (proxy (tg w)); simpl; [|reflexivity].
  now rewrite made_emit, made_updateIndicator.
Qed.

Lemma made_scheduleConfigRefresh w :
  made (_scheduleConfigRefresh w)
  = (made w ++ if proxy (tg w)
               then [TimeoutSet "_configRefreshTimeoutId" 1200] else [])%list.
Proof.
  unfold _scheduleConfigRefresh.
  destruct (proxy (tg w)); simpl; [apply made_timeout|now rewrite app_nil_r].
Qed.

#[local] Hint Rewrite made_emit made_with_tg made_fetch_call made_submit
  made_timeout made_updateIndicator made_disableToggle made_destroy
  made_sync : muted.

Lemma made_getMonitorConfig reply w :
  made (_getMonitorConfig reply w)
  = (made w ++ if proxy (tg w) then [GetCurrentState] else [])%list.
Proof.
  unfold _getMonitorConfig, logStep, logDebug, logInfo, logError.
  destruct (proxy (tg w)); simpl; [|now rewrite app_nil_r].
  destruct (torn_down reply); [now autorewrite with muted|].
  destruct (result reply) as [s mons lms props|e].
  - destruct (allActive mons (fixPrimaryFlags lms));
      now autorewrite with muted.
  - now autorewrite with muted.
Qed.

Lemma disableToggle_proxy reason w :
  proxy (tg (_disableToggle reason w)) = proxy (tg w).
Proof. now destruct (disableToggle_fields reason w) as [H _]. Qed.

Lemma made_toggle_act env w :
  made (act env w)
  = (made w ++ if proxy (tg w) then act_trace env (tg w) else [])%list.
Proof.
  unfold toggle_act, act_trace, logStep, logDebug, logInfo, logError.
  destruct (proxy (tg w)) eqn:Hp; simpl; [|now rewrite app_nil_r].
  set (w1 := if isActive (tg w) then _ else _).
  assert (made w1 = made w /\ tg w1 = tg w) as [Hs Ht].
  { subst w1. destruct (isActive (tg w)); [|destruct (hasSnapshot (tg w))];
      autorewrite with muted registry; auto. }
  destruct (plan (tg w) (xmlConf env)) as [L|reason|reason].
  - autorewrite with registry. rewrite Ht, Hp. simpl.
    destruct (torn_down (applied env)).
    { autorewrite with muted. now rewrite Hs. }
    destruct (result (applied env)).
    + destruct (isActive (tg w)); simpl;
        rewrite ?made_timeout, made_scheduleConfigRefresh;
        autorewrite with muted registry; simpl; rewrite ?Ht, ?Hp, ?Hs;
        now rewrite <- ?app_assoc.
    + rewrite made_scheduleConfigRefresh, disableToggle_proxy.
      autorewrite with muted registry. simpl. rewrite ?Ht, ?Hp, ?Hs.
      now rewrite <- ?app_assoc.
  - rewrite made_getMonitorConfig. autorewrite with muted registry.
    now rewrite ?Ht, ?Hp, ?Hs.
  - autorewrite with muted. now rewrite Hs, app_nil_r.
Qed.

Lemma fetched_registry_any env t en :
  tg (toggle_fetch env (start t en)) = fetched_registry env t.
Proof.
  destruct en; [|reflexivity].
  unfold fetched_registry. rewrite <- start_mute, toggle_fetch_mute.
  reflexivity.
Qed.

Lemma primary_registry_any env t en :
  tg (primary_fetch env (start t en)) = primary_registry env t.
Proof.
  destruct en; [|reflexivity].
  unfold primary_registry. rewrite <- start_mute, primary_fetch_mute.
  reflexivity.
Qed.

Lemma fetched_registry_alive env t :
  proxy (fetched_registry env t) = proxy t && negb (torn_down (fetched env)).
Proof.
  unfold fetched_registry, toggle_fetch, logInfo.
  destruct (proxy t) eqn:Hp.
  - destruct (torn_down (fetched env)) eqn:Ht; simpl.
    + unfold _getMonitorConfig. autorewrite with registry. simpl.
      rewrite Hp, Ht. reflexivity.
    + rewrite getMonitorConfig_alive by exact Ht.
      autorewrite with registry. exact Hp.
  - rewrite getMonitorConfig_dead; autorewrite with registry; exact Hp.
Qed.

Lemma primary_registry_alive env t :
  proxy (primary_registry env t) = proxy t && negb (torn_down (p_fetched env)).
Proof.
  unfold primary_registry, primary_fetch, logInfo.
  destruct (proxy t) eqn:Hp.
  - destruct (torn_down (p_fetched env)) eqn:Ht; simpl.
    + unfold _getMonitorConfig. autorewrite with registry. simpl.
      rewrite Hp, Ht. reflexivity.
    + rewrite getMonitorConfig_alive by exact Ht.
      autorewrite with registry. exact Hp.
  - rewrite getMonitorConfig_dead; autorewrite with registry; exact Hp.
Qed.

Lemma made_toggle env t en :
  calls (effects (toggle env) t en) = toggle_trace env t.
Proof.
  unfold effects, _toggleMonitor, toggle_trace. simpl.
  destruct (negb (proxy t) || toggling t) eqn:Hg; [reflexivity|].
  apply orb_false_elim in Hg. destruct Hg as [Hp _].
  apply negb_false_iff in Hp.
  match goal with |- calls (out ?w') = _ => fold (made w') end.
  unfold logInfo. autorewrite with muted.
  rewrite made_toggle_act, fetched_registry_any, fetched_registry_alive, Hp.
  unfold toggle_fetch, logInfo. rewrite made_getMonitorConfig.
  autorewrite with muted registry. simpl. rewrite Hp.
  destruct (torn_down (fetched env)); reflexivity.
Qed.

Lemma made_makePrimary target env t en :
  calls (effects (_makePrimary target env) t en)
  = makePrimary_trace target env t.
Proof.
  unfold effects, _makePrimary, makePrimary_trace.
  change (tg (start t en)) with t.
  destruct (proxy t) eqn:Hp0; cbn [negb]; [|reflexivity].
  rewrite primary_registry_any.
  pose proof (primary_registry_alive env t) as Hal. rewrite Hp0 in Hal.
  cbn [andb] in Hal.
  set (w1 := primary_fetch env (start t en)).
  assert (made w1 = [GetCurrentState]) as Hs1.
  { subst w1. unfold primary_fetch, logInfo. rewrite made_getMonitorConfig.
    autorewrite with muted registry. cbn [tg start]. now rewrite Hp0. }
  assert (tg w1 = primary_registry env t) as Ht1
      by apply primary_registry_any.
  rewrite Hal.
  destruct (torn_down (p_fetched env)); cbn [negb]; [exact Hs1|].
  destruct (keep_some (map (retarget (primary_registry env t) target)
                           (logicalMonitors (primary_registry env t))))
    as [|lm rest] eqn:Ek; [exact Hs1|].
  unfold logStep, logDebug, logInfo, logError.
  autorewrite with registry. rewrite Ht1, Hal. cbn [negb].
  match goal with |- calls (out ?w') = _ => fold (made w') end.
  destruct (torn_down (p_applied env)).
  { autorewrite with muted. now rewrite Hs1. }
  destruct (result (p_applied env)).
  - rewrite made_scheduleConfigRefresh. autorewrite with muted registry.
    now rewrite Ht1, Hal, Hs1.
  - autorewrite with muted. now rewrite Hs1.
Qed.

(** ** One toggle, one submission *)

Lemma submitted_calls (es : list (Event Scale)) :
  submitted (calls es) = submitted es.
Proof.
  induction es as [|e es IH]; [reflexivity|].
  destruct e; simpl; rewrite ?IH; reflexivity.
Qed.

Lemma fetches_calls (es : list (Event Scale)) :
  fetches (calls es) = fetches es.
Proof.
  unfold fetches. induction es as [|e es IH]; [reflexivity|].
  destruct e; simpl; rewrite ?IH; reflexivity.
Qed.

Lemma In_calls (e : Event Scale) es :
  In e (calls es) <-> In e es /\ is_console e = false.
Proof.
  unfold calls. rewrite filter_In. now rewrite negb_true_iff.
Qed.

(** X2. One call of the toggle makes at most one submission and at most
    two fetches. When it runs at all its first call is a fetch, and a
    second fetch is made only when nothing is submitted: it never fetches
    after it has submitted. A make-primary makes one fetch and at most one
    submission. *)
Theorem one_toggle_at_most_one_submission t en :
  (forall env,
      let es := effects (toggle env) t en in
      (length (submitted es) <= 1)%nat /\ (fetches es <= 2)%nat /\
      (submitted es <> [] -> fetches es = 1%nat) /\
      (proxy t = true -> toggling t = false ->
       exists rest, calls es = GetCurrentState :: rest) /\
      (proxy t = false \/ toggling t = true -> es = [])) /\
  (forall target env,
      let es := effects (_makePrimary target env) t en in
      (length (submitted es) <= 1)%nat /\
      (proxy t = true -> fetches es = 1%nat) /\
      (proxy t = false -> es = [])).
Proof.
  split.
  - intros env es. subst es.
    rewrite <- (submitted_calls (effects (toggle env) t en)).
    rewrite <- (fetches_calls (effects (toggle env) t en)).
    rewrite made_toggle. unfold toggle_trace, act_trace, fetches, submitted.
    split; [|split; [|split; [|split]]].
    + destruct (negb (proxy t) || toggling t); [simpl; lia|].
      destruct (torn_down (fetched env)); [simpl; lia|].
      destruct (plan _ _); [|simpl; lia|simpl; lia].
      destruct (torn_down (applied env)); [simpl; lia|].
      destruct (result (applied env)); [|simpl; lia].
      destruct (isActive _); simpl; lia.
    + destruct (negb (proxy t) || toggling t); [simpl; lia|].
      destruct (torn_down (fetched env)); [simpl; lia|].
      destruct (plan _ _); [|simpl; lia|simpl; lia].
      destruct (torn_down (applied env)); [simpl; lia|].
      destruct (result (applied env)); [|simpl; lia].
      destruct (isActive _); simpl; lia.
    + destruct (negb (proxy t) || toggling t); [simpl; congruence|].
      destruct (torn_down (fetched env)); [simpl; congruence|].
      destruct (plan _ _); [|simpl; congruence|simpl; congruence].
      destruct (torn_down (applied env)); [reflexivity|].
      destruct (result (applied env)); [|reflexivity].
      destruct (isActive _); reflexivity.
    + intros Hp Ht. rewrite Hp, Ht. simpl. eauto.
    + intros H. unfold effects, _toggleMonitor. simpl.
      destruct H as [-> | ->]; [reflexivity|]. now rewrite orb_true_r.
  - intros target env es. subst es.
    rewrite <- (submitted_calls (effects (_makePrimary target env) t en)).
    rewrite <- (fetches_calls (effects (_makePrimary target env) t en)).
    rewrite made_makePrimary. unfold makePrimary_trace, fetches, submitted.
    split; [|split].
    + destruct (negb (proxy t)); [simpl; lia|].
      destruct (torn_down (p_fetched env)); [simpl; lia|].
      destruct (keep_some _); [simpl; lia|].
      destruct (torn_down (p_applied env)); [simpl; lia|].
      destruct (result (p_applied env)); simpl; lia.
    + intros ->. simpl.
      destruct (torn_down (p_fetched env)); [reflexivity|].
      destruct (keep_some _); [reflexivity|].
      destruct (torn_down (p_applied env)); [reflexivity|].
      destruct (result (p_applied env)); reflexivity.
    + intros Hp. unfold effects, _makePrimary. simpl. now rewrite Hp.
Qed.

(** ** The registry a flow plans on *)

Lemma fetched_registry_ok env t newSerial mons lms props :
  proxy t = true -> torn_down (fetched env) = false ->
  result (fetched env) = FetchOk newSerial mons lms props ->
  fetched_registry env t
  = let t' := ingest (set_toggling true t) newSerial mons
                     (fixPrimaryFlags lms) props in
    set_sensitive true (set_checked (isActive t') t').
Proof.
  intros Hp Ht Hr. unfold fetched_registry, toggle_fetch, logInfo.
  rewrite (@getMonitorConfig_ok_tg (fetched env) _ newSerial mons lms props);
    autorewrite with registry; auto.
Qed.

Lemma fetched_registry_error env t e :
  proxy t = true -> torn_down (fetched env) = false ->
  result (fetched env) = FetchError e ->
  fetched_registry env t
  = set_sensitive false (set_checked false (set_toggling true t)).
Proof.
  intros Hp Ht Hr. unfold fetched_registry, toggle_fetch, logInfo.
  rewrite (@getMonitorConfig_error_tg (fetched env) _ e);
    autorewrite with registry; auto.
Qed.

Lemma primary_registry_ok env t newSerial mons lms props :
  proxy t = true -> torn_down (p_fetched env) = false ->
  result (p_fetched env) = FetchOk newSerial mons lms props ->
  primary_registry env t
  = let t' := ingest t newSerial mons (fixPrimaryFlags lms) props in
    set_sensitive true (set_checked (isActive t') t').
Proof.
  intros Hp Ht Hr. unfold primary_registry, primary_fetch, logInfo.
  rewrite (@getMonitorConfig_ok_tg (p_fetched env) _ newSerial mons lms props);
    autorewrite with registry; auto.
Qed.

Lemma primary_registry_error env t e :
  proxy t = true -> torn_down (p_fetched env) = false ->
  result (p_fetched env) = FetchError e ->
  primary_registry env t = set_sensitive false (set_checked false t).
Proof.
  intros Hp Ht Hr. unfold primary_registry, primary_fetch, logInfo.
  rewrite (@getMonitorConfig_error_tg (p_fetched env) _ e);
    autorewrite with registry; auto.
Qed.

Ltac no_other_call H :=
  simpl in H;
  repeat (destruct H as [H|H]; [discriminate|]);
  contradiction.

(** What a submission of the toggle looks like. *)
Lemma toggle_submission env t en s m L lp :
  In (ApplyMonitorsConfig s m L lp) (effects (toggle env) t en) ->
  let t1 := fetched_registry env t in
  proxy t = true /\ toggling t = false /\ torn_down (fetched env) = false /\
  plan t1 (xmlConf env) = Candidate L /\
  s = serial t1 /\ m = persistenceMode t1 /\ lp = propertiesToApply t1.
Proof.
  intros Hin t1.
  assert (In (ApplyMonitorsConfig s m L lp) (calls (effects (toggle env) t en)))
    as Hc by (apply In_calls; now split).
  rewrite made_toggle in Hc. unfold toggle_trace, act_trace in Hc.
  fold t1 in Hc.
  destruct (proxy t); [|contradiction].
  destruct (toggling t); [contradiction|]. simpl in Hc.
  destruct Hc as [Hc|Hc]; [discriminate|].
  destruct (torn_down (fetched env)); [contradiction|].
  destruct (plan t1 (xmlConf env)) as [L'|r|r];
    [|destruct Hc as [Hc|[]]; discriminate|contradiction].
  assert (ApplyMonitorsConfig (serial t1) (persistenceMode t1) L'
            (propertiesToApply t1) = ApplyMonitorsConfig s m L lp) as E.
  { destruct Hc as [Hc|Hc]; [exact Hc|].
    destruct (torn_down (applied env)); [contradiction|].
    destruct (result (applied env)); [destruct (isActive t1)|];
      no_other_call Hc. }
  inversion E; subst. auto 10.
Qed.

Lemma makePrimary_submission target env t en s m L lp :
  In (ApplyMonitorsConfig s m L lp) (effects (_makePrimary target env) t en) ->
  let t1 := primary_registry env t in
  proxy t = true /\ torn_down (p_fetched env) = false /\
  keep_some (map (retarget t1 target) (logicalMonitors t1)) <> [] /\
  L = normalizePositions
        (keep_some (map (retarget t1 target) (logicalMonitors t1))) /\
  s = serial t1 /\ m = persistenceMode t1 /\ lp = propertiesToApply t1.
Proof.
  intros Hin t1.
  assert (In (ApplyMonitorsConfig s m L lp)
             (calls (effects (_makePrimary target env) t en)))
    as Hc by (apply In_calls; now split).
  rewrite made_makePrimary in Hc. unfold makePrimary_trace in Hc.
  fold t1 in Hc.
  destruct (proxy t); [|contradiction]. simpl in Hc.
  destruct Hc as [Hc|Hc]; [discriminate|].
  destruct (torn_down (p_fetched env)); [contradiction|].
  destruct (keep_some (map (retarget t1 target) (logicalMonitors t1)))
    as [|lm rest] eqn:Ek; [contradiction|].
  assert (ApplyMonitorsConfig (serial t1) (persistenceMode t1)
            (normalizePositions (lm :: rest))
            (propertiesToApply t1) = ApplyMonitorsConfig s m L lp) as E.
  { destruct Hc as [Hc|Hc]; [exact Hc|].
    destruct (torn_down (p_applied env)); [contradiction|].
    destruct (result (p_applied env)); no_other_call Hc. }
  inversion E; subst. repeat split; auto. discriminate.
Qed.

(** ** What every submitted layout satisfies *)

Lemma normalizePositions_origin lms :
  lms <> [] ->
  minimum_is (@x Scale) (normalizePositions lms) 0 /\
  minimum_is (@y Scale) (normalizePositions lms) 0.
Proof.
  intros Hne.
  destruct (normalizePositions_shift Hne)
    as [mx [my [[[lx [Hlx Hxm]] Hxall] [[[ly [Hly Hym]] Hyall] HF]]]].
  split; split.
  - destruct (Forall2_In_l lx HF Hlx) as [b [Hb Hs]].
    exists b. split; [exact Hb|]. destruct Hs as [Hx _]. lia.
  - intros lm Hlm. destruct (Forall2_In_r lm HF Hlm) as [a [Ha Hs]].
    destruct Hs as [Hx _]. specialize (Hxall a Ha). lia.
  - destruct (Forall2_In_l ly HF Hly) as [b [Hb Hs]].
    exists b. split; [exact Hb|]. destruct Hs as [_ [Hy _]]. lia.
  - intros lm Hlm. destruct (Forall2_In_r lm HF Hlm) as [a [Ha Hs]].
    destruct Hs as [_ [Hy _]]. specialize (Hyall a Ha). lia.
Qed.

Lemma fixPrimaryFlags_coordinates lms :
  map (@x Scale) (fixPrimaryFlags lms) = map (@x Scale) lms /\
  map (@y Scale) (fixPrimaryFlags lms) = map (@y Scale) lms.
Proof.
  pose proof (fixPrimaryFlags_entries lms) as HF.
  induction HF as [|a b l1 l2 Hab HF [IHx IHy]]; [split; reflexivity|].
  destruct Hab as [Hx [Hy _]]. simpl. now rewrite Hx, Hy, IHx, IHy.
Qed.

Lemma demote_extras_moved first dx dy lms :
  demote_extras first
    (map (fun lm : LogicalMonitor Scale =>
            set_position (x lm - dx) (y lm - dy) lm) lms)
  = map (fun lm => set_position (x lm - dx) (y lm - dy) lm)
        (demote_extras first lms).
Proof.
  revert first. induction lms as [|lm rest IH]; intros first; [reflexivity|].
  simpl. destruct (isPrimary lm); rewrite IH; [|reflexivity].
  destruct first; reflexivity.
Qed.

Lemma primaries_moved dx dy lms :
  length (filter (@isPrimary Scale)
            (map (fun lm => set_position (x lm - dx) (y lm - dy) lm) lms))
  = length (filter (@isPrimary Scale) lms).
Proof.
  induction lms as [|lm rest IH]; [reflexivity|].
  simpl. destruct (isPrimary lm); simpl; now rewrite IH.
Qed.

Lemma fixPrimaryFlags_moved dx dy lms :
  fixPrimaryFlags (map (fun lm => set_position (x lm - dx) (y lm - dy) lm) lms)
  = map (fun lm => set_position (x lm - dx) (y lm - dy) lm)
        (fixPrimaryFlags lms).
Proof.
  unfold fixPrimaryFlags. rewrite primaries_moved.
  destruct (length (filter (@isPrimary Scale) lms) <=? 1)%nat;
    [reflexivity|apply demote_extras_moved].
Qed.

(** X3. [normalizePositions] is idempotent, and it commutes with
    [fixPrimaryFlags]: the two repairs of a layout can be applied in either
    order, any number of times. *)
Theorem normalizePositions_idempotent lms :
  normalizePositions (normalizePositions lms) = normalizePositions lms /\
  normalizePositions (fixPrimaryFlags lms)
  = fixPrimaryFlags (normalizePositions lms).
Proof.
  split.
  - destruct lms as [|l0 rest]; [reflexivity|].
    assert (l0 :: rest <> []) as Hne by discriminate.
    destruct (normalizePositions_origin Hne) as [Hx Hy].
    now apply normalizePositions_id.
  - destruct (fixPrimaryFlags_coordinates lms) as [Hx Hy].
    pose proof (fixPrimaryFlags_length lms) as Hlen.
    unfold normalizePositions at 1. rewrite Hx, Hy.
    destruct (fixPrimaryFlags lms) as [|f0 frest] eqn:Ef.
    + destruct lms; [reflexivity|discriminate].
    + rewrite <- Ef. destruct lms as [|l0 rest]; [discriminate|].
      unfold normalizePositions.
      destruct (running_min (map (@x Scale) (l0 :: rest))) as [mx|];
        [|reflexivity].
      destruct (running_min (map (@y Scale) (l0 :: rest))) as [my|];
        [|reflexivity].
      destruct ((mx =? 0) && (my =? 0)); [reflexivity|].
      symmetry. apply fixPrimaryFlags_moved.
Qed.

Lemma resolveModeId_offered t c id :
  _resolveModeId t (Some c) = Some id ->
  exists phys, known_monitor t c phys /\ offers phys id.
Proof.
  intros Hr. pose proof (resolveModeId_coded t (Some c)) as H.
  rewrite Hr in H.
  inversion H; subst;
    match goal with
    | Hk : known_monitor t c ?p |- _ => exists p; split; [exact Hk|]
    end;
    try assumption.
  - match goal with
    | Hf : first_such _ (modes _) ?m |- _ =>
        exists m; split; [now apply first_such_in in Hf|reflexivity]
    end.
  - match goal with
    | Hf : first_such _ (modes _) ?m |- _ =>
        exists m; split; [now apply first_such_in in Hf|reflexivity]
    end.
  - match goal with
    | Hm : modes _ = ?m :: _ |- _ =>
        exists m; split; [rewrite Hm; now left|reflexivity]
    end.
Qed.

Lemma resolved_names_known_mode t lm :
  resolved_entry t lm -> names_known_mode t lm.
Proof.
  intros [c [id [Ha [Hpr [Hr Ht]]]]].
  destruct (@resolveModeId_offered t c id Hr) as [phys [Hk Ho]].
  exists c, id, phys. repeat split; auto. now apply str_truthy_iff.
Qed.

Lemma retarget_image t target lm lm' :
  retarget t target lm = Some lm' ->
  resolved_entry t lm' /\ x lm' = x lm /\ y lm' = y lm /\
  scale lm' = scale lm /\ transform lm' = transform lm /\
  isPrimary lm' = has_connector (Some target) lm.
Proof.
  unfold retarget.
  destruct (first_connector lm) as [c|] eqn:Ec;
    [|destruct (_resolveModeId t None); discriminate].
  destruct (_resolveModeId t (Some c)) as [id|] eqn:Er; [|discriminate].
  destruct (str_truthy id) eqn:Ht; [|discriminate].
  intros H. inversion H; subst; clear H. cbn [x y scale transform isPrimary].
  split; [|auto 10]. exists c, id. auto.
Qed.

Lemma normalizePositions_keeps (P : LogicalMonitor Scale -> Prop) lms :
  (forall a b dx dy, shifted_by dx dy a b -> P a -> P b) ->
  Forall P lms -> Forall P (normalizePositions lms).
Proof.
  intros Hshift HP. destruct lms as [|l0 rest]; [constructor|].
  assert (l0 :: rest <> []) as Hne by discriminate.
  destruct (normalizePositions_shift Hne) as [mx [my [_ [_ HF]]]].
  apply Forall_forall. intros b Hb.
  destruct (Forall2_In_r b HF Hb) as [a [Ha Hs]].
  rewrite Forall_forall in HP. eauto.
Qed.

Lemma names_known_mode_shifted t dx dy (a b : LogicalMonitor Scale) :
  shifted_by dx dy a b -> names_known_mode t a -> names_known_mode t b.
Proof.
  intros [_ [_ [_ [_ [_ [Has Hpr]]]]]] [c [id [phys [Ha [Hp H]]]]].
  exists c, id, phys. rewrite Has, Hpr. auto.
Qed.

Lemma coordinates_from_minimum lms :
  minimum_is (@x Scale) lms 0 -> minimum_is (@y Scale) lms 0 ->
  Forall (fun lm => 0 <= x lm /\ 0 <= y lm) lms.
Proof.
  intros [_ Hx] [_ Hy]. apply Forall_forall. intros lm Hlm. split; auto.
Qed.

Lemma toggle_layout_shape env t L :
  plan (fetched_registry env t) (xmlConf env) = Candidate L ->
  exists R, R <> [] /\ L = normalizePositions R /\
            Forall (resolved_entry (fetched_registry env t)) R.
Proof.
  intros Hplan.
  destruct (@planLayout_candidate (fetched_registry env t) (xmlConf env) L Hplan)
    as [lms [_ Hfin]].
  destruct (@finalize_candidate (fetched_registry env t) lms L Hfin) as [Hne ->].
  eexists. split; [exact Hne|]. split; [reflexivity|].
  apply Forall_forall. intros b Hb. apply keep_some_In in Hb.
  destruct Hb as [a [_ Ha]]. now apply reresolve_image in Ha.
Qed.

Lemma makePrimary_layout_shape target t1 :
  Forall (resolved_entry t1)
         (keep_some (map (retarget t1 target) (logicalMonitors t1))).
Proof.
  apply Forall_forall. intros b Hb. apply keep_some_In in Hb.
  destruct Hb as [a [_ Ha]]. now apply retarget_image in Ha.
Qed.

(** X4. Every layout handed to the display service, by the toggle or by
    make-primary, has its least x and its least y equal to 0, so that no
    coordinate is negative. *)
Theorem submitted_layouts_start_at_origin t en :
  (forall env L,
      In L (submitted (effects (toggle env) t en)) ->
      minimum_is (@x Scale) L 0 /\ minimum_is (@y Scale) L 0 /\
      Forall (fun lm => 0 <= x lm /\ 0 <= y lm) L) /\
  (forall target env L,
      In L (submitted (effects (_makePrimary target env) t en)) ->
      minimum_is (@x Scale) L 0 /\ minimum_is (@y Scale) L 0 /\
      Forall (fun lm => 0 <= x lm /\ 0 <= y lm) L).
Proof.
  split.
  - intros env L Hin. rewrite submitted_toggle in Hin.
    destruct (negb (proxy t) || toggling t); [contradiction|].
    unfold planned_submission in Hin. rewrite fetched_registry_any in Hin.
    destruct (proxy (fetched_registry env t)); [|contradiction].
    destruct (plan _ _) as [L'|r|r] eqn:Hplan; try contradiction.
    destruct Hin as [<-|[]].
    destruct (@toggle_layout_shape env t L' Hplan) as [R [Hne [-> _]]].
    destruct (normalizePositions_origin Hne) as [Hx Hy].
    split; [exact Hx|]. split; [exact Hy|].
    now apply coordinates_from_minimum.
  - intros target env L Hin. rewrite submitted_makePrimary in Hin.
    destruct (negb (proxy t)); [contradiction|].
    unfold primary_submission in Hin. rewrite primary_registry_any in Hin.
    destruct (proxy (primary_registry env t)); [|contradiction].
    destruct (keep_some _) as [|lm rest] eqn:Ek; [contradiction|].
    destruct Hin as [<-|[]].
    assert (lm :: rest <> []) as Hne by discriminate.
    destruct (normalizePositions_origin Hne) as [Hx Hy].
    split; [exact Hx|]. split; [exact Hy|].
    now apply coordinates_from_minimum.
Qed.

(** X5. Every entry of a submitted layout carries exactly one assignment
    and no property; the assignment names a connector that the registry
    left by the flow's fetch lists, with a mode id that is not empty and
    that is offered by the first listed monitor of that connector. *)
Theorem submitted_entries_name_known_modes t en :
  (forall env L lm,
      In L (submitted (effects (toggle env) t en)) -> In lm L ->
      names_known_mode (fetched_registry env t) lm) /\
  (forall target env L lm,
      In L (submitted (effects (_makePrimary target env) t en)) -> In lm L ->
      names_known_mode (primary_registry env t) lm).
Proof.
  split.
  - intros env L lm Hin Hlm. rewrite submitted_toggle in Hin.
    destruct (negb (proxy t) || toggling t); [contradiction|].
    unfold planned_submission in Hin. rewrite fetched_registry_any in Hin.
    destruct (proxy (fetched_registry env t)); [|contradiction].
    destruct (plan _ _) as [L'|r|r] eqn:Hplan; try contradiction.
    destruct Hin as [<-|[]].
    destruct (@toggle_layout_shape env t L' Hplan) as [R [Hne [-> HR]]].
    assert (Forall (names_known_mode (fetched_registry env t))
                   (normalizePositions R)) as HF.
    { apply normalizePositions_keeps.
      - intros a b dx dy. apply names_known_mode_shifted.
      - eapply Forall_impl; [|exact HR].
        intros a. apply resolved_names_known_mode. }
    rewrite Forall_forall in HF. auto.
  - intros target env L lm Hin Hlm. rewrite submitted_makePrimary in Hin.
    destruct (negb (proxy t)); [contradiction|].
    unfold primary_submission in Hin. rewrite primary_registry_any in Hin.
    destruct (proxy (primary_registry env t)); [|contradiction].
    destruct (keep_some _) as [|l0 rest] eqn:Ek; [contradiction|].
    destruct Hin as [<-|[]].
    assert (Forall (names_known_mode (primary_registry env t))
                   (normalizePositions (l0 :: rest))) as HF.
    { apply normalizePositions_keeps.
      - intros a b dx dy. apply names_known_mode_shifted.
      - rewrite <- Ek. eapply Forall_impl;
          [|apply makePrimary_layout_shape].
        intros a. apply resolved_names_known_mode. }
    rewrite Forall_forall in HF. auto.
Qed.

(** ** The arguments of a submission *)

(** X6. A submission carries the persistence mode of the toggle, and the
    serial and the layout mode of the fetch that opened the flow: the
    serial the service reported, and the layout-mode property exactly when
    the service said it supports changing it. When that fetch was rejected
    the flow goes on with the registry it had, and a submission then carries
    the serial and the layout mode recorded before. *)
Theorem submission_carries_fetched_serial t en :
  (forall env s m L lp,
      In (ApplyMonitorsConfig s m L lp) (effects (toggle env) t en) ->
      m = persistenceMode t /\
      (forall ns mons lms props,
          result (fetched env) = FetchOk ns mons lms props ->
          s = ns /\ lp = layout_mode_of props) /\
      (forall e,
          result (fetched env) = FetchError e ->
          s = serial t /\ lp = propertiesToApply t)) /\
  (forall target env s m L lp,
      In (ApplyMonitorsConfig s m L lp)
         (effects (_makePrimary target env) t en) ->
      m = persistenceMode t /\
      (forall ns mons lms props,
          result (p_fetched env) = FetchOk ns mons lms props ->
          s = ns /\ lp = layout_mode_of props) /\
      (forall e,
          result (p_fetched env) = FetchError e ->
          s = serial t /\ lp = propertiesToApply t)).
Proof.
  split.
  - intros env s m L lp Hin.
    destruct (@toggle_submission env t en s m L lp Hin)
      as [Hp [Htg [Htd [_ [-> [-> ->]]]]]].
    split; [|split].
    + destruct (result (fetched env)) as [ns mons lms props|e] eqn:Hr.
      * now rewrite (@fetched_registry_ok env t ns mons lms props Hp Htd Hr).
      * now rewrite (@fetched_registry_error env t e Hp Htd Hr).
    + intros ns mons lms props Hr.
      now rewrite (@fetched_registry_ok env t ns mons lms props Hp Htd Hr).
    + intros e Hr. now rewrite (@fetched_registry_error env t e Hp Htd Hr).
  - intros target env s m L lp Hin.
    destruct (@makePrimary_submission target env t en s m L lp Hin)
      as [Hp [Htd [_ [_ [-> [-> ->]]]]]].
    split; [|split].
    + destruct (result (p_fetched env)) as [ns mons lms props|e] eqn:Hr.
      * now rewrite (@primary_registry_ok env t ns mons lms props Hp Htd Hr).
      * now rewrite (@primary_registry_error env t e Hp Htd Hr).
    + intros ns mons lms props Hr.
      now rewrite (@primary_registry_ok env t ns mons lms props Hp Htd Hr).
    + intros e Hr. now rewrite (@primary_registry_error env t e Hp Htd Hr).
Qed.

(** ** The selected monitor in the submitted layout *)

Lemma single_to_origin_assignments lms :
  map (@assignments Scale) (single_to_origin lms) = map (@assignments Scale) lms.
Proof. destruct lms as [|a [|b rest]]; reflexivity. Qed.

Lemma ensure_primary_assignments lms :
  map (@assignments Scale) (ensure_primary lms) = map (@assignments Scale) lms.
Proof.
  unfold ensure_primary. destruct (negb (existsb (@isPrimary Scale) lms));
    [|reflexivity].
  destruct lms; reflexivity.
Qed.

Lemma existsb_false_Forall (A : Type) (f : A -> bool) l :
  existsb f l = false <-> Forall (fun a => f a = false) l.
Proof.
  induction l as [|a l IH]; simpl.
  - split; [constructor|reflexivity].
  - rewrite orb_false_iff, IH. split.
    + intros [Ha Hl]. now constructor.
    + intros H. inversion H; subst. now split.
Qed.

Lemma strip_connector_clean mon (a b : LogicalMonitor Scale) :
  strip_connector mon a = Some b ->
  Forall (fun m => assigned_to mon m = false) (assignments b).
Proof.
  unfold strip_connector.
  destruct (filter (fun m => negb (assigned_to mon m)) (assignments a))
    as [|m0 rest] eqn:Ef; [discriminate|].
  intros H. inversion H; subst; clear H. cbn [assignments].
  rewrite <- Ef. apply Forall_forall. intros m Hm.
  apply filter_In in Hm. destruct Hm as [_ Hm]. now apply negb_true_iff in Hm.
Qed.

Lemma reresolve_first t (a b : LogicalMonitor Scale) :
  reresolve t a = Some b ->
  exists m rest, assignments a = m :: rest /\
                 has_connector (Some (a_connector m)) b = true /\
                 forall mon, has_connector mon b = assigned_to mon m.
Proof.
  unfold reresolve, first_connector.
  destruct (assignments a) as [|m rest] eqn:Ea.
  { destruct (_resolveModeId t None); discriminate. }
  destruct (_resolveModeId t (Some (a_connector m))) as [id|]; [|discriminate].
  destruct (str_truthy id); [|discriminate].
  intros H. inversion H; subst; clear H.
  exists m, rest. split; [reflexivity|].
  split; [simpl; now rewrite String.eqb_refl|].
  intros [c|]; simpl; [now rewrite orb_false_r|reflexivity].
Qed.

Lemma snap_get_In (key : string) (snap : Snapshot Scale) s :
  snap_get key snap = Some s -> In (key, s) snap.
Proof.
  induction snap as [|[k v] rest IH]; simpl; [discriminate|].
  destruct (String.eqb k key) eqn:E.
  - apply String.eqb_eq in E. intros H. inversion H; subst. now left.
  - intros H. right. auto.
Qed.

(** What the enable branch places holds the selected connector whenever
    that connector's mode resolves. *)
Lemma placed_holds_selected t xml cand :
  placed t xml = Candidate cand ->
  hasSnapshot t = false \/ opt_truthy (_resolveModeId t (monitor t)) = true ->
  existsb (has_connector (monitor t)) cand = true.
Proof.
  unfold placed. destruct (hasSnapshot t) eqn:Hs.
  - intros H [Hf|Hr]; [discriminate|]. inversion H; subst; clear H.
    destruct (monitor t) as [c|] eqn:Em;
      [|rewrite resolveModeId_none in Hr; discriminate].
    destruct (_resolveModeId t (Some c)) as [id|] eqn:Er; [|discriminate].
    simpl in Hr.
    unfold hasSnapshot in Hs. rewrite Em in Hs. simpl in Hs.
    destruct (snap_get c (snapshot t)) as [s|] eqn:Eg; [|discriminate].
    apply snap_get_In in Eg.
    destruct (@resolveModeId_offered t c id Er) as [phys [Hk _]].
    apply find_first_such in Hk.
    assert (find_phys (monitors t) (Some c) = Some phys) as Hfp by exact Hk.
    apply find_phys_known in Hfp.
    apply existsb_exists. exists (restored c s id). split.
    + unfold restore_from_snapshot. apply keep_some_In.
      exists (c, s). split; [exact Eg|].
      unfold restore_entry. rewrite Er, Hr, Hfp. reflexivity.
    + simpl. now rewrite String.eqb_refl.
  - intros H _. unfold place_to_right in H.
    destruct (find_phys (monitors t) (monitor t)); [|discriminate].
    destruct (monitor t) as [mon|]; [|discriminate].
    destruct (_resolveModeId t (Some mon)) as [id|]; [|discriminate].
    destruct (str_truthy id); [|discriminate].
    inversion H; subst; clear H.
    rewrite existsb_app. apply orb_true_iff. right.
    simpl. now rewrite String.eqb_refl.
Qed.

(** X7. A submitted layout answers the click. When the selected monitor
    was active after the fetch, no entry of the submitted layout holds its
    connector. When it was not, some entry holds it, provided its mode
    resolves, which is always so when the layout was placed without a
    snapshot. *)
Theorem toggle_flips_selected_monitor t en env L :
  In L (submitted (effects (toggle env) t en)) ->
  let t1 := fetched_registry env t in
  (isActive t1 = true ->
   existsb (has_connector (monitor t1)) L = false) /\
  (isActive t1 = false ->
   hasSnapshot t1 = false \/
   opt_truthy (_resolveModeId t1 (monitor t1)) = true ->
   existsb (has_connector (monitor t1)) L = true).
Proof.
  intros Hin t1. rewrite submitted_toggle in Hin.
  destruct (negb (proxy t) || toggling t); [contradiction|].
  unfold planned_submission in Hin. rewrite fetched_registry_any in Hin.
  fold t1 in Hin.
  destruct (proxy t1); [|contradiction].
  destruct (plan t1 (xmlConf env)) as [L'|r|r] eqn:Hplan; try contradiction.
  destruct Hin as [<-|[]].
  split.
  - intros Hact.
    destruct (@plan_disable_layout t1 (xmlConf env) L' Hact Hplan) as [_ ->].
    erewrite existsb_has_connector_assignments
      by apply normalizePositions_assignments.
    apply existsb_false_Forall. apply Forall_forall. intros b Hb.
    apply keep_some_In in Hb. destruct Hb as [a [Ha Hab]].
    destruct (@reresolve_first t1 a b Hab) as [m [rest [Em [_ Hall]]]].
    rewrite Hall.
    assert (In (assignments a)
               (map (@assignments Scale)
                  (keep_some (map (strip_connector (monitor t1))
                                  (logicalMonitors t1))))) as Hin.
    { rewrite <- single_to_origin_assignments, <- ensure_primary_assignments.
      now apply in_map. }
    apply in_map_iff in Hin. destruct Hin as [s [Hs Hin]].
    apply keep_some_In in Hin. destruct Hin as [a0 [_ Hstrip]].
    apply strip_connector_clean in Hstrip.
    rewrite Hs, Em in Hstrip. now inversion Hstrip.
  - intros Hact Hres.
    destruct (@plan_enable_layout t1 (xmlConf env) L' Hact Hplan)
      as [cand [Hpl [_ [_ ->]]]].
    erewrite existsb_has_connector_assignments
      by apply normalizePositions_assignments.
    erewrite existsb_has_connector_assignments
      by apply ensure_primary_assignments.
    rewrite existsb_has_connector_fix.
    eapply placed_holds_selected; eauto.
Qed.

(** ** The toggle after the flow *)

Lemma destroy_tg w : tg (destroy w) = destroyed (tg w).
Proof. unfold destroy, logInfo. now autorewrite with registry. Qed.

Lemma disableToggle_tg reason w :
  proxy (tg w) = true -> tg (_disableToggle reason w) = disabled (tg w).
Proof.
  intros Hp. unfold _disableToggle, logError. rewrite Hp. cbn [negb].
  now autorewrite with registry.
Qed.

Lemma getMonitorConfig_tg reply w :
  tg (_getMonitorConfig reply w) = after_fetch reply (tg w).
Proof.
  unfold after_fetch.
  destruct (proxy (tg w)) eqn:Hp;
    [|now rewrite !getMonitorConfig_dead].
  destruct (torn_down reply) eqn:Htd.
  - unfold _getMonitorConfig, logStep, logDebug.
    autorewrite with registry. cbn [tg start]. rewrite Hp, Htd. cbn [negb].
    now rewrite !destroy_tg; autorewrite with registry.
  - destruct (result reply) as [s mons lms props|err] eqn:Hres.
    + rewrite (@getMonitorConfig_ok_tg reply w s mons lms props Hp Htd Hres).
      now rewrite (@getMonitorConfig_ok_tg reply (start (tg w) false)
                     s mons lms props Hp Htd Hres).
    + rewrite (@getMonitorConfig_error_tg reply w err Hp Htd Hres).
      now rewrite (@getMonitorConfig_error_tg reply (start (tg w) false)
                     err Hp Htd Hres).
Qed.

Lemma after_fetch_torn reply t :
  proxy t = true -> torn_down reply = true -> after_fetch reply t = destroyed t.
Proof.
  intros Hp Htd. unfold after_fetch, _getMonitorConfig, logStep, logDebug.
  cbn [tg start]. rewrite Hp. cbn [negb]. rewrite Htd.
  rewrite destroy_tg. now autorewrite with registry.
Qed.

Lemma after_fetch_ok reply t s mons lms props :
  proxy t = true -> torn_down reply = false ->
  result reply = FetchOk s mons lms props ->
  after_fetch reply t
  = let t' := ingest t s mons (fixPrimaryFlags lms) props in
    set_sensitive true (set_checked (isActive t') t').
Proof.
  intros Hp Htd Hr. unfold after_fetch.
  now rewrite (@getMonitorConfig_ok_tg reply (start t false)
                 s mons lms props Hp Htd Hr).
Qed.

Lemma after_fetch_error reply t e :
  proxy t = true -> torn_down reply = false -> result reply = FetchError e ->
  after_fetch reply t = disabled t.
Proof.
  intros Hp Htd Hr. unfold after_fetch.
  now rewrite (@getMonitorConfig_error_tg reply (start t false) e Hp Htd Hr).
Qed.

Lemma after_fetch_dead reply t : proxy t = false -> after_fetch reply t = t.
Proof.
  intros Hp. unfold after_fetch. now rewrite getMonitorConfig_dead.
Qed.

Lemma toggle_act_tg env w :
  proxy (tg w) = true -> tg (act env w) = act_registry env (tg w).
Proof.
  intros Hp.
  unfold toggle_act, act_registry, logStep, logDebug, logInfo, logError.
  rewrite Hp. cbn [negb].
  set (w1 := if isActive (tg w) then _ else _).
  assert (tg w1 = tg w) as Ht.
  { subst w1. destruct (isActive (tg w)); [|destruct (hasSnapshot (tg w))];
      now rewrite ?emit_tg. }
  destruct (plan (tg w) (xmlConf env)) as [L|r|r].
  - rewrite emit_tg, Ht, Hp. cbn [negb].
    destruct (torn_down (applied env)).
    { rewrite destroy_tg. autorewrite with registry. now rewrite Ht. }
    destruct (result (applied env)).
    + assert (tg (_scheduleConfigRefresh
                    (_updateIndicatorVisibility
                       (with_tg (set_checked (negb (isActive (tg w)))
                                   (tg (_emit INFO "toggle.action.apply.success"
                                          (emit_event
                                             (ApplyMonitorsConfig (serial (tg w))
                                                (persistenceMode (tg w)) L
                                                (propertiesToApply (tg w)))
                                             (_emit DEBUG "step" w1)))))
                          (_emit INFO "toggle.action.apply.success"
                             (emit_event
                                (ApplyMonitorsConfig (serial (tg w))
                                   (persistenceMode (tg w)) L
                                   (propertiesToApply (tg w)))
                                (_emit DEBUG "step" w1))))))
              = set_checked (negb (isActive (tg w))) (tg w)) as E.
      { rewrite scheduleConfigRefresh_tg. autorewrite with registry.
        now rewrite Ht. }
      destruct (negb (isActive (tg w))); [|exact E].
      unfold _resetTimeout. now rewrite emit_event_tg.
    + rewrite scheduleConfigRefresh_tg, disableToggle_tg;
        autorewrite with registry; now rewrite Ht.
  - rewrite getMonitorConfig_tg. autorewrite with registry. now rewrite Ht.
  - rewrite disableToggle_tg; [now rewrite Ht|now rewrite Ht].
Qed.

Lemma toggle_registry env t en :
  proxy t = true -> toggling t = false ->
  tg (toggle env (start t en))
  = set_toggling false
      (if torn_down (fetched env) then fetched_registry env t
       else act_registry env (fetched_registry env t)).
Proof.
  intros Hp Htg. rewrite (@toggle_tg env t en Hp Htg). f_equal.
  pose proof (fetched_registry_alive env t) as Hal. rewrite Hp in Hal.
  cbn [andb] in Hal. rewrite <- (fetched_registry_any env t en) in *.
  destruct (torn_down (fetched env)); cbn [negb] in Hal.
  - unfold toggle_act. now rewrite Hal.
  - now apply toggle_act_tg.
Qed.

(** X8. How a toggle that was not torn down ends. The guard flag is
    released. After an accepted submission the toggle is checked exactly
    when the monitor was inactive before, a refresh is armed at 1200 ms, and
    the make-primary prompt is armed at 1500 ms exactly when the monitor was
    enabled. After a rejected submission, and when planning makes the toggle
    inert, the toggle is unchecked and insensitive; a rejected submission
    still arms the refresh, and never the prompt. In all these cases the
    monitors, the layout, the selection and the snapshot of the registry are
    those the first fetch left. *)
Theorem toggle_outcome t en env :
  proxy t = true -> toggling t = false ->
  torn_down (fetched env) = false -> torn_down (applied env) = false ->
  let t1 := fetched_registry env t in
  let t' := tg (toggle env (start t en)) in
  let es := effects (toggle env) t en in
  toggling t' = false /\
  (forall L,
      plan t1 (xmlConf env) = Candidate L ->
      let submission :=
        ApplyMonitorsConfig (serial t1) (persistenceMode t1) L
                            (propertiesToApply t1) in
      monitors t' = monitors t1 /\ logicalMonitors t' = logicalMonitors t1 /\
      monitor t' = monitor t1 /\ snapshot t' = snapshot t1 /\
      (result (applied env) = ApplyOk ->
       checked t' = negb (isActive t1) /\ sensitive t' = sensitive t1 /\
       calls es
       = (GetCurrentState :: submission ::
          TimeoutSet "_configRefreshTimeoutId" 1200 ::
          if isActive t1 then []
          else [TimeoutSet "_primaryDialogTimeoutId" 1500])) /\
      (forall e, result (applied env) = ApplyError e ->
       checked t' = false /\ sensitive t' = false /\
       calls es
       = [GetCurrentState; submission;
          TimeoutSet "_configRefreshTimeoutId" 1200])) /\
  (forall reason,
      plan t1 (xmlConf env) = Inert reason ->
      monitors t' = monitors t1 /\ logicalMonitors t' = logicalMonitors t1 /\
      monitor t' = monitor t1 /\ snapshot t' = snapshot t1 /\
      checked t' = false /\ sensitive t' = false /\
      calls es = [GetCurrentState]).
Proof.
  intros Hp Htg Hf Ha t1 t' es. subst t' es.
  rewrite (@toggle_registry env t en Hp Htg), made_toggle.
  unfold toggle_trace, act_trace, act_registry. fold t1.
  rewrite Hp, Htg, Hf, Ha. cbn [negb orb].
  split; [reflexivity|]. split.
  - intros L ->. cbv zeta.
    destruct (result (applied env)) as [|e0].
    + repeat split; try reflexivity; intros; discriminate.
    + repeat split; try reflexivity; intros; discriminate.
  - intros reason ->. repeat split; reflexivity.
Qed.

(** X9. A toggle torn down while it waits does nothing more: torn down
    during its fetch it has made that one call, torn down during its
    submission it has made the fetch and the submission, and in both cases
    it arms no timer; the guard flag is released all the same. Likewise
    for make-primary. *)
Theorem torn_down_flow_makes_no_further_call t en :
  proxy t = true ->
  (forall env,
      toggling t = false ->
      let t1 := fetched_registry env t in
      let t' := tg (toggle env (start t en)) in
      let es := effects (toggle env) t en in
      (torn_down (fetched env) = true ->
       calls es = [GetCurrentState] /\
       t' = set_toggling false (destroyed (set_toggling true t))) /\
      (torn_down (fetched env) = false -> torn_down (applied env) = true ->
       forall L, plan t1 (xmlConf env) = Candidate L ->
       calls es = [GetCurrentState;
                   ApplyMonitorsConfig (serial t1) (persistenceMode t1) L
                                       (propertiesToApply t1)] /\
       t' = set_toggling false (destroyed t1))) /\
  (forall target env,
      let es := effects (_makePrimary target env) t en in
      (torn_down (p_fetched env) = true -> calls es = [GetCurrentState]) /\
      (torn_down (p_fetched env) = false -> torn_down (p_applied env) = true ->
       forall s m L lp, In (ApplyMonitorsConfig s m L lp) es ->
       calls es = [GetCurrentState; ApplyMonitorsConfig s m L lp])).
Proof.
  intros Hp. split.
  - intros env Htg t1 t' es. subst t' es.
    rewrite (@toggle_registry env t en Hp Htg), made_toggle.
    unfold toggle_trace, act_trace, act_registry. fold t1.
    rewrite Hp, Htg. cbn [negb orb]. split.
    + intros Hf. rewrite Hf. split; [reflexivity|]. f_equal.
      subst t1. unfold fetched_registry, toggle_fetch, logInfo.
      rewrite getMonitorConfig_tg. autorewrite with registry.
      now apply after_fetch_torn.
    + intros Hf Ha L HL. now rewrite Hf, HL, Ha.
  - intros target env es. subst es. rewrite made_makePrimary.
    unfold makePrimary_trace. rewrite Hp. cbn [negb]. split.
    + now intros ->.
    + intros Hf Ha s m L lp Hin.
      destruct (@makePrimary_submission target env t en s m L lp Hin)
        as [_ [_ [Hne [-> [-> [-> ->]]]]]].
      rewrite Hf, Ha.
      destruct (keep_some _); [congruence|reflexivity].
Qed.

(** ** What a fetch leaves *)


Lemma select_monitor_listed saved (mons : list PhysicalMonitor) current :
  opt_truthy current = false -> mons <> [] ->
  exists p, In p mons /\ select_monitor saved mons current = Some (connector p).
Proof.
  intros Hc Hne. unfold select_monitor. rewrite Hc. cbn [negb andb].
  destruct mons as [|p0 rest]; [congruence|]. cbn [length Nat.ltb Nat.leb].
  destruct (str_truthy saved && existsb _ (p0 :: rest)) eqn:E.
  - apply andb_true_iff in E. destruct E as [_ E].
    apply existsb_exists in E. destruct E as [p [Hin Heq]].
    apply String.eqb_eq in Heq. exists p. split; [exact Hin|]. now rewrite Heq.
  - destruct rest as [|p1 rest'].
    + exists p0. split; [now left|reflexivity].
    + exists p1. split; [right; now left|reflexivity].
Qed.

(** X11. The connector the toggle controls is chosen once. A selection
    that is set survives every fetch that is not a teardown, whatever the
    service reports. A fetch chooses one only when none is set and the
    service lists a monitor: the connector saved in the settings when it is
    not empty and listed, otherwise the connector of the only monitor, or of
    the second one when there are several; the chosen connector is always
    one of those listed. *)
Theorem selection_is_made_once t reply :
  torn_down reply = false ->
  let t' := after_fetch reply t in
  (forall c, monitor t = Some c -> c <> "" -> monitor t' = Some c) /\
  (forall s mons lms props,
      proxy t = true -> opt_truthy (monitor t) = false ->
      result reply = FetchOk s mons lms props ->
      (mons = [] -> monitor t' = monitor t) /\
      (mons <> [] ->
       exists p, In p mons /\ monitor t' = Some (connector p)) /\
      (savedConnector t <> "" ->
       (exists p, In p mons /\ connector p = savedConnector t) ->
       monitor t' = Some (savedConnector t)) /\
      (savedConnector t = "" \/
       (forall p, In p mons -> connector p <> savedConnector t) ->
       (forall p, mons = [p] -> monitor t' = Some (connector p)) /\
       (forall p q rest, mons = p :: q :: rest ->
                         monitor t' = Some (connector q)))).
Proof.
  intros Htd t'. subst t'. split.
  - intros c Hm Hc.
    destruct (proxy t) eqn:Hp; [|now rewrite after_fetch_dead].
    destruct (result reply) as [s mons lms props|e] eqn:Hr.
    + rewrite (@after_fetch_ok reply t s mons lms props Hp Htd Hr).
      cbn. rewrite Hm. now apply select_monitor_kept.
    + now rewrite (@after_fetch_error reply t e Hp Htd Hr).
  - intros s mons lms props Hp Hm Hr.
    rewrite (@after_fetch_ok reply t s mons lms props Hp Htd Hr).
    cbn [monitor set_sensitive set_checked ingest].
    split; [|split; [|split]].
    + intros ->. unfold select_monitor. rewrite Hm. reflexivity.
    + intros Hne. now apply select_monitor_listed.
    + intros Hs [p [Hin Hp']]. unfold select_monitor. rewrite Hm.
      cbn [negb andb].
      assert ((0 <? length mons)%nat = true) as Hl
          by (destruct mons; [contradiction|reflexivity]).
      rewrite Hl.
      assert (str_truthy (savedConnector t) = true) as ->
          by now apply str_truthy_iff.
      assert (existsb (fun m => String.eqb (connector m) (savedConnector t))
                      mons = true) as ->.
      { apply existsb_exists. exists p. split; [exact Hin|].
        now apply String.eqb_eq. }
      reflexivity.
    + intros Hno.
      assert (str_truthy (savedConnector t)
              && existsb (fun m => String.eqb (connector m) (savedConnector t))
                         mons = false) as E.
      { destruct Hno as [Hs|Hs].
        - rewrite Hs. reflexivity.
        - apply andb_false_iff. right. apply existsb_false_Forall.
          apply Forall_forall. intros p Hin. apply String.eqb_neq. auto. }
      split.
      * intros p ->. unfold select_monitor. rewrite Hm. cbn [negb andb length].
        cbn [Nat.ltb Nat.leb]. now rewrite E.
      * intros p q rest ->. unfold select_monitor. rewrite Hm.
        cbn [negb andb length]. cbn [Nat.ltb Nat.leb]. now rewrite E.
Qed.

(** ** The snapshot a fetch takes *)

Lemma snap_get_set (k c : string) (v : SnapEntry Scale) snapshot0 :
  snap_get c (snap_set k v snapshot0)
  = if String.eqb k c then Some v else snap_get c snapshot0.
Proof.
  induction snapshot0 as [|[k0 v0] rest IH]; simpl.
  - reflexivity.
  - destruct (String.eqb k0 k) eqn:E0; simpl.
    + apply String.eqb_eq in E0. subst k0.
      destruct (String.eqb k c); reflexivity.
    + rewrite IH. destruct (String.eqb k0 c) eqn:E1; [|reflexivity].
      apply String.eqb_eq in E1. subst k0.
      destruct (String.eqb k c) eqn:E2; [|reflexivity].
      apply String.eqb_eq in E2. subst k. now rewrite String.eqb_refl in E0.
Qed.

Lemma snap_set_keys (k : string) (v : SnapEntry Scale) snapshot0 :
  map fst (snap_set k v snapshot0)
  = if existsb (String.eqb k) (map fst snapshot0) then map fst snapshot0
    else (map fst snapshot0 ++ [k])%list.
Proof.
  induction snapshot0 as [|[k0 v0] rest IH]; simpl; [reflexivity|].
  rewrite (String.eqb_sym k k0).
  destruct (String.eqb k0 k) eqn:E0; simpl; [reflexivity|].
  rewrite IH. destruct (existsb (String.eqb k) (map fst rest)); reflexivity.
Qed.

Lemma snap_set_NoDup (k : string) (v : SnapEntry Scale) snapshot0 :
  NoDup (map fst snapshot0) -> NoDup (map fst (snap_set k v snapshot0)).
Proof.
  intros Hnd. rewrite snap_set_keys.
  destruct (existsb (String.eqb k) (map fst snapshot0)) eqn:E; [exact Hnd|].
  apply NoDup_app; [exact Hnd|repeat constructor; simpl; tauto|].
  intros a Ha [Hk|[]]. subst a.
  assert (existsb (String.eqb k) (map fst snapshot0) = true) as E'.
  { apply existsb_exists. exists k. split; [exact Ha|apply String.eqb_refl]. }
  congruence.
Qed.

Lemma snap_set_In_keys (k c : string) (v : SnapEntry Scale) snapshot0 :
  In c (map fst (snap_set k v snapshot0)) <-> c = k \/ In c (map fst snapshot0).
Proof.
  rewrite snap_set_keys.
  destruct (existsb (String.eqb k) (map fst snapshot0)) eqn:E.
  - split; [now right|]. intros [->|H]; [|exact H].
    apply existsb_exists in E. destruct E as [k' [Hin Hk]].
    apply String.eqb_eq in Hk. now subst.
  - rewrite in_app_iff. simpl. split.
    + intros [H|[<-|[]]]; auto.
    + intros [->|H]; auto.
Qed.

Lemma take_snapshot_writes (mons : list PhysicalMonitor) lms snapshot0 :
  fold_left
    (fun snap lm =>
       fold_left
         (fun snap m =>
            snap_set (a_connector m)
                     (snapshot_entry mons lm (a_connector m)) snap)
         (assignments lm) snap)
    lms snapshot0
  = fold_left (fun snap kv => snap_set (fst kv) (snd kv) snap)
              (snapshot_writes mons lms) snapshot0.
Proof.
  revert snapshot0. induction lms as [|lm rest IH]; intros snapshot0;
    [reflexivity|].
  simpl. rewrite fold_left_app, IH. f_equal.
  generalize (assignments lm) snapshot0.
  induction l as [|m ms IHm]; intros s0; [reflexivity|]. simpl. apply IHm.
Qed.

Lemma writes_NoDup (ws : list (string * SnapEntry Scale)) snapshot0 :
  NoDup (map fst snapshot0) ->
  NoDup (map fst (fold_left (fun snap kv => snap_set (fst kv) (snd kv) snap)
                            ws snapshot0)).
Proof.
  revert snapshot0. induction ws as [|[k v] ws IH]; intros s0 Hnd;
    [exact Hnd|].
  simpl. apply IH. now apply snap_set_NoDup.
Qed.

Lemma writes_keys (ws : list (string * SnapEntry Scale)) snapshot0 c :
  In c (map fst (fold_left (fun snap kv => snap_set (fst kv) (snd kv) snap)
                           ws snapshot0))
  <-> In c (map fst snapshot0) \/ In c (map fst ws).
Proof.
  revert snapshot0. induction ws as [|[k v] ws IH]; intros s0; simpl.
  - tauto.
  - rewrite IH, snap_set_In_keys. intuition congruence.
Qed.

Lemma find_app (A : Type) (p : A -> bool) l1 l2 :
  find p (l1 ++ l2) = match find p l1 with
                      | Some a => Some a
                      | None => find p l2
                      end.
Proof.
  induction l1 as [|a l1 IH]; simpl; [reflexivity|].
  destruct (p a); [reflexivity|exact IH].
Qed.

Lemma writes_last_wins (ws : list (string * SnapEntry Scale)) snapshot0 c :
  snap_get c (fold_left (fun snap kv => snap_set (fst kv) (snd kv) snap)
                        ws snapshot0)
  = match find (fun kv => String.eqb (fst kv) c) (rev ws) with
    | Some kv => Some (snd kv)
    | None => snap_get c snapshot0
    end.
Proof.
  revert snapshot0. induction ws as [|[k v] ws IH]; intros s0; simpl;
    [reflexivity|].
  rewrite IH, find_app. simpl.
  destruct (find (fun kv => String.eqb (fst kv) c) (rev ws));
    [reflexivity|].
  rewrite snap_get_set. destruct (String.eqb k c); reflexivity.
Qed.

Lemma rev_snapshot_writes (mons : list PhysicalMonitor) lms :
  rev (snapshot_writes mons lms)
  = flat_map (fun lm =>
                rev (map (fun m => (a_connector m,
                                    snapshot_entry mons lm (a_connector m)))
                         (assignments lm)))
             (rev lms).
Proof.
  unfold snapshot_writes. induction lms as [|lm rest IH]; [reflexivity|].
  simpl. rewrite rev_app_distr, IH, flat_map_app. simpl.
  now rewrite app_nil_r.
Qed.

Lemma find_write_of_holder (mons : list PhysicalMonitor) c
      (lm : LogicalMonitor Scale) :
  find (fun kv => String.eqb (fst kv) c)
       (rev (map (fun m => (a_connector m,
                            snapshot_entry mons lm (a_connector m)))
                 (assignments lm)))
  = if has_connector (Some c) lm then Some (c, snapshot_entry mons lm c)
    else None.
Proof.
  unfold has_connector.
  induction (assignments lm) as [|m ms IH]; [reflexivity|].
  simpl. rewrite find_app, IH. simpl.
  destruct (existsb (fun a => String.eqb (a_connector a) c) ms).
  - now rewrite orb_true_r.
  - rewrite orb_false_r. destruct (String.eqb (a_connector m) c) eqn:E;
      [|reflexivity].
    apply String.eqb_eq in E. now subst.
Qed.

Lemma find_last_write (mons : list PhysicalMonitor) c lms :
  find (fun kv => String.eqb (fst kv) c) (rev (snapshot_writes mons lms))
  = option_map (fun lm => (c, snapshot_entry mons lm c)) (last_holder c lms).
Proof.
  rewrite rev_snapshot_writes. unfold last_holder.
  induction (rev lms) as [|lm rest IH]; [reflexivity|].
  cbn [flat_map find]. rewrite find_app, find_write_of_holder.
  destruct (has_connector (Some c) lm); [reflexivity|exact IH].
Qed.

Lemma take_snapshot_get (mons : list PhysicalMonitor) lms c :
  snap_get c (take_snapshot mons lms)
  = option_map (fun lm => snapshot_entry mons lm c) (last_holder c lms).
Proof.
  unfold take_snapshot. rewrite take_snapshot_writes, writes_last_wins.
  rewrite find_last_write. now destruct (last_holder c lms).
Qed.

Lemma take_snapshot_NoDup (mons : list PhysicalMonitor) lms :
  NoDup (map fst (take_snapshot mons lms)).
Proof.
  unfold take_snapshot. rewrite take_snapshot_writes.
  apply writes_NoDup. constructor.
Qed.

Lemma take_snapshot_keys (mons : list PhysicalMonitor) lms c :
  In c (map fst (take_snapshot mons lms))
  <-> exists lm, In lm lms /\ has_connector (Some c) lm = true.
Proof.
  unfold take_snapshot. rewrite take_snapshot_writes, writes_keys.
  unfold snapshot_writes. simpl. split.
  - intros [[]|H]. apply in_map_iff in H. destruct H as [[k v] [Hk H]].
    simpl in Hk. subst k. apply in_flat_map in H. destruct H as [lm [Hlm H]].
    apply in_map_iff in H. destruct H as [m [Hm Hin]].
    inversion Hm; subst. exists lm. split; [exact Hlm|].
    apply has_connector_iff. now exists m.
  - intros [lm [Hlm Hc]]. right. apply has_connector_iff in Hc.
    destruct Hc as [m [Hm Hc]]. subst c.
    apply in_map_iff.
    exists (a_connector m, snapshot_entry mons lm (a_connector m)).
    split; [reflexivity|]. apply in_flat_map. exists lm. split; [exact Hlm|].
    apply in_map_iff. now exists m.
Qed.

(** X12. The snapshot taken by a fetch that reports every listed monitor
    as assigned. Its keys are the connectors assigned in the reply, each
    once; every listed monitor has an entry; and the entry of a connector
    records the position, scale, transform and primary flag of the last
    logical monitor of the repaired reply that holds the connector, with the
    id of the first mode of its monitor flagged current, if any. *)
Theorem covering_fetch_records_every_monitor t reply s mons lms props :
  proxy t = true -> torn_down reply = false ->
  result reply = FetchOk s mons lms props ->
  mons <> [] -> full_coverage mons lms ->
  let taken := snapshot (after_fetch reply t) in
  NoDup (map fst taken) /\
  (forall c, In c (map fst taken)
             <-> existsb (has_connector (Some c)) lms = true) /\
  (forall p, In p mons -> exists e, snap_get (connector p) taken = Some e) /\
  (forall c, snap_get c taken
             = option_map (fun lm => snapshot_entry mons lm c)
                          (last_holder c (fixPrimaryFlags lms))).
Proof.
  intros Hp Htd Hr Hne Hcov taken.
  assert (taken = take_snapshot mons (fixPrimaryFlags lms)) as ->.
  { subst taken.
    rewrite (@after_fetch_ok reply t s mons lms props Hp Htd Hr).
    cbn [snapshot set_sensitive set_checked ingest].
    assert (allActive mons (fixPrimaryFlags lms) = true) as ->; [|reflexivity].
    apply allActive_iff. split; [exact Hne|].
    now apply full_coverage_fixPrimaryFlags. }
  assert (forall c, In c (map fst (take_snapshot mons (fixPrimaryFlags lms)))
                    <-> existsb (has_connector (Some c)) lms = true) as Hkeys.
  { intros c. rewrite take_snapshot_keys.
    rewrite <- (existsb_has_connector_fix (Some c) lms).
    rewrite existsb_exists. reflexivity. }
  split; [apply take_snapshot_NoDup|].
  split; [exact Hkeys|].
  split; [|intros c; apply take_snapshot_get].
  intros p Hin.
  destruct (snap_get (connector p) (take_snapshot mons (fixPrimaryFlags lms)))
    as [e|] eqn:Eg; [now exists e|].
  exfalso.
  assert (In (connector p)
             (map fst (take_snapshot mons (fixPrimaryFlags lms)))) as Hk.
  { apply Hkeys. apply existsb_exists.
    destruct (Hcov p Hin) as [lm [a [Hlm [Ha Hc]]]].
    exists lm. split; [exact Hlm|]. apply has_connector_iff. now exists a. }
  apply in_map_iff in Hk. destruct Hk as [[k v] [Hk Hin']]. simpl in Hk.
  subst k. clear - Eg Hin'.
  induction (take_snapshot mons (fixPrimaryFlags lms)) as [|[k0 v0] rest IH];
    [contradiction|].
  simpl in Eg. destruct (String.eqb k0 (connector p)) eqn:E; [discriminate|].
  destruct Hin' as [H|H]; [|auto].
  inversion H; subst. now rewrite String.eqb_refl in E.
Qed.

(** ** Invariants of the registry, and the end of its life *)

Lemma after_fetch_single_primary reply t :
  single_primary t -> single_primary (after_fetch reply t).
Proof.
  intros H. unfold single_primary, after_fetch.
  now apply fetch_single_primary.
Qed.

Lemma act_registry_single_primary env t1 :
  single_primary t1 -> single_primary (act_registry env t1).
Proof.
  intros H. unfold act_registry.
  destruct (plan t1 (xmlConf env)); [| |exact H].
  - destruct (torn_down (applied env));
      [unfold single_primary, primary_count; simpl; lia|].
    destruct (result (applied env)); exact H.
  - now apply after_fetch_single_primary.
Qed.

Lemma fetched_registry_after env t :
  fetched_registry env t = after_fetch (fetched env) (set_toggling true t).
Proof.
  unfold fetched_registry, toggle_fetch, logInfo.
  rewrite getMonitorConfig_tg. now autorewrite with registry.
Qed.

Lemma primary_registry_after env t :
  primary_registry env t = after_fetch (p_fetched env) t.
Proof.
  unfold primary_registry, primary_fetch, logInfo.
  rewrite getMonitorConfig_tg. now autorewrite with registry.
Qed.

Lemma makePrimary_tg target env t en :
  tg (_makePrimary target env (start t en))
  = if proxy t && negb (torn_down (p_fetched env))
    then
      match keep_some (map (retarget (primary_registry env t) target)
                           (logicalMonitors (primary_registry env t))) with
      | [] => primary_registry env t
      | _ => if torn_down (p_applied env)
             then destroyed (primary_registry env t)
             else primary_registry env t
      end
    else primary_registry env t.
Proof.
  unfold _makePrimary. change (tg (start t en)) with t.
  pose proof (primary_registry_alive env t) as Hal.
  destruct (proxy t) eqn:Hp; cbn [negb andb] in *.
  - rewrite primary_registry_any, Hal.
    destruct (torn_down (p_fetched env)); cbn [negb].
    + apply primary_registry_any.
    + destruct (keep_some _) as [|lm rest]; [apply primary_registry_any|].
      unfold logStep, logDebug, logInfo, logError.
      autorewrite with registry. rewrite primary_registry_any, Hal.
      cbn [negb].
      destruct (torn_down (p_applied env)).
      { rewrite destroy_tg. autorewrite with registry.
        now rewrite primary_registry_any. }
      destruct (result (p_applied env)).
      * rewrite scheduleConfigRefresh_tg. autorewrite with registry.
        apply primary_registry_any.
      * autorewrite with registry. apply primary_registry_any.
  - rewrite primary_registry_after. now rewrite after_fetch_dead.
Qed.

Lemma toggle_single_primary env t en :
  single_primary t -> single_primary (tg (toggle env (start t en))).
Proof.
  intros H.
  destruct (proxy t) eqn:Hp; [destruct (toggling t) eqn:Htg|].
  - unfold _toggleMonitor. cbn [tg start]. rewrite Hp, Htg. exact H.
  - rewrite (@toggle_registry env t en Hp Htg).
    assert (single_primary (fetched_registry env t)) as H1.
    { rewrite fetched_registry_after. now apply after_fetch_single_primary. }
    destruct (torn_down (fetched env)); [exact H1|].
    now apply (@act_registry_single_primary env (fetched_registry env t)).
  - unfold _toggleMonitor. cbn [tg start]. rewrite Hp. exact H.
Qed.

(** X13. The registry never holds two primaries. Whatever the service
    reports, after a fetch that succeeds on a live toggle at most one logical
    monitor of the registry is flagged primary; and a registry with at most
    one primary keeps that through every fetch, toggle, make-primary,
    MonitorsChanged signal, proxy callback and teardown. *)
Theorem registry_holds_at_most_one_primary t en :
  (forall reply s mons lms props,
      proxy t = true -> torn_down reply = false ->
      result reply = FetchOk s mons lms props ->
      single_primary (after_fetch reply t)) /\
  (single_primary t ->
   (forall reply, single_primary (tg (_getMonitorConfig reply (start t en)))) /\
   (forall env, single_primary (tg (toggle env (start t en)))) /\
   (forall target env,
       single_primary (tg (_makePrimary target env (start t en)))) /\
   (forall reply, single_primary (tg (monitors_changed reply (start t en)))) /\
   (forall error reply,
       single_primary (tg (proxy_ready error reply (start t en)))) /\
   single_primary (tg (destroy (start t en)))).
Proof.
  split.
  - intros reply s mons lms props Hp Htd Hr.
    rewrite (@after_fetch_ok reply t s mons lms props Hp Htd Hr).
    unfold single_primary. cbn. apply fixPrimaryFlags_count_le.
  - intros H. split; [|split; [|split; [|split; [|split]]]].
    + intros reply. rewrite getMonitorConfig_tg.
      now apply after_fetch_single_primary.
    + intros env. now apply toggle_single_primary.
    + intros target env. rewrite makePrimary_tg.
      assert (single_primary (primary_registry env t)) as H1.
      { rewrite primary_registry_after. now apply after_fetch_single_primary. }
      destruct (proxy t && negb (torn_down (p_fetched env))); [|exact H1].
      destruct (keep_some _); [exact H1|].
      destruct (torn_down (p_applied env)); [|exact H1].
      unfold single_primary, primary_count. simpl. lia.
    + intros reply. unfold monitors_changed, logDebug.
      autorewrite with registry.
      destruct (proxy _ && negb _).
      * rewrite getMonitorConfig_tg. autorewrite with registry.
        now apply after_fetch_single_primary.
      * now autorewrite with registry.
    + intros error reply. unfold proxy_ready, logError, logInfo.
      destruct (negb (proxy (tg (start t en)))) eqn:Hp; [exact H|].
      apply negb_false_iff in Hp.
      destruct error as [e|].
      * rewrite disableToggle_tg; now autorewrite with registry.
      * rewrite getMonitorConfig_tg. autorewrite with registry.
        now apply after_fetch_single_primary.
    + rewrite destroy_tg. unfold single_primary, primary_count. simpl. lia.
Qed.

Lemma dead_proxy_ready error reply w :
  proxy (tg w) = false -> proxy_ready error reply w = w.
Proof. intros Hp. unfold proxy_ready. now rewrite Hp. Qed.

(** X14. After [destroy] the toggle is inert. The proxy, the selection,
    the monitors, the layout and the snapshot are gone, and a fetch, a
    toggle, a make-primary, a sync, an update of the indicator, a disabling,
    the scheduling of a refresh, a refresh that fires and the proxy callback
    all return at once: they change nothing, call nothing, arm no timer and
    log nothing. A MonitorsChanged signal that still arrives writes its
    debug line and does nothing else. *)
Theorem destroyed_toggle_is_inert w :
  let d := destroy w in
  tg d = destroyed (tg w) /\
  (forall reply, _getMonitorConfig reply d = d) /\
  (forall env, toggle env d = d) /\
  (forall target env, _makePrimary target env d = d) /\
  _sync d = d /\
  _updateIndicatorVisibility d = d /\
  (forall reason, _disableToggle reason d = d) /\
  _scheduleConfigRefresh d = d /\
  (forall onSuccess reply, refresh_fired onSuccess reply d = d) /\
  (forall error reply, proxy_ready error reply d = d) /\
  (forall reply,
      monitors_changed reply d = logDebug "toggle.signal.monitors_changed" d).
Proof.
  intros d.
  assert (proxy (tg d) = false) as Hp by (subst d; now rewrite destroy_tg).
  split; [apply destroy_tg|].
  repeat split; intros.
  - now apply getMonitorConfig_dead.
  - unfold _toggleMonitor. now rewrite Hp.
  - unfold _makePrimary. now rewrite Hp.
  - unfold _sync. now rewrite Hp.
  - unfold _updateIndicatorVisibility. now rewrite Hp.
  - unfold _disableToggle. now rewrite Hp.
  - unfold _scheduleConfigRefresh. now rewrite Hp.
  - unfold refresh_fired. now rewrite Hp.
  - now apply dead_proxy_ready.
  - unfold monitors_changed, logDebug. autorewrite with registry.
    now rewrite Hp.
Qed.

(** ** The two branches at work *)

Lemma Forall2_compose (A B C : Type) (R1 : A -> B -> Prop)
      (R2 : B -> C -> Prop) (R3 : A -> C -> Prop) l1 l2 l3 :
  (forall a b c, R1 a b -> R2 b c -> R3 a c) ->
  Forall2 R1 l1 l2 -> Forall2 R2 l2 l3 -> Forall2 R3 l1 l3.
Proof.
  intros Hc H12. revert l3. induction H12 as [|a b l1 l2 Hab H12 IH];
    intros l3 H23; inversion H23; subst; constructor; eauto.
Qed.

Lemma ensure_primary_entries lms :
  Forall2 (fun a b : LogicalMonitor Scale =>
             x b = x a /\ y b = y a /\ scale b = scale a /\
             transform b = transform a /\ assignments b = assignments a /\
             properties b = properties a)
          lms (ensure_primary lms).
Proof.
  assert (forall l : Layout Scale,
             Forall2 (fun a b : LogicalMonitor Scale =>
                        x b = x a /\ y b = y a /\ scale b = scale a /\
                        transform b = transform a /\
                        assignments b = assignments a /\
                        properties b = properties a) l l) as Hrefl.
  { induction l; constructor; auto 10. }
  unfold ensure_primary. destruct (negb (existsb (@isPrimary Scale) lms));
    [|apply Hrefl].
  destruct lms as [|l0 rest]; [constructor|].
  constructor; [simpl; auto 10|apply Hrefl].
Qed.

Lemma restore_from_snapshot_entries t :
  Forall2 (restored_at t 0 0) (filter (restorable t) (snapshot t))
          (restore_from_snapshot t).
Proof.
  unfold restore_from_snapshot.
  induction (snapshot t) as [|[c s] rest IH]; [constructor|].
  cbn [filter map keep_some]. unfold restorable at 1. cbn [fst].
  unfold restore_entry.
  destruct (_resolveModeId t (Some c)) as [id|] eqn:Er; [|exact IH].
  cbn [opt_truthy]. destruct (str_truthy id) eqn:Ht; [|exact IH].
  cbn [negb].
  destruct (@resolveModeId_offered t c id Er) as [phys [Hk _]].
  apply find_first_such in Hk.
  assert (find_phys (monitors t) (Some c) = Some phys) as Hfp by exact Hk.
  apply find_phys_known in Hfp. rewrite Hfp. cbn [negb keep_some].
  constructor; [|exact IH].
  exists id. cbn. rewrite Er.
  repeat split; try lia. now apply str_truthy_iff.
Qed.

Lemma restored_at_least t dx dy entries lms :
  Forall2 (restored_at t dx dy) entries lms ->
  minimum_is (@x Scale) lms 0 -> minimum_is (@y Scale) lms 0 ->
  least_recorded (@s_x Scale) entries dx /\
  least_recorded (@s_y Scale) entries dy.
Proof.
  intros HF [[lx [Hlx Hx0]] Hxall] [[ly [Hly Hy0]] Hyall].
  split; split.
  - destruct (Forall2_In_r lx HF Hlx) as [e [He [id H]]].
    exists e. split; [exact He|]. lia.
  - intros e He. destruct (Forall2_In_l e HF He) as [lm [Hlm [id H]]].
    specialize (Hxall lm Hlm). lia.
  - destruct (Forall2_In_r ly HF Hly) as [e [He [id H]]].
    exists e. split; [exact He|]. lia.
  - intros e He. destruct (Forall2_In_l e HF He) as [lm [Hlm [id H]]].
    specialize (Hyall lm Hlm). lia.
Qed.

(** X15. Enabling from a snapshot rebuilds the recorded arrangement,
    whatever the current layout is. The submitted layout has one entry for
    each snapshot entry whose connector resolves to a non-empty mode id, in
    the order of the snapshot: that connector with its resolved mode, at the
    recorded scale and transform, at the recorded position moved by the
    least recorded x and the least recorded y. *)
Theorem enable_from_snapshot_rebuilds_arrangement t en env L :
  In L (submitted (effects (toggle env) t en)) ->
  let t1 := fetched_registry env t in
  isActive t1 = false -> hasSnapshot t1 = true ->
  let entries := filter (restorable t1) (snapshot t1) in
  submitted (effects (toggle env) t en) = [L] /\
  exists dx dy,
    least_recorded (@s_x Scale) entries dx /\
    least_recorded (@s_y Scale) entries dy /\
    Forall2 (restored_at t1 dx dy) entries L.
Proof.
  intros Hin t1 Hact Hsnap entries. rewrite submitted_toggle in *.
  destruct (negb (proxy t) || toggling t); [contradiction|].
  unfold planned_submission in *. rewrite fetched_registry_any in *.
  fold t1 in Hin |- *.
  destruct (proxy t1); [|contradiction].
  destruct (plan t1 (xmlConf env)) as [L'|r|r] eqn:Hplan; try contradiction.
  destruct Hin as [<-|[]]. split; [reflexivity|].
  destruct (@plan_enable_layout t1 (xmlConf env) L' Hact Hplan)
    as [cand [Hpl [Hne [_ HL]]]].
  unfold placed in Hpl. rewrite Hsnap in Hpl. inversion Hpl; subst cand.
  assert (ensure_primary (fixPrimaryFlags (restore_from_snapshot t1)) <> [])
    as Hne'.
  { intros E. apply (f_equal (@length _)) in E.
    rewrite ensure_primary_length, fixPrimaryFlags_length in E.
    destruct (restore_from_snapshot t1); [congruence|discriminate]. }
  destruct (normalizePositions_shift Hne') as [mx [my [_ [_ Hshift]]]].
  destruct (normalizePositions_origin Hne') as [Hx0 Hy0].
  rewrite <- HL in Hshift, Hx0, Hy0.
  assert (Forall2 (restored_at t1 0 0) entries
                  (fixPrimaryFlags (restore_from_snapshot t1))) as HF1.
  { refine (@Forall2_compose _ _ _ (restored_at t1 0 0) same_but_demoted
                               (restored_at t1 0 0) entries
                               (restore_from_snapshot t1) _ _ _ _);
      [|apply restore_from_snapshot_entries|apply fixPrimaryFlags_entries].
    intros e b c [id [H1 [H2 [H3 [H4 [H5 [H6 [H7 H8]]]]]]]]
           [S1 [S2 [S3 [S4 [S5 [S6 _]]]]]].
    exists id. rewrite S1, S2, S3, S4, S5, S6.
    repeat split; assumption. }
  assert (Forall2 (restored_at t1 0 0) entries
                  (ensure_primary
                     (fixPrimaryFlags (restore_from_snapshot t1)))) as HF2.
  { refine (@Forall2_compose _ _ _ (restored_at t1 0 0) _
                               (restored_at t1 0 0) entries
                               (fixPrimaryFlags (restore_from_snapshot t1))
                               _ _ HF1 (ensure_primary_entries _)).
    intros e b c H S.
    destruct H as [id [H1 [H2 [H3 [H4 [H5 [H6 [H7 H8]]]]]]]].
    destruct S as [S1 [S2 [S3 [S4 [S5 S6]]]]].
    exists id. rewrite S1, S2, S3, S4, S5, S6.
    repeat split; assumption. }
  assert (Forall2 (restored_at t1 mx my) entries L') as HF.
  { refine (@Forall2_compose _ _ _ (restored_at t1 0 0) (shifted_by mx my)
                               (restored_at t1 mx my) entries
                               (ensure_primary
                                  (fixPrimaryFlags (restore_from_snapshot t1)))
                               L' _ HF2 Hshift).
    intros e b c [id [H1 [H2 [H3 [H4 [H5 [H6 [H7 H8]]]]]]]]
           [S1 [S2 [S3 [S4 [S5 [S6 S7]]]]]].
    exists id. rewrite S1, S2, S3, S4, S6, S7.
    repeat split; try assumption; lia. }
  exists mx, my.
  destruct (@restored_at_least t1 mx my entries L' HF Hx0 Hy0) as [H1 H2].
  auto.
Qed.

(** X16. Disabling one of two. When, after the selected connector is
    removed, exactly one logical monitor remains and the mode of its first
    connector resolves, the toggle submits that monitor alone: at the
    origin, flagged primary, at its scale and transform, with its first
    connector and the resolved mode. *)
Theorem disable_leaves_survivor_at_origin t en env survivor c id :
  proxy t = true -> toggling t = false -> torn_down (fetched env) = false ->
  let t1 := fetched_registry env t in
  isActive t1 = true ->
  keep_some (map (strip_connector (monitor t1)) (logicalMonitors t1))
  = [survivor] ->
  first_connector survivor = Some c ->
  _resolveModeId t1 (Some c) = Some id -> id <> "" ->
  submitted (effects (toggle env) t en)
  = [[ {| x := 0; y := 0; scale := scale survivor;
          transform := transform survivor; isPrimary := true;
          assignments := single_assignment c id; properties := [] |} ]].
Proof.
  intros Hp Htg Hf t1 Hact Hstrip Hc Hr Hid.
  rewrite submitted_toggle, Hp, Htg. cbn [negb orb].
  unfold planned_submission. rewrite fetched_registry_any. fold t1.
  assert (proxy t1 = true) as ->.
  { subst t1. rewrite fetched_registry_alive, Hp, Hf. reflexivity. }
  unfold planLayout. rewrite Hact. unfold plan_disable. rewrite Hstrip.
  cbn [single_to_origin].
  assert (ensure_primary [set_position 0 0 survivor]
          = [set_isPrimary true (set_position 0 0 survivor)]) as ->.
  { unfold ensure_primary. cbn [existsb set_position isPrimary orb].
    rewrite orb_false_r.
    destruct (isPrimary survivor) eqn:E; cbn [negb promote_first];
      [|reflexivity].
    destruct survivor; simpl in *. now subst. }
  unfold finalize. cbn [map keep_some]. unfold reresolve.
  assert (first_connector (set_isPrimary true (set_position 0 0 survivor))
          = Some c) as -> by exact Hc.
  rewrite Hr. apply str_truthy_iff in Hid. rewrite Hid.
  cbn [keep_some set_isPrimary set_position x y scale transform isPrimary].
  reflexivity.
Qed.


End Properties.

(** * Examples: the theorems at concrete inputs, and what the code does
      where a claim as written fails *)

(** C3 at two flagged monitors, repaired twice. *)
Lemma fixPrimaryFlags_two_primaries :
  (exists lm, In lm two_primaries /\ isPrimary lm = true) /\
  (1 <= 2)%nat /\
  primary_count (Nat.iter 2 (@fixPrimaryFlags Q) two_primaries) = 1%nat.
Proof.
  assert (exists lm, In lm two_primaries /\ isPrimary lm = true) as H
    by (eexists; split; [left; reflexivity|reflexivity]).
  assert (1 <= 2)%nat as Hn by lia.
  split; [exact H|]. split; [exact Hn|].
  exact (proj1 (@fixPrimaryFlags_keeps_exactly_first Q two_primaries 2 H Hn)).
Defined.

(** C10 at a layout with a single primary. *)
Lemma fixPrimaryFlags_single_primary_untouched :
  (primary_count shifted_layout <= 1)%nat /\
  fixPrimaryFlags shifted_layout = shifted_layout.
Proof.
  assert (primary_count shifted_layout <= 1)%nat as H by (vm_compute; lia).
  split; [exact H|].
  exact (proj1 (@fixPrimaryFlags_frame Q shifted_layout) H).
Defined.

(** C4 at a layout whose least coordinates are (100, -30). *)
Lemma normalizePositions_shifted_layout :
  shifted_layout <> [] /\
  minimum_is (@x Q) (normalizePositions shifted_layout) 0 /\
  minimum_is (@y Q) (normalizePositions shifted_layout) 0.
Proof.
  assert (shifted_layout <> []) as H by discriminate.
  split; [exact H|].
  pose proof (@normalizePositions_origin_and_offsets Q shifted_layout H) as T.
  split; [exact (proj1 T)|exact (proj1 (proj2 T))].
Defined.

(** C5 where the selected display is the only one: nothing is submitted. *)
Lemma disabling_sole_monitor_submits_nothing :
  isActive (tg (toggle_fetch sole_env (start fresh_toggle true))) = true /\
  submitted (effects (toggleQ sole_env) fresh_toggle true) = [].
Proof.
  assert (isActive (tg (toggle_fetch sole_env (start fresh_toggle true))) = true)
    as H by reflexivity.
  split; [exact H|].
  exact (proj1 (proj2 (proj2
    (@never_submits_empty_layout Q (1%Q) round_div_Q fresh_toggle true)))
    sole_env H eq_refl).
Defined.

(** C8 at a fetch that reports the external display off: the snapshot taken
    before the disable stays. *)
Lemma fetch_without_coverage_keeps_snapshot :
  torn_down (answered external_off) = false /\
  ~ covering_reply (answered external_off) /\
  snapshot (tg (_getMonitorConfig (answered external_off)
                                  (start after_disable true)))
  = snapshot after_disable.
Proof.
  assert (~ covering_reply (answered external_off)) as H.
  { intros C. apply overwrites_iff in C. discriminate. }
  split; [reflexivity|]. split; [exact H|].
  exact (proj1 (proj1 (@snapshot_overwritten_only_under_full_coverage
                         Q (1%Q) round_div_Q after_disable true)
                      (answered external_off) eq_refl) H).
Defined.

(** C9 (as amended) at a toggle whose fetch fails, the logger enabled. *)
Lemma failed_fetch_logged_when_enabled :
  proxy fresh_toggle = true /\
  In (Console ERROR "toggle.config.fetch.error")
     (effects (toggleQ failing_env) fresh_toggle true).
Proof.
  split; [reflexivity|].
  exact (proj1 (proj2 (proj1 (@error_paths_log_only_when_enabled
                                 Q (1%Q) round_div_Q fresh_toggle) eq_refl))
           failing_env "boom" eq_refl eq_refl eq_refl).
Defined.

(** C9 as written fails: with the logger disabled, as it is until the
    debug-logging setting is switched on, the same failed fetch (and the
    toggle made inert after it) writes no line at all. *)
Lemma failed_fetch_silent_when_disabled :
  effects (toggleQ failing_env) fresh_toggle false = [GetCurrentState] /\
  (forall level event,
      ~ In (Console level event)
           (effects (toggleQ failing_env) fresh_toggle false)).
Proof.
  split; [reflexivity|].
  intros level event [H|[]]. discriminate.
Qed.

(** X24 at an enable of the external display. *)
Lemma enable_submits_single_primary :
  (primary_count (logicalMonitors fresh_toggle) <= 1)%nat /\
  (forall L, In L (submitted (effects (toggleQ enable_env) fresh_toggle true)) ->
             primary_count L = 1%nat).
Proof.
  assert (primary_count (logicalMonitors fresh_toggle) <= 1)%nat as H
    by (vm_compute; lia).
  split; [exact H|].
  intros L HL.
  exact (proj1 (proj1 (proj1 (@submitted_primary_flags Q (1%Q) round_div_Q
                                 fresh_toggle true H)
                              enable_env L HL) eq_refl)).
Defined.

(** C2. Make-primary for a connector that the fetch reports inactive
    submits a layout with no primary entry: the flag is set to [isTarget]
    (toggle.js 640-641) and, unlike both branches of the toggle
    (417-420, 491-495), nothing ensures that some entry carries it. *)
Lemma makePrimary_of_inactive_target_submits_no_primary :
  submitted (effects (_makePrimary "HDMI-1" primary_env) fresh_toggle true)
  = [[logical_at 0 0 false [on_panel]]] /\
  primary_count [logical_at 0 0 false [on_panel]] = 0%nat.
Proof. split; reflexivity. Qed.

(** C6 (as amended) at an enable beside the panel: the external display
    lands at x = 1920. *)
Lemma enable_without_snapshot_example :
  hasSnapshot (tg (toggle_fetch enable_env (start fresh_toggle true))) = false /\
  submitted (effects (toggleQ enable_env) fresh_toggle true)
  = [[logical_at 0 0 true [on_panel];
      logical_at 1920 0 false [on_external]]].
Proof.
  split; [reflexivity|].
  exact (proj1 (@enable_without_snapshot_places_right Q (1%Q) round_div_Q
                  fresh_toggle true enable_env "HDMI-1" external "m2"
                  eq_refl eq_refl eq_refl eq_refl eq_refl eq_refl eq_refl
                  eq_refl ltac:(discriminate))).
Defined.

(** C6 as written fails: with no snapshot and no current logical monitor
    the selected connector is placed at (0, 0) and submitted as primary. *)
Lemma enable_on_empty_layout_is_primary :
  hasSnapshot (tg (toggle_fetch dark_env (start fresh_toggle true))) = false /\
  logicalMonitors (tg (toggle_fetch dark_env (start fresh_toggle true))) = [] /\
  submitted (effects (toggleQ dark_env) fresh_toggle true)
  = [[logical_at 0 0 true [on_external]]] /\
  isPrimary (logical_at 0 0 true [on_external]) <> false.
Proof. repeat split; try reflexivity. discriminate. Qed.

(** C7 at the toggle that has disabled the external display: the mode id
    the snapshot records for it is the one resolved. *)
Lemma resolveModeId_recorded_mode_first :
  ~ records_empty_id after_disable (Some "HDMI-1") /\
  _resolveModeId after_disable (Some "HDMI-1") = Some "m2" /\
  resolves_as_stated after_disable (Some "HDMI-1") (Some "m2").
Proof.
  assert (~ records_empty_id after_disable (Some "HDMI-1")) as H.
  { intros [s [Hs Hid]]. vm_compute in Hs. inversion Hs; subst s.
    discriminate. }
  split; [exact H|]. split; [reflexivity|].
  exact (proj1 (@resolveModeId_priority Q after_disable (Some "HDMI-1")
                  (Some "m2") H) eq_refl).
Defined.

(** The proviso of C7 cannot be dropped: were the empty string recorded as
    a mode id and still offered by the panel, the current mode would be
    returned all the same. *)
Lemma empty_recorded_id_is_skipped :
  records_empty_id empty_id_toggle (Some "eDP-1") /\
  _resolveModeId empty_id_toggle (Some "eDP-1") = Some "m2" /\
  resolves_as_stated empty_id_toggle (Some "eDP-1") (Some "") /\
  ~ resolves_as_stated empty_id_toggle (Some "eDP-1")
      (_resolveModeId empty_id_toggle (Some "eDP-1")).
Proof.
  assert (resolves_as_stated empty_id_toggle (Some "eDP-1") (Some "")) as H.
  { eapply res_snapshot with (phys := stale_panel).
    - now constructor.
    - eexists. split; reflexivity.
    - exact I.
    - eexists. split; [left; reflexivity|reflexivity]. }
  split; [eexists; split; reflexivity|].
  split; [reflexivity|]. split; [exact H|].
  intros C. pose proof (resolves_to_functional H C) as E. discriminate.
Qed.

(** C1 (as amended) at the two monitors side by side: the external display
    is disabled, then enabled from the snapshot. *)
Lemma disable_then_enable_example :
  exists sA L lm,
    snap_get "HDMI-1"
      (snapshot (tg (toggleQ disable_env (start selected_toggle true))))
    = Some sA /\
    s_modeId sA = Some "m2" /\
    submitted (effects (toggleQ enable_env)
                 (tg (toggleQ disable_env (start selected_toggle true))) true)
    = [L] /\
    In lm L /\ has_connector (Some "HDMI-1") lm = true /\
    x lm = s_x sA /\ y lm = s_y sA /\ scale lm = s_scale sA /\
    transform lm = s_transform sA /\ isPrimary lm = s_isPrimary sA.
Proof.
  refine (proj2 (@disable_then_enable_restores_snapshot Q (1%Q) round_div_Q
            selected_toggle true disable_env enable_env "HDMI-1" "eDP-1"
            1 [panel; external]
            (logical_at 0 0 true [on_panel])
            (logical_at 1920 0 false [on_external]) []
            on_panel on_external external panel
            (mode_of "m2" 1920 1080 current_flag)
            2 [panel; external] [logical_at 0 0 true [on_panel]] []
            external panel
            eq_refl eq_refl eq_refl _ _ eq_refl eq_refl _ eq_refl eq_refl _
            eq_refl eq_refl _ _ _ _ _ eq_refl eq_refl eq_refl eq_refl
            eq_refl _ eq_refl _ _)).
  - discriminate.
  - discriminate.
  - intros p [<-|[<-|[]]]; [right|left]; reflexivity.
  - right. split; reflexivity.
  - now constructor.
  - discriminate.
  - discriminate.
  - repeat constructor. discriminate.
  - left. reflexivity.
  - eexists. split; [left; reflexivity|reflexivity].
  - discriminate.
  - repeat constructor. discriminate.
Defined.

(** C1 as written fails: with both connectors mirrored in one primary
    logical monitor the snapshot records the external display as primary and
    its mode id is still offered, yet after disabling and enabling it the
    submitted layout holds it with the primary flag cleared. *)
Lemma mirrored_roundtrip_loses_primary :
  snap_get "HDMI-1" (snapshot after_mirror_disable)
  = Some {| s_x := 0; s_y := 0; s_scale := 1%Q; s_transform := 0;
            s_isPrimary := true; s_modeId := Some "m2" |} /\
  offers external "m2" /\
  submitted (effects (toggleQ mirror_env) fresh_toggle true)
  = [[logical_at 0 0 true [on_panel]]] /\
  submitted (effects (toggleQ enable_env) after_mirror_disable true)
  = [[logical_at 0 0 true [on_panel];
      logical_at 0 0 false [on_external]]] /\
  (forall lm,
      In lm [logical_at 0 0 true [on_panel];
             logical_at 0 0 false [on_external]] ->
      has_connector (Some "HDMI-1") lm = true -> isPrimary lm <> true).
Proof.
  split; [reflexivity|].
  split; [eexists; split; [left; reflexivity|reflexivity]|].
  split; [reflexivity|]. split; [reflexivity|].
  intros lm [<-|[<-|[]]]; simpl; discriminate.
Qed.

(** * Timers: no source is leaked *)

Lemma source_remove_In id src l :
  In src (Timers.source_remove id l) <-> In src l /\ fst src <> id.
Proof.
  unfold Timers.source_remove. rewrite filter_In, negb_true_iff, Pos.eqb_neq.
  reflexivity.
Qed.

Lemma source_remove_NoDup id l :
  NoDup (map fst l) -> NoDup (map fst (Timers.source_remove id l)).
Proof.
  induction l as [|[i p] l IH]; simpl; intros H; [constructor|].
  inversion H; subst.
  destruct (negb (i =? id)%positive); simpl; [|auto].
  constructor; [|auto].
  intros Hin. apply in_map_iff in Hin. destruct Hin as [src [Hs Hin]].
  apply source_remove_In in Hin. destruct Hin as [Hin _].
  apply H2. apply in_map_iff. now exists src.
Qed.

Lemma is_live_In id p l : In (id, p) l -> Timers.is_live id l = true.
Proof.
  intros H. apply existsb_exists. exists (id, p). split; [exact H|].
  apply Pos.eqb_refl.
Qed.

Lemma NoDup_fst_functional (l : list (positive * string)) id p q :
  NoDup (map fst l) -> In (id, p) l -> In (id, q) l -> p = q.
Proof.
  induction l as [|[i r] l IH]; simpl; intros Hnd Hp Hq; [contradiction|].
  inversion Hnd; subst.
  destruct Hp as [Hp|Hp], Hq as [Hq|Hq].
  - congruence.
  - inversion Hp; subst. exfalso. apply H1. apply in_map_iff.
    now exists (id, q).
  - inversion Hq; subst. exfalso. apply H1. apply in_map_iff.
    now exists (id, p).
  - auto.
Qed.

Lemma clearTimeout_proxy prop s :
  Timers.proxy (Timers._clearTimeout prop s) = Timers.proxy s.
Proof.
  unfold Timers._clearTimeout. now destruct (Timers.fields s prop).
Qed.

Lemma clearTimeout_cleared prop s :
  Timers.fields (Timers._clearTimeout prop s) prop = None.
Proof.
  unfold Timers._clearTimeout.
  destruct (Timers.fields s prop) eqn:E; [|exact E].
  cbn. unfold Timers.set_field. now rewrite String.eqb_refl.
Qed.

Lemma clearTimeout_keeps_cleared prop q s :
  Timers.fields s q = None ->
  Timers.fields (Timers._clearTimeout prop s) q = None.
Proof.
  intros H. unfold Timers._clearTimeout.
  destruct (Timers.fields s prop) eqn:E; [|exact H].
  cbn. unfold Timers.set_field. now destruct (String.eqb q prop).
Qed.

Lemma clearTimeout_live prop s src :
  In src (Timers.live (Timers._clearTimeout prop s)) ->
  In src (Timers.live s).
Proof.
  unfold Timers._clearTimeout. destruct (Timers.fields s prop); [|auto].
  cbn. intros H. now apply source_remove_In in H.
Qed.

Lemma clearTimeout_agree prop s :
  Timers.agree s -> Timers.agree (Timers._clearTimeout prop s).
Proof.
  intros [Hf [Hnd [Hlt [Hpr Hm]]]]. unfold Timers._clearTimeout.
  destruct (Timers.fields s prop) as [id|] eqn:E;
    [|repeat split; auto; apply Hf].
  assert (In (id, prop) (Timers.live s)) as Hin by now apply Hf.
  unfold Timers.agree. cbn.
  split; [|split; [|split; [|split]]].
  - intros p i. unfold Timers.set_field. rewrite source_remove_In. cbn.
    destruct (String.eqb p prop) eqn:Ep.
    + apply String.eqb_eq in Ep. subst p. split; [discriminate|].
      intros [Hi Hne]. apply Hf in Hi. congruence.
    + rewrite Hf. split; [|tauto]. intros Hi. split; [exact Hi|].
      intros ->. apply String.eqb_neq in Ep. apply Ep.
      now apply (@NoDup_fst_functional (Timers.live s) id p prop Hnd Hi Hin).
  - now apply source_remove_NoDup.
  - intros src Hs. apply source_remove_In in Hs. now apply Hlt.
  - intros src Hs. apply source_remove_In in Hs. now apply Hpr.
  - now rewrite (@is_live_In id prop (Timers.live s) Hin).
Qed.

Lemma resetTimeout_agree prop s :
  prop = "_configRefreshTimeoutId" \/ prop = "_primaryDialogTimeoutId" ->
  Timers.agree s -> Timers.agree (Timers._resetTimeout prop s).
Proof.
  intros Hprop Hc. unfold Timers._resetTimeout. cbv zeta.
  pose proof (clearTimeout_cleared prop s) as Hnone.
  apply (clearTimeout_agree prop) in Hc.
  destruct Hc as [Hf [Hnd [Hlt [Hpr Hm]]]].
  set (s1 := Timers._clearTimeout prop s) in *.
  unfold Timers.agree. cbn.
  split; [|split; [|split; [|split]]].
  - intros p i. unfold Timers.set_field. rewrite in_app_iff. cbn.
    destruct (String.eqb p prop) eqn:Ep.
    + apply String.eqb_eq in Ep. subst p. split.
      * intros H. inversion H; subst. right. now left.
      * intros [H|[H|[]]]; [|now inversion H].
        apply Hf in H. congruence.
    + rewrite Hf. split; [tauto|]. intros [H|[H|[]]]; [exact H|].
      inversion H; subst. now rewrite String.eqb_refl in Ep.
  - rewrite map_app. cbn.
    apply NoDup_app; [exact Hnd|repeat constructor; simpl; tauto|].
    intros a Ha [Hk|[]]. subst a.
    apply in_map_iff in Ha. destruct Ha as [src [Hs Hin]].
    apply Hlt in Hin. rewrite Hs in Hin. lia.
  - intros src Hs. apply in_app_iff in Hs. destruct Hs as [Hs|[<-|[]]].
    + apply Hlt in Hs. lia.
    + cbn. lia.
  - intros src Hs. apply in_app_iff in Hs. destruct Hs as [Hs|[<-|[]]];
      [now apply Hpr|exact Hprop].
  - exact Hm.
Qed.

Lemma resetTimeout_proxy prop s :
  Timers.proxy (Timers._resetTimeout prop s) = Timers.proxy s.
Proof. unfold Timers._resetTimeout. cbn. apply clearTimeout_proxy. Qed.

Lemma dispatch_agree id s :
  Timers.agree s -> Timers.agree (Timers.dispatch id s).
Proof.
  intros [Hf [Hnd [Hlt [Hpr Hm]]]]. unfold Timers.dispatch.
  destruct (find _ (Timers.live s)) as [[i prop]|] eqn:E;
    [|repeat split; auto; apply Hf].
  apply find_some in E. destruct E as [Hin Hi].
  apply Pos.eqb_eq in Hi. cbn in Hi. subst i.
  unfold Timers.agree. cbn.
  split; [|split; [|split; [|split]]].
  - intros p i. unfold Timers.set_field. rewrite source_remove_In. cbn.
    destruct (String.eqb p prop) eqn:Ep.
    + apply String.eqb_eq in Ep. subst p. split; [discriminate|].
      intros [Hi Hne]. exfalso. apply Hne.
      apply Hf in Hi. apply Hf in Hin. congruence.
    + rewrite Hf. split; [|tauto]. intros Hi. split; [exact Hi|].
      intros ->. apply String.eqb_neq in Ep. apply Ep.
      now apply (@NoDup_fst_functional (Timers.live s) id p prop Hnd Hi Hin).
  - now apply source_remove_NoDup.
  - intros src Hs. apply source_remove_In in Hs. now apply Hlt.
  - intros src Hs. apply source_remove_In in Hs. now apply Hpr.
  - exact Hm.
Qed.

Lemma destroy_consistent s :
  Timers.agree s ->
  Timers.consistent (Timers.destroy s) /\
  Timers.live (Timers.destroy s) = [] /\
  Timers.proxy (Timers.destroy s) = false.
Proof.
  intros Hc. unfold Timers.destroy. cbv zeta.
  set (s0 := {| Timers.proxy := false; Timers.fields := Timers.fields s;
                Timers.live := Timers.live s; Timers.next := Timers.next s;
                Timers.misses := Timers.misses s |}).
  set (s1 := Timers._clearTimeout "_configRefreshTimeoutId" s0).
  set (s2 := Timers._clearTimeout "_primaryDialogTimeoutId" s1).
  assert (Timers.agree s2) as H2.
  { subst s2 s1. now apply clearTimeout_agree, clearTimeout_agree. }
  assert (Timers.live s2 = []) as Hlive.
  { destruct (Timers.live s2) as [|[i p] rest] eqn:El; [reflexivity|].
    exfalso.
    assert (In (i, p) (Timers.live s2)) as Hin by (rewrite El; now left).
    destruct H2 as [Hf2 [_ [_ [Hpr2 _]]]].
    destruct (Hpr2 _ Hin) as [Hp|Hp]; cbn in Hp; subst p;
      apply Hf2 in Hin.
    - subst s2. rewrite clearTimeout_keeps_cleared in Hin; [discriminate|].
      apply clearTimeout_cleared.
    - subst s2. rewrite clearTimeout_cleared in Hin. discriminate. }
  split; [split; [exact H2|now intros _]|].
  split; [exact Hlive|].
  subst s2 s1. now rewrite !clearTimeout_proxy.
Qed.

Lemma step_consistent st s :
  Timers.consistent s -> Timers.consistent (Timers.step st s).
Proof.
  intros [Ha Hd]. destruct st; cbn [Timers.step].
  - unfold Timers._scheduleConfigRefresh.
    destruct (Timers.proxy s) eqn:Hp; cbn [negb];
      [|split; [assumption|intros _; now apply Hd]].
    split; [apply resetTimeout_agree; auto|].
    rewrite resetTimeout_proxy. congruence.
  - unfold Timers.arm_primary_dialog.
    destruct (Timers.proxy s) eqn:Hp; cbn [negb];
      [|split; [assumption|intros _; now apply Hd]].
    split; [apply resetTimeout_agree; auto|].
    rewrite resetTimeout_proxy. congruence.
  - split; [now apply dispatch_agree|].
    unfold Timers.dispatch.
    destruct (find _ (Timers.live s)) as [[i prop]|]; [|exact Hd].
    cbn. intros Hp. now rewrite (Hd Hp).
  - now apply destroy_consistent.
Qed.

Lemma init_consistent : Timers.consistent Timers.init.
Proof.
  split; [|discriminate]. unfold Timers.agree. cbn.
  split; [intros p id; split; [discriminate|contradiction]|].
  split; [constructor|]. repeat split; contradiction.
Qed.

Lemma run_consistent history s :
  Timers.consistent s -> Timers.consistent (Timers.run history s).
Proof.
  revert s. induction history as [|st rest IH]; intros s Hc; [exact Hc|].
  cbn. apply IH. now apply step_consistent.
Qed.

Lemma step_dead st s :
  Timers.proxy s = false -> Timers.consistent s ->
  Timers.proxy (Timers.step st s) = false.
Proof.
  intros Hp Hc. destruct st; cbn [Timers.step].
  - unfold Timers._scheduleConfigRefresh. now rewrite Hp.
  - unfold Timers.arm_primary_dialog. now rewrite Hp.
  - unfold Timers.dispatch.
    destruct (find _ (Timers.live s)) as [[i prop]|]; [|exact Hp]. exact Hp.
  - now apply destroy_consistent, Hc.
Qed.

Lemma run_dead history s :
  Timers.proxy s = false -> Timers.consistent s ->
  Timers.proxy (Timers.run history s) = false.
Proof.
  revert s. induction history as [|st rest IH]; intros s Hp Hc; [exact Hp|].
  cbn. apply IH; [now apply step_dead|now apply step_consistent].
Qed.

Lemma agree_two_sources s :
  Timers.agree s -> (length (Timers.live s) <= 2)%nat.
Proof.
  intros [Hf [Hnd [_ [Hpr _]]]].
  assert (forall i p j q, In (i, p) (Timers.live s) ->
                          In (j, q) (Timers.live s) -> p = q -> i = j) as Hu.
  { intros i p j q Hi Hj ->. apply Hf in Hi. apply Hf in Hj. congruence. }
  clear Hf.
  destruct (Timers.live s) as [|[i1 p1] [|[i2 p2] [|[i3 p3] rest]]];
    cbn; try lia.
  exfalso.
  cbn in Hnd. inversion Hnd as [|? ? N1 Hnd1]; subst.
  inversion Hnd1 as [|? ? N2 Hnd2]; subst.
  cbn in N1, N2.
  assert (In (i1, p1) ((i1, p1) :: (i2, p2) :: (i3, p3) :: rest)) as I1
      by now left.
  assert (In (i2, p2) ((i1, p1) :: (i2, p2) :: (i3, p3) :: rest)) as I2
      by (right; now left).
  assert (In (i3, p3) ((i1, p1) :: (i2, p2) :: (i3, p3) :: rest)) as I3
      by (right; right; now left).
  pose proof (Hu _ _ _ _ I1 I2) as U12.
  pose proof (Hu _ _ _ _ I1 I3) as U13.
  pose proof (Hu _ _ _ _ I2 I3) as U23.
  destruct (Hpr _ I1) as [E1|E1], (Hpr _ I2) as [E2|E2],
           (Hpr _ I3) as [E3|E3]; cbn in E1, E2, E3; subst p1 p2 p3;
    try (specialize (U12 eq_refl)); try (specialize (U13 eq_refl));
    try (specialize (U23 eq_refl)); subst; tauto.
Qed.

(** X18. The timers of the toggle are never leaked. After any history of
    scheduled refreshes, armed prompts, dispatched sources and teardowns, a
    timer property holds an id exactly when a live source with that id was
    armed for it; so each property has at most one live source, at most two
    sources are live, and [GLib.Source.remove] was never called on a source
    that is not live. Once the toggle is destroyed no source is live, and
    none is ever again. *)
Theorem timers_are_never_leaked (history : list Timers.Step) :
  let s := Timers.run history Timers.init in
  (forall p id, Timers.fields s p = Some id <-> In (id, p) (Timers.live s)) /\
  (forall i p j q, In (i, p) (Timers.live s) -> In (j, q) (Timers.live s) ->
                   p = q -> i = j) /\
  (length (Timers.live s) <= 2)%nat /\
  Timers.misses s = 0%nat /\
  (forall later,
      Timers.live (Timers.run (history ++ Timers.Destroy :: later)
                              Timers.init) = []).
Proof.
  intros s.
  assert (Timers.consistent s) as Hc
      by (subst s; apply run_consistent, init_consistent).
  destruct Hc as [Ha Hd]. pose proof Ha as [Hf [Hnd [Hlt [Hpr Hm]]]].
  split; [exact Hf|]. split.
  { intros i p j q Hi Hj ->. apply Hf in Hi. apply Hf in Hj. congruence. }
  split; [now apply agree_two_sources|]. split; [exact Hm|].
  intros later. unfold Timers.run. rewrite fold_left_app. cbn [fold_left].
  fold (Timers.run history Timers.init). fold s.
  fold (Timers.run later (Timers.step Timers.Destroy s)).
  cbn [Timers.step].
  destruct (destroy_consistent Ha) as [Hc' [_ Hp']].
  pose proof (run_consistent later Hc') as [_ Hdead].
  apply Hdead. now apply run_dead.
Qed.

(** * The logger: one handler, lines numbered in order *)

Lemma disconnect_only settings id :
  Logger.disconnect settings id [(settings, id)] = [].
Proof.
  unfold Logger.disconnect. cbn. now rewrite Nat.eqb_refl, Pos.eqb_refl.
Qed.

Lemma shutdownLogger_consistent s :
  Logger.consistent s ->
  Logger.consistent (Logger.shutdownLogger s) /\
  Logger.handlers (Logger.shutdownLogger s) = [] /\
  Logger._enabled (Logger.shutdownLogger s) = false /\
  Logger.lines (Logger.shutdownLogger s) = Logger.lines s.
Proof.
  intros [Hh [Hs [Hq Hl]]].
  assert (Logger.handlers (Logger.shutdownLogger s) = []) as Hnil.
  { unfold Logger.shutdownLogger. cbn. rewrite Hh.
    destruct (Logger._settings s) as [st|]; [|reflexivity].
    destruct (Logger._debugLoggingChangedId s) as [id|]; [|reflexivity].
    apply disconnect_only. }
  split; [|repeat split; [exact Hnil]].
  unfold Logger.consistent. rewrite Hnil. cbn.
  repeat split; auto.
Qed.

Lemma initLogger_consistent settings debugLogging connects s :
  Logger.consistent s ->
  Logger.consistent (Logger.initLogger settings debugLogging connects s).
Proof.
  intros Hc. destruct (shutdownLogger_consistent Hc) as [Hc' [Hnil _]].
  unfold Logger.initLogger. cbv zeta.
  destruct debugLogging as [b|]; [|exact Hc'].
  destruct connects; [|exact Hc'].
  destruct Hc' as [Hh [Hs [Hq Hl]]].
  unfold Logger.consistent. cbn [Logger.handlers Logger._settings
    Logger._debugLoggingChangedId Logger._sequence Logger.lines].
  rewrite Hnil. split; [reflexivity|]. split; [split; discriminate|].
  split; [exact Hq|exact Hl].
Qed.

Lemma changed_consistent debugLogging s :
  Logger.consistent s ->
  Logger.consistent (Logger.debug_logging_changed debugLogging s).
Proof.
  intros Hc. unfold Logger.debug_logging_changed.
  destruct (Logger.handlers s) as [|h hs] eqn:E; [exact Hc|].
  destruct debugLogging; [|exact Hc].
  rewrite <- E. exact Hc.
Qed.

Lemma emit_consistent level event s :
  Logger.consistent s -> Logger.consistent (Logger._emit level event s).
Proof.
  intros [Hh [Hs [Hq Hl]]]. unfold Logger._emit.
  destruct (Logger._enabled s); cbn [negb]; [|repeat split; auto; apply Hs].
  unfold Logger.consistent. cbn [Logger.handlers Logger._settings
    Logger._debugLoggingChangedId Logger._sequence Logger.lines].
  split; [exact Hh|]. split; [exact Hs|]. split.
  - rewrite length_app, Hq. cbn. lia.
  - intros i line Hi.
    destruct (Nat.lt_ge_cases i (length (Logger.lines s))) as [Hlt|Hge].
    + rewrite nth_error_app1 in Hi by exact Hlt. now apply Hl.
    + rewrite nth_error_app2 in Hi by exact Hge.
      destruct (i - length (Logger.lines s))%nat as [|k] eqn:Ek;
        [|destruct k; discriminate].
      cbn in Hi. inversion Hi; subst. cbn. rewrite Hq. lia.
Qed.

Lemma logger_step_consistent st s :
  Logger.consistent s -> Logger.consistent (Logger.step st s).
Proof.
  intros Hc. destruct st; cbn [Logger.step].
  - now apply initLogger_consistent.
  - now apply shutdownLogger_consistent.
  - now apply changed_consistent.
  - now apply emit_consistent.
  - now apply emit_consistent.
  - now apply emit_consistent.
  - now apply emit_consistent.
Qed.

Lemma logger_run_consistent history s :
  Logger.consistent s -> Logger.consistent (Logger.run history s).
Proof.
  revert s. induction history as [|st rest IH]; intros s Hc; [exact Hc|].
  cbn. apply IH. now apply logger_step_consistent.
Qed.

Lemma loaded_consistent : Logger.consistent Logger.loaded.
Proof.
  unfold Logger.consistent. cbn. repeat split; try discriminate; auto.
  intros i line H. now destruct i.
Qed.

Lemma logger_run_app h1 h2 s :
  Logger.run (h1 ++ h2) s = Logger.run h2 (Logger.run h1 s).
Proof. unfold Logger.run. apply fold_left_app. Qed.

(** X19. The logger keeps at most one handler on the settings. After any
    history of initialisations, shutdowns, setting changes and log calls,
    the handlers it has connected and not disconnected are exactly the one
    its module variables record, if any; initialising again disconnects the
    previous one first. After a shutdown, and after an initialisation whose
    [get_boolean] or [connect] throws, no handler is left and the logger is
    off. *)
Theorem logger_keeps_one_handler (history : list Logger.Step) :
  let s := Logger.run history Logger.loaded in
  (length (Logger.handlers s) <= 1)%nat /\
  (forall settings id,
      In (settings, id) (Logger.handlers s) <->
      Logger._settings s = Some settings /\
      Logger._debugLoggingChangedId s = Some id) /\
  (let s' := Logger.shutdownLogger s in
   Logger.handlers s' = [] /\ Logger._enabled s' = false) /\
  (forall settings debugLogging connects,
      debugLogging = None \/ connects = false ->
      let s' := Logger.initLogger settings debugLogging connects s in
      Logger.handlers s' = [] /\ Logger._enabled s' = false) /\
  (forall settings b,
      let s' := Logger.initLogger settings (Some b) true s in
      Logger.handlers s' = [(settings, Logger.next_handler s)] /\
      Logger._enabled s' = b).
Proof.
  intros s.
  assert (Logger.consistent s) as Hc
      by (subst s; apply logger_run_consistent, loaded_consistent).
  pose proof Hc as [Hh [Hs [Hq Hl]]].
  destruct (shutdownLogger_consistent Hc) as [_ [Hnil [Hoff _]]].
  split; [|split; [|split; [|split]]].
  - rewrite Hh. destruct (Logger._settings s);
      [destruct (Logger._debugLoggingChangedId s)|]; cbn; lia.
  - intros settings id. rewrite Hh.
    destruct (Logger._settings s) as [st|] eqn:E1;
      [destruct (Logger._debugLoggingChangedId s) as [i|] eqn:E2|].
    + cbn. split.
      * intros [H|[]]. now inversion H.
      * intros [H1 H2]. inversion H1; inversion H2. now left.
    + cbn. split; [contradiction|]. intros [_ H]. discriminate.
    + cbn. split; [contradiction|]. intros [H _]. discriminate.
  - cbv zeta. now split.
  - intros settings debugLogging connects Hfail s'. subst s'.
    unfold Logger.initLogger. cbv zeta.
    destruct debugLogging as [b|]; [|now split].
    destruct connects; [|now split].
    destruct Hfail; discriminate.
  - intros settings b s'. subst s'. unfold Logger.initLogger. cbv zeta.
    cbn [Logger.handlers Logger._enabled]. rewrite Hnil. now split.
Qed.

Lemma emit_lines level event s :
  Logger.lines (Logger._emit level event s)
  = (Logger.lines s ++
     if Logger._enabled s
     then [ {| Logger.channel := Logger.channel_of level;
               Logger.seq := (Logger._sequence s + 1)%N;
               Logger.level := level; Logger.event := event |} ]
     else [])%list.
Proof.
  unfold Logger._emit. destruct (Logger._enabled s); cbn;
    [reflexivity|now rewrite app_nil_r].
Qed.

Lemma quiet_step_lines st s :
  Logger.writes st = false ->
  Logger.lines (Logger.step st s) = Logger.lines s /\
  Logger._sequence (Logger.step st s) = Logger._sequence s.
Proof.
  destruct st; cbn [Logger.writes Logger.step]; try discriminate; intros _.
  - unfold Logger.initLogger. cbv zeta.
    destruct debugLogging; [destruct connects|]; now split.
  - now split.
  - unfold Logger.debug_logging_changed.
    destruct (Logger.handlers s); [now split|].
    destruct debugLogging; now split.
Qed.

Lemma loud_step_lines st s :
  Logger.writes st = true ->
  exists level event,
    Logger.step st s = Logger._emit level event s /\
    (Logger.channel_of level = Logger.ConsoleError <-> level = "ERROR").
Proof.
  destruct st; cbn [Logger.writes Logger.step]; try discriminate; intros _.
  - exists "DEBUG", event. split; [reflexivity|]. split; discriminate.
  - exists "INFO", event. split; [reflexivity|]. split; discriminate.
  - exists "ERROR", event. split; [reflexivity|]. now split.
  - exists "DEBUG", "step". split; [reflexivity|]. split; discriminate.
Qed.

(** X20. The console lines are numbered in order. After any history the
    sequence counter equals the number of lines written since the module
    was loaded, and the n-th line carries number n: the counter is never
    reset, by a shutdown or by a new initialisation. A log call writes
    exactly one line when the logger is on; when it is off it writes
    nothing and consumes no number; no other step writes. *)
Theorem log_lines_are_numbered_in_order (history : list Logger.Step) :
  let s := Logger.run history Logger.loaded in
  Logger._sequence s = N.of_nat (length (Logger.lines s)) /\
  (forall i line,
      nth_error (Logger.lines s) i = Some line ->
      Logger.seq line = N.of_nat (S i)) /\
  (forall st,
      let s' := Logger.step st s in
      (Logger.writes st && Logger._enabled s = true ->
       exists line,
         Logger.lines s' = (Logger.lines s ++ [line])%list /\
         Logger.seq line = (Logger._sequence s + 1)%N /\
         Logger._sequence s' = (Logger._sequence s + 1)%N) /\
      (Logger.writes st && Logger._enabled s = false ->
       Logger.lines s' = Logger.lines s /\
       Logger._sequence s' = Logger._sequence s)).
Proof.
  intros s.
  assert (Logger.consistent s) as Hc
      by (subst s; apply logger_run_consistent, loaded_consistent).
  destruct Hc as [_ [_ [Hq Hl]]].
  split; [exact Hq|]. split; [exact Hl|].
  intros st s'. subst s'. split.
  - intros H. apply andb_true_iff in H. destruct H as [Hw He].
    destruct (@loud_step_lines st s Hw) as [level [event [-> _]]].
    eexists. rewrite emit_lines, He. split; [reflexivity|].
    split; [reflexivity|]. unfold Logger._emit. now rewrite He.
  - intros H. apply andb_false_iff in H. destruct H as [Hw|He].
    + now apply quiet_step_lines.
    + destruct (Logger.writes st) eqn:Hw; [|now apply quiet_step_lines].
      destruct (@loud_step_lines st s Hw) as [level [event [-> _]]].
      unfold Logger._emit. rewrite He. now split.
Qed.

(** * Display names *)

Section DisplayNames.

Variable gettext : string -> string.
Variable trim : string -> string.
Variable toUpperCase : string -> string.
Variable includes : string -> string -> bool.

Local Abbreviation displayName :=
  (_getMonitorDisplayName gettext trim toUpperCase includes).

Lemma append_nonempty_r (a b : string) : b <> "" -> (a ++ b)%string <> "".
Proof.
  intros Hb. destruct a as [|c a]; simpl; [exact Hb|discriminate].
Qed.

Lemma append_assoc (a b c : string) :
  ((a ++ b) ++ c)%string = (a ++ b ++ c)%string.
Proof. induction a as [|ch a IH]; simpl; [reflexivity|now rewrite IH]. Qed.

Lemma with_connector_nonempty (prefix name : string) :
  (prefix ++ " (" ++ name ++ ")")%string <> "".
Proof. apply append_nonempty_r. discriminate. Qed.

(** X21. The display name of a monitor. Without a connector it is the
    translation of Unknown. For a connector that is not empty it is never
    empty: it is the connector itself when no listed monitor has it or when
    the first such monitor has no product name; otherwise, in the short
    format, the product name, and in any other format a text that ends with
    the connector in parentheses, after the product name or after the trimmed
    vendor and the product name. *)
Theorem display_name_identifies_monitor
        (monitors : list PhysicalMonitor) (name format : string) :
  displayName monitors None format = gettext "Unknown" /\
  displayName monitors (Some "") format = gettext "Unknown" /\
  (name <> "" ->
   displayName monitors (Some name) format <> "" /\
   (find_phys monitors (Some name) = None ->
    displayName monitors (Some name) format = name) /\
   (forall m,
       find_phys monitors (Some name) = Some m ->
       (product m = "" -> displayName monitors (Some name) format = name) /\
       (product m <> "" ->
        displayName monitors (Some name) "short" = product m /\
        (format <> "short" ->
         exists prefix,
           displayName monitors (Some name) format
           = (prefix ++ " (" ++ name ++ ")")%string /\
           (prefix = product m \/
            prefix = (trim (vendor m) ++ " " ++ product m)%string /\
            vendor m <> ""))))).
Proof.
  split; [reflexivity|]. split; [reflexivity|].
  intros Hname. apply str_truthy_iff in Hname.
  unfold _getMonitorDisplayName, find_phys. rewrite Hname. cbn [negb].
  destruct (find (fun m => String.eqb (connector m) name) monitors)
    as [m0|] eqn:Ef.
  - apply str_truthy_iff in Hname. cbv zeta.
    split; [|split; [discriminate|]].
    + destruct (String.eqb format "short").
      * destruct (str_truthy (product m0)) eqn:Ep; [|exact Hname].
        now apply str_truthy_iff.
      * destruct (str_truthy (vendor m0) && str_truthy (product m0)).
        { destruct (includes _ _); [apply with_connector_nonempty|].
          do 2 apply append_nonempty_r. apply with_connector_nonempty. }
        destruct (str_truthy (product m0));
          [apply with_connector_nonempty|exact Hname].
    + intros m Hm. inversion Hm; subst m0; clear Hm. split.
      * intros Hp. rewrite Hp. cbn [str_truthy String.eqb negb andb].
        rewrite andb_false_r. now destruct (String.eqb format "short").
      * intros Hp. apply str_truthy_iff in Hp. rewrite Hp.
        split; [reflexivity|].
        intros Hf. apply String.eqb_neq in Hf. rewrite Hf.
        rewrite andb_true_r.
        destruct (str_truthy (vendor m)) eqn:Ev.
        { apply str_truthy_iff in Ev.
          destruct (includes _ _).
          - eexists. split; [reflexivity|now left].
          - exists (trim (vendor m) ++ " " ++ product m)%string.
            split; [|right; now split].
            now rewrite !append_assoc. }
        eexists. split; [reflexivity|now left].
  - split; [now apply str_truthy_iff|]. split; [reflexivity|].
    intros m Hm. discriminate.
Qed.

End DisplayNames.

(** * The payload of a log line *)

Section Payload.

Variable Num : Type.
Variable bigint_toString : Z -> string.

Local Abbreviation Value := (JsValue Num).
Local Abbreviation safe := (_safeValue bigint_toString).

#[local] Arguments Nat.ltb : simpl never.

(** Induction on a value, through its items, its fields and what it
    unpacks to. *)
Section Induction.

Variable P : Value -> Prop.
Hypothesis Hnull : P (JsNull Num).
Hypothesis Hundefined : P (JsUndefined Num).
Hypothesis Hstring : forall s, P (JsString Num s).
Hypothesis Hnumber : forall n, P (JsNumber n).
Hypothesis Hboolean : forall b, P (JsBoolean Num b).
Hypothesis Hbigint : forall z, P (JsBigInt Num z).
Hypothesis Hfunction : forall name, P (JsFunction Num name).
Hypothesis Hsymbol : forall description, P (JsSymbol Num description).
Hypothesis Harray : forall items, Forall P items -> P (JsArray items).
Hypothesis Hvariant : forall v, P v -> P (JsVariant (inl v)).
Hypothesis Hbroken : forall e, P (JsVariant (inr e)).
Hypothesis Hobject :
  forall fields,
    Forall (fun kv : string * (Value + string) =>
              match snd kv with inl v => P v | inr _ => True end) fields ->
    P (JsObject fields).

Fixpoint JsValue_induction (v : Value) : P v :=
  match v with
  | JsNull _ => Hnull
  | JsUndefined _ => Hundefined
  | JsString _ s => Hstring s
  | JsNumber n => Hnumber n
  | JsBoolean _ b => Hboolean b
  | JsBigInt _ z => Hbigint z
  | JsFunction _ name => Hfunction name
  | JsSymbol _ d => Hsymbol d
  | JsArray items =>
      Harray
        ((fix all (l : list Value) : Forall P l :=
            match l with
            | [] => Forall_nil P
            | i :: rest => Forall_cons i (JsValue_induction i) (all rest)
            end) items)
  | JsVariant (inl u) => Hvariant (JsValue_induction u)
  | JsVariant (inr e) => Hbroken e
  | JsObject fields =>
      Hobject
        ((fix all (l : list (string * (Value + string)))
            : Forall (fun kv => match snd kv with
                                | inl v => P v
                                | inr _ => True
                                end) l :=
            match l with
            | [] => Forall_nil _
            | (k, inl i) :: rest =>
                Forall_cons (k, inl i) (JsValue_induction i) (all rest)
            | (k, inr e) :: rest => Forall_cons (k, inr e) I (all rest)
            end) fields)
  end.

End Induction.

Lemma fold_max_le (A : Type) (f : A -> nat) (l : list A) (n : nat) :
  Forall (fun a => f a <= n)%nat l ->
  (fold_right (fun a m => Nat.max (f a) m) O l <= n)%nat.
Proof.
  induction 1 as [|a l Ha Hl IH]; simpl; [lia|]. lia.
Qed.

Lemma fold_max_ge (A : Type) (f : A -> nat) (l : list A) a :
  In a l -> (f a <= fold_right (fun a m => Nat.max (f a) m) O l)%nat.
Proof.
  induction l as [|b l IH]; simpl; [contradiction|].
  intros [->|H]; [lia|]. specialize (IH H). lia.
Qed.

Lemma safe_too_deep (v : Value) d :
  (5 < d)%nat -> safe v d = JsString Num "[MaxDepth]".
Proof.
  intros H. apply Nat.ltb_lt in H. destruct v; simpl; now rewrite H.
Qed.

Lemma safe_array (items : list Value) d :
  safe (JsArray items) d
  = if (5 <? d)%nat then JsString Num "[MaxDepth]"
    else JsArray (map (fun v => safe v (S d)) items).
Proof. reflexivity. Qed.

Lemma safe_object (fields : list (string * (Value + string))) d :
  safe (JsObject fields) d
  = if (5 <? d)%nat then JsString Num "[MaxDepth]"
    else JsObject
           (map (fun kv : string * (Value + string) =>
                   (fst kv,
                    match snd kv with
                    | inl v => inl (safe v (S d))
                    | inr e =>
                        inl (JsString Num ("[Serialize error: " ++ e ++ "]"))
                    end))
                fields).
Proof. reflexivity. Qed.

Lemma safe_string (s : string) d :
  safe (JsString Num s) d
  = if (5 <? d)%nat then JsString Num "[MaxDepth]" else JsString Num s.
Proof. reflexivity. Qed.

Lemma safe_plain_bounded (v : Value) :
  forall d, plain (safe v d) = true /\ (nesting (safe v d) <= 6 - d)%nat.
Proof.
  induction v using JsValue_induction; intros d;
    remember (6 - d)%nat as bound eqn:Hb;
    destruct (5 <? d)%nat eqn:Hd;
    try (rewrite safe_too_deep by (now apply Nat.ltb_lt);
         split; [reflexivity|simpl; lia]);
    simpl; rewrite Hd; try (split; [reflexivity|simpl; lia]).
  - (* array *)
    apply Nat.ltb_ge in Hd. simpl. split.
    + apply forallb_forall. intros x Hx. apply in_map_iff in Hx.
      destruct Hx as [i [<- Hi]]. rewrite Forall_forall in H.
      now apply H.
    + assert (fold_right (fun i n => Nat.max (nesting i) n) O
                (map (fun v => safe v (S d)) items) <= 6 - S d)%nat as Hm.
      { apply fold_max_le. apply Forall_forall. intros x Hx.
        apply in_map_iff in Hx. destruct Hx as [i [<- Hi]].
        rewrite Forall_forall in H. now apply H. }
      lia.
  - (* variant *)
    apply Nat.ltb_ge in Hd. destruct (IHv (S d)) as [Hp Hn].
    split; [exact Hp|lia].
  - (* object *)
    apply Nat.ltb_ge in Hd. simpl. split.
    + apply forallb_forall. intros x Hx. apply in_map_iff in Hx.
      destruct Hx as [[k [i|e]] [<- Hi]]; simpl; [|reflexivity].
      rewrite Forall_forall in H. now apply (H (k, inl i)).
    + match goal with
      | |- (S ?n <= _)%nat => assert (n <= 6 - S d)%nat as Hm
      end.
      { apply (fold_max_le
                 (fun kv : string * (Value + string) =>
                    match snd kv with inl i => nesting i | inr _ => O end)).
        apply Forall_forall. intros x Hx.
        apply in_map_iff in Hx. destruct Hx as [[k [i|e]] [<- Hi]]; simpl;
          [|lia].
        rewrite Forall_forall in H. now apply (H (k, inl i)). }
      lia.
Qed.

Lemma safe_keeps_plain (v : Value) :
  forall d, plain v = true -> (nesting v + d <= 5)%nat -> safe v d = v.
Proof.
  induction v using JsValue_induction; intros d Hp Hn;
    try discriminate;
    assert ((5 <? d)%nat = false) as Hd by (apply Nat.ltb_ge; lia);
    simpl; rewrite Hd; try reflexivity.
  - (* array *)
    f_equal. simpl in Hp, Hn. rewrite forallb_forall in Hp.
    rewrite <- (map_id items) at 2. apply map_ext_in. intros i Hi.
    rewrite Forall_forall in H. apply H; auto.
    pose proof (fold_max_ge (@nesting Num) items i Hi). lia.
  - (* object *)
    f_equal. simpl in Hp, Hn. rewrite forallb_forall in Hp.
    rewrite <- (map_id fields) at 2. apply map_ext_in.
    intros [k [i|e]] Hi; simpl.
    + f_equal. f_equal. rewrite Forall_forall in H.
      apply (H (k, inl i)); auto.
      * now apply (Hp (k, inl i)).
      * pose proof (fold_max_ge
                      (fun kv : string * (Value + string) =>
                         match snd kv with inl i => nesting i | inr _ => O end)
                      fields (k, inl i) Hi) as Hm.
        simpl in Hm. lia.
    + specialize (Hp (k, inr e) Hi). discriminate.
Qed.

Lemma safe_again (v : Value) :
  forall d d', readable v = true -> (d' <= d)%nat ->
               safe (safe v d) d' = safe v d.
Proof.
  induction v using JsValue_induction; intros d d' Hr Hle;
    destruct (5 <? d)%nat eqn:Hd;
    try (rewrite (@safe_too_deep _ d) by (now apply Nat.ltb_lt);
         simpl; now destruct (5 <? d')%nat);
    assert ((5 <? d')%nat = false) as Hd'
        by (apply Nat.ltb_ge; apply Nat.ltb_ge in Hd; lia);
    simpl; rewrite Hd; try (simpl; now rewrite Hd').
  - (* array *)
    simpl. rewrite Hd'. f_equal. rewrite map_map. apply map_ext_in.
    intros i Hi. rewrite Forall_forall in H. simpl in Hr.
    rewrite forallb_forall in Hr. apply H; [exact Hi|now apply Hr|lia].
  - (* variant *)
    apply IHv; [exact Hr|lia].
  - (* object *)
    simpl. rewrite Hd'. f_equal. rewrite map_map. apply map_ext_in.
    simpl in Hr. rewrite forallb_forall in Hr.
    intros [k [i|e]] Hi; simpl.
    + f_equal. f_equal. rewrite Forall_forall in H.
      apply (H (k, inl i)); [exact Hi|now apply (Hr (k, inl i))|lia].
    + specialize (Hr (k, inr e) Hi). discriminate.
Qed.

(** X22. What [_safeValue] returns is plain data, whatever it is given:
    no bigint, function, symbol or variant is left in it and every property
    is readable; and its arrays and objects nest at most six deep, less the
    depth it was called at. *)
Theorem safeValue_returns_bounded_plain_data (v : Value) (depth : nat) :
  plain (safe v depth) = true /\
  (nesting (safe v depth) <= 6 - depth)%nat /\
  (nesting (safe v 0) <= 6)%nat.
Proof.
  destruct (safe_plain_bounded v depth) as [Hp Hn].
  destruct (safe_plain_bounded v 0) as [_ H0].
  split; [exact Hp|]. split; [exact Hn|exact H0].
Qed.

(** X23. [_safeValue] changes nothing it need not change. Plain data
    that nests at most five deep is returned as it is; and when every
    property of the value can be read, a second pass returns what the first
    returned. *)
Theorem safeValue_keeps_plain_data (v : Value) :
  (plain v = true -> (nesting v <= 5)%nat -> safe v 0 = v) /\
  (forall depth,
      plain v = true -> (nesting v + depth <= 5)%nat -> safe v depth = v) /\
  (forall depth,
      readable v = true -> safe (safe v depth) depth = safe v depth).
Proof.
  split; [|split].
  - intros Hp Hn. apply safe_keeps_plain; [exact Hp|lia].
  - intros depth. apply safe_keeps_plain.
  - intros depth Hr. now apply safe_again.
Qed.

End Payload.

(** * Examples of the further properties *)

(** X2 at a toggle that disables the external display. *)
Lemma disable_makes_one_fetch_one_submission :
  submitted (effects (toggleQ disable_env) fresh_toggle true) <> [] /\
  fetches (effects (toggleQ disable_env) fresh_toggle true) = 1%nat.
Proof.
  assert (submitted (effects (toggleQ disable_env) fresh_toggle true) <> [])
    as H by discriminate.
  split; [exact H|].
  exact (proj1 (proj2 (proj2 (proj1 (@one_toggle_at_most_one_submission
                                       Q (1%Q) round_div_Q fresh_toggle true)
                                    disable_env))) H).
Defined.

(** X4 at the same toggle. *)
Lemma disable_submits_panel_at_origin :
  In panel_alone (submitted (effects (toggleQ disable_env) fresh_toggle true)) /\
  minimum_is (@x Q) panel_alone 0 /\ minimum_is (@y Q) panel_alone 0.
Proof.
  assert (In panel_alone
             (submitted (effects (toggleQ disable_env) fresh_toggle true)))
    as H by (left; reflexivity).
  split; [exact H|].
  pose proof (proj1 (@submitted_layouts_start_at_origin
                       Q (1%Q) round_div_Q fresh_toggle true)
                    disable_env panel_alone H) as T.
  split; [exact (proj1 T)|exact (proj1 (proj2 T))].
Defined.

(** X5 at the same toggle. *)
Lemma disable_submits_known_mode :
  In panel_alone (submitted (effects (toggleQ disable_env) fresh_toggle true)) /\
  names_known_mode (fetched_registry disable_env fresh_toggle)
                   (logical_at 0 0 true [on_panel]).
Proof.
  assert (In panel_alone
             (submitted (effects (toggleQ disable_env) fresh_toggle true)))
    as H by (left; reflexivity).
  split; [exact H|].
  exact (proj1 (@submitted_entries_name_known_modes
                  Q (1%Q) round_div_Q fresh_toggle true)
               disable_env panel_alone (logical_at 0 0 true [on_panel]) H
               (or_introl eq_refl)).
Defined.

(** X6 at the same toggle: the submission carries the serial and the
    layout mode the fetch reported. *)
Lemma disable_submits_with_fetched_serial :
  In (ApplyMonitorsConfig 1 1 panel_alone None)
     (effects (toggleQ disable_env) fresh_toggle true) /\
  1 = persistenceMode fresh_toggle.
Proof.
  assert (In (ApplyMonitorsConfig 1 1 panel_alone None)
             (effects (toggleQ disable_env) fresh_toggle true)) as H.
  { vm_compute. repeat (first [left; reflexivity | right]). }
  split; [exact H|].
  exact (proj1 (proj1 (@submission_carries_fetched_serial
                         Q (1%Q) round_div_Q fresh_toggle true)
                      disable_env 1 1 panel_alone None H)).
Defined.

(** X7 at the same toggle: the selected display is active when the toggle
    is pressed, and absent from the submission. *)
Lemma disable_drops_selected_display :
  In panel_alone (submitted (effects (toggleQ disable_env) fresh_toggle true)) /\
  isActive (fetched_registry disable_env fresh_toggle) = true /\
  existsb (has_connector (Some "HDMI-1")) panel_alone = false.
Proof.
  assert (In panel_alone
             (submitted (effects (toggleQ disable_env) fresh_toggle true)))
    as H by (left; reflexivity).
  assert (isActive (fetched_registry disable_env fresh_toggle) = true)
    as Hactive by reflexivity.
  split; [exact H|]. split; [exact Hactive|].
  exact (proj1 (@toggle_flips_selected_monitor Q (1%Q) round_div_Q
                  fresh_toggle true disable_env panel_alone H) Hactive).
Defined.

(** X8 at the same toggle. *)
Lemma disable_outcome :
  planLayout (1%Q) round_div_Q (fetched_registry disable_env fresh_toggle)
             (xmlConf disable_env) = Candidate panel_alone /\
  toggling after_disable = false /\
  checked after_disable = false /\
  calls (effects (toggleQ disable_env) fresh_toggle true)
  = [GetCurrentState; ApplyMonitorsConfig 1 1 panel_alone None;
     TimeoutSet "_configRefreshTimeoutId" 1200].
Proof.
  assert (planLayout (1%Q) round_div_Q
                     (fetched_registry disable_env fresh_toggle)
                     (xmlConf disable_env) = Candidate panel_alone)
    as Hplan by reflexivity.
  pose proof (@toggle_outcome Q (1%Q) round_div_Q fresh_toggle true
                disable_env eq_refl eq_refl eq_refl eq_refl) as T.
  split; [exact Hplan|]. split; [exact (proj1 T)|].
  pose proof (proj1 (proj2 (proj2 (proj2 (proj2
                (proj1 (proj2 T) panel_alone Hplan))))) eq_refl) as Tok.
  split; [exact (proj1 Tok)|exact (proj2 (proj2 Tok))].
Defined.

(** X9 at a toggle torn down while its fetch is in flight. *)
Lemma torn_down_toggle_stops_after_fetch :
  proxy fresh_toggle = true /\ toggling fresh_toggle = false /\
  torn_down (fetched torn_env) = true /\
  calls (effects (toggleQ torn_env) fresh_toggle true) = [GetCurrentState].
Proof.
  split; [reflexivity|]. split; [reflexivity|]. split; [reflexivity|].
  exact (proj1 (proj1 (proj1 (@torn_down_flow_makes_no_further_call
                                Q (1%Q) round_div_Q fresh_toggle true eq_refl)
                             torn_env eq_refl) eq_refl)).
Defined.


(** X11 at the same fetch: the saved connector is listed and is selected. *)
Lemma first_fetch_selects_saved_connector :
  opt_truthy (monitor fresh_toggle) = false /\
  savedConnector fresh_toggle <> "" /\
  (exists p, In p [panel; external] /\
             connector p = savedConnector fresh_toggle) /\
  monitor (after_fetch (answered both_on) fresh_toggle) = Some "HDMI-1".
Proof.
  assert (savedConnector fresh_toggle <> "") as Hsaved by discriminate.
  assert (exists p, In p [panel; external] /\
                    connector p = savedConnector fresh_toggle) as Hlisted.
  { exists external. split; [right; left; reflexivity|reflexivity]. }
  split; [reflexivity|]. split; [exact Hsaved|]. split; [exact Hlisted|].
  exact (proj1 (proj2 (proj2
           (proj2 (@selection_is_made_once Q fresh_toggle (answered both_on)
                     eq_refl)
                  1 [panel; external] side_by_side [] eq_refl eq_refl
                  eq_refl))) Hsaved Hlisted).
Defined.

(** X12 at the same fetch: both displays are recorded. *)
Lemma first_fetch_records_both_displays :
  full_coverage [panel; external] side_by_side /\
  NoDup (map fst (snapshot (after_fetch (answered both_on) fresh_toggle))) /\
  exists e,
    snap_get "HDMI-1" (snapshot (after_fetch (answered both_on) fresh_toggle))
    = Some e.
Proof.
  assert (full_coverage [panel; external] side_by_side) as Hcover.
  { intros p [Hp|[Hp|[]]]; subst p.
    - exists (logical_at 0 0 true [on_panel]), on_panel.
      split; [left; reflexivity|]. split; [left; reflexivity|reflexivity].
    - exists (logical_at 1920 0 false [on_external]), on_external.
      split; [right; left; reflexivity|].
      split; [left; reflexivity|reflexivity]. }
  assert ([panel; external] <> []) as Hsome by discriminate.
  pose proof (@covering_fetch_records_every_monitor Q fresh_toggle
                (answered both_on) 1 [panel; external] side_by_side []
                eq_refl eq_refl eq_refl Hsome Hcover) as T.
  split; [exact Hcover|]. split; [exact (proj1 T)|].
  exact (proj1 (proj2 (proj2 T)) external (or_intror (or_introl eq_refl))).
Defined.

(** X13 at the toggle that has disabled the external display, enabling it
    again. *)
Lemma enabling_again_keeps_one_primary :
  single_primary after_disable /\
  single_primary (tg (toggleQ enable_env (start after_disable true))).
Proof.
  assert (single_primary after_disable) as H.
  { unfold single_primary. vm_compute. lia. }
  split; [exact H|].
  exact (proj1 (proj2 (proj2 (@registry_holds_at_most_one_primary
                                Q (1%Q) round_div_Q after_disable true) H))
               enable_env).
Defined.

(** X15 at the same toggle: the two displays return side by side. *)
Lemma enabling_again_restores_side_by_side :
  In side_by_side
     (submitted (effects (toggleQ enable_env) after_disable true)) /\
  isActive (fetched_registry enable_env after_disable) = false /\
  hasSnapshot (fetched_registry enable_env after_disable) = true /\
  submitted (effects (toggleQ enable_env) after_disable true)
  = [side_by_side].
Proof.
  assert (In side_by_side
             (submitted (effects (toggleQ enable_env) after_disable true)))
    as H by (lazy; left; reflexivity).
  assert (isActive (fetched_registry enable_env after_disable) = false)
    as Hoff by (lazy; reflexivity).
  assert (hasSnapshot (fetched_registry enable_env after_disable) = true)
    as Hsnap by (lazy; reflexivity).
  split; [exact H|]. split; [exact Hoff|]. split; [exact Hsnap|].
  exact (proj1 (@enable_from_snapshot_rebuilds_arrangement
                  Q (1%Q) round_div_Q after_disable true enable_env
                  side_by_side H Hoff Hsnap)).
Defined.

(** X16 at the toggle that disables the external display. *)
Lemma disable_leaves_panel_at_origin :
  keep_some (map (strip_connector (Some "HDMI-1"))
                 (logicalMonitors (fetched_registry disable_env fresh_toggle)))
  = [logical_at 0 0 true [on_panel]] /\
  _resolveModeId (fetched_registry disable_env fresh_toggle) (Some "eDP-1")
  = Some "m1" /\
  submitted (effects (toggleQ disable_env) fresh_toggle true)
  = [panel_alone].
Proof.
  assert ("m1" <> "") as Hid by discriminate.
  split; [reflexivity|]. split; [reflexivity|].
  exact (@disable_leaves_survivor_at_origin Q (1%Q) round_div_Q fresh_toggle
           true disable_env (logical_at 0 0 true [on_panel]) "eDP-1" "m1"
           eq_refl eq_refl eq_refl eq_refl eq_refl eq_refl eq_refl Hid).
Defined.


(** X18 at a history that leaves the prompt timer armed. *)
Lemma armed_prompt_is_the_recorded_one :
  In (2%positive, "_primaryDialogTimeoutId")
     (Timers.live (Timers.run sample_timers Timers.init)) /\
  Timers.fields (Timers.run sample_timers Timers.init)
                "_primaryDialogTimeoutId" = Some 2%positive.
Proof.
  assert (In (2%positive, "_primaryDialogTimeoutId")
             (Timers.live (Timers.run sample_timers Timers.init)))
    as H by (left; reflexivity).
  split; [exact H|].
  exact (proj2 (proj1 (timers_are_never_leaked sample_timers)
                      "_primaryDialogTimeoutId" 2%positive) H).
Defined.

(** X19 at a logger initialised once, then initialised again with a
    settings object whose key cannot be read. *)
Lemma failed_init_leaves_no_handler :
  (@None bool = None \/ true = false) /\
  Logger.handlers (Logger.initLogger 8 None true
                     (Logger.run sample_logging Logger.loaded)) = [] /\
  Logger._enabled (Logger.initLogger 8 None true
                     (Logger.run sample_logging Logger.loaded)) = false.
Proof.
  assert (@None bool = None \/ true = false) as H by (left; reflexivity).
  split; [exact H|].
  exact (proj1 (proj2 (proj2 (proj2 (logger_keeps_one_handler sample_logging))))
               8%nat None true H).
Defined.

(** X20 at the same logger: its second line carries number 2. *)
Lemma second_line_is_numbered_two :
  nth_error (Logger.lines (Logger.run sample_logging Logger.loaded)) 1
  = Some {| Logger.channel := Logger.ConsoleError; Logger.seq := 2;
            Logger.level := "ERROR"; Logger.event := "toggle.disabled" |} /\
  Logger.seq {| Logger.channel := Logger.ConsoleError; Logger.seq := 2;
                Logger.level := "ERROR"; Logger.event := "toggle.disabled" |}
  = N.of_nat 2.
Proof.
  split; [reflexivity|].
  exact (proj1 (proj2 (log_lines_are_numbered_in_order sample_logging))
               1%nat _ eq_refl).
Defined.

(** X21 at the external display, with string operations that leave their
    argument alone. *)
Lemma external_display_short_name :
  "HDMI-1" <> "" /\
  find_phys [panel; external] (Some "HDMI-1") = Some external /\
  product external <> "" /\
  _getMonitorDisplayName (fun s => s) (fun s => s) (fun s => s)
                         (fun _ _ => false) [panel; external]
                         (Some "HDMI-1") "short" = "U2720Q".
Proof.
  assert ("HDMI-1" <> "") as Hname by discriminate.
  assert (product external <> "") as Hproduct by discriminate.
  split; [exact Hname|]. split; [reflexivity|]. split; [exact Hproduct|].
  exact (proj1 (proj2 (proj2 (proj2 (proj2 (proj2
           (display_name_identifies_monitor
              (fun s => s) (fun s => s) (fun s => s) (fun _ _ => false)
              [panel; external] "HDMI-1" "long")) Hname))
           external eq_refl) Hproduct)).
Defined.

(** X23 at a payload of plain data. *)
Lemma plain_payload_is_logged_as_is :
  plain plain_payload = true /\ (nesting plain_payload <= 5)%nat /\
  _safeValue (fun n => "12") plain_payload 0 = plain_payload.
Proof.
  assert (nesting plain_payload <= 5)%nat as Hdepth by (vm_compute; lia).
  split; [reflexivity|]. split; [exact Hdepth|].
  exact (proj1 (@safeValue_keeps_plain_data Z (fun n => "12") plain_payload)
               eq_refl Hdepth).
Defined.

